(** * Session and media-transport layer of the Hinglish chat client

    A shallow embedding of the chat page component ([HinglishChatbot]:
    socket life cycle, [handleSocketMessage], [sendTextMessage],
    [sendAudioMessage]) and of the [VoiceRecorder] component
    ([getSupportedMimeType], [startRecording], [stopRecording] and the
    recorder's [onstop] handler), together with the platform primitives
    the handlers call: JavaScript strings, [String.prototype.trim],
    [JSON.stringify], [JSON.parse], base64 data URLs. *)

From Stdlib Require Import List Arith NArith Bool Ascii String Lia DecimalN.
From Stdlib Require Floats Uint63 ZArith.
Import ListNotations.

Set Warnings "-register-all".
Local Open Scope N_scope.

(** ** JavaScript strings

    A JavaScript string is a sequence of UTF-16 code units.  Code units
    are kept as binary naturals; every function below leaves units it
    does not recognise untouched, so no range side condition is needed. *)
Module JS.

Definition code_unit := N.
Definition jsstring := list code_unit.

(** An ASCII literal of the source text. *)
Definition lit (s : string) : jsstring :=
  map N_of_ascii (list_ascii_of_string s).

(** The same, written with an apostrophe wherever the text has a double
    quote. *)
Definition sq (s : string) : jsstring :=
  map (fun c => if c =? 39 then 34 else c) (lit s).

Fixpoint jsstring_eqb (a b : jsstring) : bool :=
  match a, b with
  | [], [] => true
  | x :: a', y :: b' => (x =? y) && jsstring_eqb a' b'
  | _, _ => false
  end.

(** WhiteSpace and LineTerminator code points of ECMAScript, the ones
    [trim] strips. *)
Definition is_white_space (c : code_unit) : bool :=
  (c =? 9) || (c =? 10) || (c =? 11) || (c =? 12) || (c =? 13) || (c =? 32)
  || (c =? 160) || (c =? 5760) || ((8192 <=? c) && (c <=? 8202))
  || (c =? 8232) || (c =? 8233) || (c =? 8239) || (c =? 8287)
  || (c =? 12288) || (c =? 65279).

Fixpoint trimStart (s : jsstring) : jsstring :=
  match s with
  | [] => []
  | c :: s' => if is_white_space c then trimStart s' else s
  end.

Definition trimEnd (s : jsstring) : jsstring := rev (trimStart (rev s)).

(** [s.trim()] *)
Definition trim (s : jsstring) : jsstring := trimEnd (trimStart s).

(** Truthiness of a string: [!s] holds exactly for the empty string. *)
Definition is_empty (s : jsstring) : bool :=
  match s with [] => true | _ :: _ => false end.

(** [s.split(sep)] for a separator of one code unit: [cur] is the piece
    being read, in reverse. *)
Fixpoint split_from (sep : code_unit) (cur : jsstring) (s : jsstring)
  : list jsstring :=
  match s with
  | [] => [rev cur]
  | c :: s' =>
      if c =? sep then rev cur :: split_from sep [] s'
      else split_from sep (c :: cur) s'
  end.

Definition split (sep : code_unit) (s : jsstring) : list jsstring :=
  split_from sep [] s.

(** Entry [i] of a table of platform objects replaced, and entry [k] of
    a queue taken out; an index out of range changes nothing. *)
Fixpoint replace_nth {A : Type} (i : nat) (x : A) (l : list A) : list A :=
  match l, i with
  | [], _ => []
  | _ :: l', O => x :: l'
  | y :: l', S i' => y :: replace_nth i' x l'
  end.

Fixpoint remove_nth {A : Type} (k : nat) (l : list A) : list A :=
  match l, k with
  | [], _ => []
  | _ :: l', O => l'
  | x :: l', S k' => x :: remove_nth k' l'
  end.

End JS.

(** ** JSON text: [JSON.stringify] on records of strings, [JSON.parse] *)
Module JSON.
Import JS.

(** The value [JSON.parse] builds.  A number keeps the literal it was
    read from; an object keeps its members in source order, and a
    property read takes the last member of that name, as a later
    duplicate overwrites an earlier one. *)
Inductive json : Type :=
| JNull
| JBool (b : bool)
| JNumber (literal : jsstring)
| JString (s : jsstring)
| JArray (elements : list json)
| JObject (members : list (jsstring * json)).

(** *** QuoteJSONString *)

Definition is_high_surrogate (c : code_unit) : bool :=
  (55296 <=? c) && (c <=? 56319).
Definition is_low_surrogate (c : code_unit) : bool :=
  (56320 <=? c) && (c <=? 57343).

Definition hex_digit (d : N) : code_unit :=
  if d <? 10 then 48 + d else 87 + d.

(** [\uXXXX] with lower-case digits. *)
Definition unicode_escape (c : code_unit) : jsstring :=
  [92; 117; hex_digit ((c / 4096) mod 16); hex_digit ((c / 256) mod 16);
   hex_digit ((c / 16) mod 16); hex_digit (c mod 16)].

(** One code unit that is not the first half of a surrogate pair. *)
Definition quote_unit (c : code_unit) : jsstring :=
  if c =? 8 then [92; 98]
  else if c =? 9 then [92; 116]
  else if c =? 10 then [92; 110]
  else if c =? 12 then [92; 102]
  else if c =? 13 then [92; 114]
  else if c =? 34 then [92; 34]
  else if c =? 92 then [92; 92]
  else if (c <? 32) || is_high_surrogate c || is_low_surrogate c
       then unicode_escape c
  else [c].

(** The characters between the quotes: a well-formed surrogate pair is
    copied, a lone surrogate is escaped. *)
Fixpoint quote_body (s : jsstring) : jsstring :=
  match s with
  | [] => []
  | c :: s' =>
      if is_high_surrogate c then
        match s' with
        | d :: s'' =>
            if is_low_surrogate d then c :: d :: quote_body s''
            else unicode_escape c ++ quote_body s'
        | [] => unicode_escape c
        end
      else quote_unit c ++ quote_body s'
  end.

Definition quote (s : jsstring) : jsstring := 34 :: quote_body s ++ [34].

(** *** SerializeJSONObject, for an object whose own properties are
    strings, taken in creation order, without indentation. *)
Definition member_text (p : jsstring * jsstring) : jsstring :=
  quote (fst p) ++ 58 :: quote (snd p).

Fixpoint more_members (ps : list (jsstring * jsstring)) : jsstring :=
  match ps with
  | [] => []
  | p :: ps' => 44 :: member_text p ++ more_members ps'
  end.

Definition JSON_stringify (props : list (jsstring * jsstring)) : jsstring :=
  match props with
  | [] => [123; 125]
  | p :: ps => 123 :: member_text p ++ more_members ps ++ [125]
  end.

(** *** Lexical analysis of a JSON text *)

Inductive token : Type :=
| TLBrace | TRBrace | TLBracket | TRBracket | TColon | TComma
| TString (s : jsstring)
| TNumber (literal : jsstring)
| TTrue | TFalse | TNull.

(** Where the scanner stands.  Accumulators are in reverse. *)
Inductive mode : Type :=
| Start
| InStr (acc : jsstring)
| Esc (acc : jsstring)
| Uni (acc : jsstring) (todo : nat) (value : N)
| InNum (acc : jsstring)
| InWord (acc : jsstring).

Definition is_json_ws (c : code_unit) : bool :=
  (c =? 32) || (c =? 9) || (c =? 10) || (c =? 13).
Definition is_digit (c : code_unit) : bool := (48 <=? c) && (c <=? 57).
Definition is_lower (c : code_unit) : bool := (97 <=? c) && (c <=? 122).
Definition is_number_unit (c : code_unit) : bool :=
  is_digit c || (c =? 45) || (c =? 43) || (c =? 46) || (c =? 101) || (c =? 69).

Definition hex_value (c : code_unit) : option N :=
  if is_digit c then Some (c - 48)
  else if (97 <=? c) && (c <=? 102) then Some (c - 87)
  else if (65 <=? c) && (c <=? 70) then Some (c - 55)
  else None.

(** The number grammar: an optional minus sign; a single zero, or a
    non-zero digit followed by digits; optionally a dot and one or more
    digits; optionally e or E, an optional sign, and one or more digits. *)
Inductive num_state : Type :=
| NStart | NMinus | NZero | NInt | NDot | NFrac | NExp | NExpSign | NExpDigits
| NBad.

Definition num_step (q : num_state) (c : code_unit) : num_state :=
  match q with
  | NStart => if c =? 45 then NMinus else if c =? 48 then NZero
              else if is_digit c then NInt else NBad
  | NMinus => if c =? 48 then NZero else if is_digit c then NInt else NBad
  | NZero => if c =? 46 then NDot
             else if (c =? 101) || (c =? 69) then NExp else NBad
  | NInt => if is_digit c then NInt else if c =? 46 then NDot
            else if (c =? 101) || (c =? 69) then NExp else NBad
  | NDot => if is_digit c then NFrac else NBad
  | NFrac => if is_digit c then NFrac
             else if (c =? 101) || (c =? 69) then NExp else NBad
  | NExp => if (c =? 43) || (c =? 45) then NExpSign
            else if is_digit c then NExpDigits else NBad
  | NExpSign => if is_digit c then NExpDigits else NBad
  | NExpDigits => if is_digit c then NExpDigits else NBad
  | NBad => NBad
  end.

Definition valid_number (s : jsstring) : bool :=
  match fold_left num_step s NStart with
  | NZero | NInt | NFrac | NExpDigits => true
  | _ => false
  end.

Definition number_token (acc : jsstring) : option token :=
  if valid_number (rev acc) then Some (TNumber (rev acc)) else None.

Definition word_token (acc : jsstring) : option token :=
  let w := rev acc in
  if jsstring_eqb w (lit "true") then Some TTrue
  else if jsstring_eqb w (lit "false") then Some TFalse
  else if jsstring_eqb w (lit "null") then Some TNull
  else None.

(** A code unit met between tokens. *)
Definition start_step (c : code_unit) : option (list token * mode) :=
  if is_json_ws c then Some ([], Start)
  else if c =? 123 then Some ([TLBrace], Start)
  else if c =? 125 then Some ([TRBrace], Start)
  else if c =? 91 then Some ([TLBracket], Start)
  else if c =? 93 then Some ([TRBracket], Start)
  else if c =? 58 then Some ([TColon], Start)
  else if c =? 44 then Some ([TComma], Start)
  else if c =? 34 then Some ([], InStr [])
  else if (c =? 45) || is_digit c then Some ([], InNum [c])
  else if is_lower c then Some ([], InWord [c])
  else None.

Definition after_token (t : option token) (c : code_unit)
  : option (list token * mode) :=
  match t with
  | None => None
  | Some t =>
      match start_step c with
      | None => None
      | Some (ts, m) => Some (t :: ts, m)
      end
  end.

Definition lex_step (m : mode) (c : code_unit) : option (list token * mode) :=
  match m with
  | Start => start_step c
  | InStr acc =>
      if c =? 34 then Some ([TString (rev acc)], Start)
      else if c =? 92 then Some ([], Esc acc)
      else if c <? 32 then None
      else Some ([], InStr (c :: acc))
  | Esc acc =>
      if c =? 34 then Some ([], InStr (34 :: acc))
      else if c =? 92 then Some ([], InStr (92 :: acc))
      else if c =? 47 then Some ([], InStr (47 :: acc))
      else if c =? 98 then Some ([], InStr (8 :: acc))
      else if c =? 102 then Some ([], InStr (12 :: acc))
      else if c =? 110 then Some ([], InStr (10 :: acc))
      else if c =? 114 then Some ([], InStr (13 :: acc))
      else if c =? 116 then Some ([], InStr (9 :: acc))
      else if c =? 117 then Some ([], Uni acc 4 0)
      else None
  | Uni acc todo value =>
      match hex_value c with
      | None => None
      | Some d =>
          match todo with
          | O => None
          | S O => Some ([], InStr (16 * value + d :: acc))
          | S todo' => Some ([], Uni acc todo' (16 * value + d))
          end
      end
  | InNum acc =>
      if is_number_unit c then Some ([], InNum (c :: acc))
      else after_token (number_token acc) c
  | InWord acc =>
      if is_lower c then Some ([], InWord (c :: acc))
      else after_token (word_token acc) c
  end.

Definition lex_end (m : mode) : option (list token) :=
  match m with
  | Start => Some []
  | InNum acc => option_map (fun t => [t]) (number_token acc)
  | InWord acc => option_map (fun t => [t]) (word_token acc)
  | InStr _ | Esc _ | Uni _ _ _ => None
  end.

(** Tokens put in front of those of the rest of the text, when the
    rest of the text could be read. *)
Definition prepend (ts : list token) (o : option (list token))
  : option (list token) :=
  match o with
  | None => None
  | Some r => Some (ts ++ r)
  end.

Fixpoint lex_from (m : mode) (s : jsstring) : option (list token) :=
  match s with
  | [] => lex_end m
  | c :: s' =>
      match lex_step m c with
      | None => None
      | Some (ts, m') => prepend ts (lex_from m' s')
      end
  end.

(** *** Syntactic analysis of the token sequence *)

(** An enclosing container still open: the elements or members read so
    far (in reverse), and for an object the name awaiting its value. *)
Inductive frame : Type :=
| FArray (done : list json)
| FObject (done : list (jsstring * json)) (key : jsstring).

Inductive pstate : Type :=
| SValue (stack : list frame)
| SArrayFirst (stack : list frame)
| SObjectFirst (stack : list frame)
| SKey (done : list (jsstring * json)) (stack : list frame)
| SColon (done : list (jsstring * json)) (key : jsstring) (stack : list frame)
| SArrayNext (done : list json) (stack : list frame)
| SObjectNext (done : list (jsstring * json)) (stack : list frame)
| SDone (v : json).

(** A finished value goes to the innermost open container. *)
Definition deliver (v : json) (stack : list frame) : pstate :=
  match stack with
  | [] => SDone v
  | FArray done :: stack' => SArrayNext (v :: done) stack'
  | FObject done key :: stack' => SObjectNext ((key, v) :: done) stack'
  end.

Definition value_step (stack : list frame) (t : token) : option pstate :=
  match t with
  | TLBrace => Some (SObjectFirst stack)
  | TLBracket => Some (SArrayFirst stack)
  | TString s => Some (deliver (JString s) stack)
  | TNumber l => Some (deliver (JNumber l) stack)
  | TTrue => Some (deliver (JBool true) stack)
  | TFalse => Some (deliver (JBool false) stack)
  | TNull => Some (deliver JNull stack)
  | TRBrace | TRBracket | TColon | TComma => None
  end.

Definition parse_step (st : pstate) (t : token) : option pstate :=
  match st with
  | SValue stack => value_step stack t
  | SArrayFirst stack =>
      match t with
      | TRBracket => Some (deliver (JArray []) stack)
      | _ => value_step (FArray [] :: stack) t
      end
  | SObjectFirst stack =>
      match t with
      | TRBrace => Some (deliver (JObject []) stack)
      | TString k => Some (SColon [] k stack)
      | _ => None
      end
  | SKey done stack =>
      match t with
      | TString k => Some (SColon done k stack)
      | _ => None
      end
  | SColon done key stack =>
      match t with
      | TColon => Some (SValue (FObject done key :: stack))
      | _ => None
      end
  | SArrayNext done stack =>
      match t with
      | TComma => Some (SValue (FArray done :: stack))
      | TRBracket => Some (deliver (JArray (rev done)) stack)
      | _ => None
      end
  | SObjectNext done stack =>
      match t with
      | TComma => Some (SKey done stack)
      | TRBrace => Some (deliver (JObject (rev done)) stack)
      | _ => None
      end
  | SDone _ => None
  end.

Fixpoint parse_tokens (st : pstate) (ts : list token) : option json :=
  match ts with
  | [] => match st with SDone v => Some v | _ => None end
  | t :: ts' =>
      match parse_step st t with
      | None => None
      | Some st' => parse_tokens st' ts'
      end
  end.

(** [JSON.parse(text)]; [None] stands for the SyntaxError it throws. *)
Definition JSON_parse (text : jsstring) : option json :=
  match lex_from Start text with
  | None => None
  | Some ts => parse_tokens (SValue []) ts
  end.

(** *** The two passes, prefix by prefix *)

(** An object or an array, as every message of the protocol is. *)
Definition is_container (v : json) : bool :=
  match v with
  | JObject _ | JArray _ => true
  | _ => false
  end.

(** The tokens of numbers and of the words true, false and null. *)
Definition is_scalar_token (t : token) : bool :=
  match t with
  | TNumber _ | TTrue | TFalse | TNull => true
  | _ => false
  end.

(** The scanner through a part of the text: the tokens complete so far
    and where it stands. *)
Fixpoint lex_run (m : mode) (s : jsstring) : option (list token * mode) :=
  match s with
  | [] => Some ([], m)
  | c :: s' =>
      match lex_step m c with
      | None => None
      | Some (ts, m') =>
          match lex_run m' s' with
          | None => None
          | Some (ts', m'') => Some (ts ++ ts', m'')
          end
      end
  end.

(** The parser through a part of the tokens. *)
Fixpoint parse_run (st : pstate) (ts : list token) : option pstate :=
  match ts with
  | [] => Some st
  | t :: ts' =>
      match parse_step st t with
      | None => None
      | Some st' => parse_run st' ts'
      end
  end.

(** The scanner is inside a number or a word. *)
Definition in_scalar (m : mode) : bool :=
  match m with
  | InNum _ | InWord _ => true
  | _ => false
  end.

(** The tokens of a serialized record of strings, and the value they
    denote. *)
Definition member_tokens (p : jsstring * jsstring) : list token :=
  [TString (fst p); TColon; TString (snd p)].

Fixpoint more_tokens (ps : list (jsstring * jsstring)) : list token :=
  match ps with
  | [] => []
  | p :: ps' => TComma :: member_tokens p ++ more_tokens ps'
  end.

Definition object_tokens (props : list (jsstring * jsstring)) : list token :=
  match props with
  | [] => [TLBrace; TRBrace]
  | p :: ps => TLBrace :: member_tokens p ++ more_tokens ps ++ [TRBrace]
  end.

Definition string_member (p : jsstring * jsstring) : jsstring * json :=
  (fst p, JString (snd p)).

Definition record_value (props : list (jsstring * jsstring)) : json :=
  JObject (map string_member props).

End JSON.

(** ** Blobs and [FileReader.readAsDataURL] *)
Module Blob.
Import JS.

Record Blob : Type := {
  blob_bytes : list Byte.byte;
  blob_type : jsstring
}.

(** The type a [Blob] constructor keeps: the empty string when the given
    one has a code unit outside U+0020..U+007E, its ASCII lower case
    otherwise. *)
Definition ascii_lower (c : code_unit) : code_unit :=
  if (65 <=? c) && (c <=? 90) then c + 32 else c.

Definition printable (c : code_unit) : bool := (32 <=? c) && (c <=? 126).

Definition normalize_type (t : jsstring) : jsstring :=
  if forallb printable t then map ascii_lower t else [].

(** [new Blob(parts, { type })]: the parts one after the other. *)
Definition new_Blob (parts : list Blob) (type : jsstring) : Blob :=
  {| blob_bytes := List.concat (map blob_bytes parts);
     blob_type := normalize_type type |}.

(** [blob.size] *)
Definition size (b : Blob) : nat := List.length (blob_bytes b).

(** Base64 with the standard alphabet and padding. *)
Definition base64_char (i : N) : code_unit :=
  if i <? 26 then 65 + i
  else if i <? 52 then 97 + (i - 26)
  else if i <? 62 then 48 + (i - 52)
  else if i =? 62 then 43
  else 47.

Fixpoint base64 (bs : list Byte.byte) : jsstring :=
  match bs with
  | [] => []
  | [a] =>
      let a := Byte.to_N a in
      [base64_char (a / 4); base64_char ((a mod 4) * 16); 61; 61]
  | [a; b] =>
      let a := Byte.to_N a in
      let b := Byte.to_N b in
      [base64_char (a / 4); base64_char ((a mod 4) * 16 + b / 16);
       base64_char ((b mod 16) * 4); 61]
  | a :: b :: c :: rest =>
      let a := Byte.to_N a in
      let b := Byte.to_N b in
      let c := Byte.to_N c in
      base64_char (a / 4) :: base64_char ((a mod 4) * 16 + b / 16)
      :: base64_char ((b mod 16) * 4 + c / 64) :: base64_char (c mod 64)
      :: base64 rest
  end.

(** The media type a data URL names for a blob. *)
Definition media_type (b : Blob) : jsstring :=
  if is_empty (blob_type b) then lit "application/octet-stream"
  else blob_type b.

(** The data URL [FileReader.readAsDataURL] leaves in [reader.result]. *)
Definition data_url (b : Blob) : jsstring :=
  lit "data:" ++ media_type b ++ lit ";base64," ++ base64 (blob_bytes b).

End Blob.

(** ** The chat page: [HinglishChatbot] *)
Module Chat.
Import JS JSON Blob.

Inductive ReadyState : Type := CONNECTING | OPEN | CLOSING | CLOSED.

Inductive ConnectionStatus : Type := disconnected | connecting | connected.

Inductive MessageType : Type := user | ai | error.

(** A JavaScript value read from a parsed message: [None] is
    [undefined]. *)
Definition jsvalue : Type := option json.

(** The [text] of a message: a value stored as it is, or the template
    literal that prefixes the interpolated value with the word Error, a
    colon and a space. *)
Inductive MessageText : Type :=
| Text (v : jsvalue)
| ErrorTemplate (v : jsvalue).

Record Message : Type := {
  id : N;
  type : MessageType;
  text : MessageText;
  language : jsvalue;
  audioBase64 : jsvalue;
  ttsEngine : jsvalue;
  timestamp : N
}.

(** A [FileReader] started by [sendAudioMessage] whose [onloadend] has
    not run yet, with the values its closure holds. *)
Record PendingRead : Type := {
  read_blob : Blob;
  read_language : jsstring;
  read_conversationMode : jsstring
}.

(** The component's state and refs, and the part of the platform its
    handlers act on: the sockets constructed so far with their
    [readyState], the frames handed to [send] (with the socket they went
    to), the reconnection timers not fired yet (their due times), the
    file readers still loading, the clock in milliseconds, and whether
    the [WebSocket] constructor accepts the configured URL. *)
Record State : Type := {
  messages : list Message;
  inputText : jsstring;
  isProcessing : bool;
  currentLanguage : jsstring;
  connectionStatus : ConnectionStatus;
  conversationMode : jsstring;
  socketRef : option nat;
  sockets : list ReadyState;
  wire : list (nat * jsstring);
  timers : list N;
  readers : list PendingRead;
  clock : N;
  wsUrlValid : bool
}.

Definition setMessages (f : list Message -> list Message) (st : State) : State :=
  {| messages := f (messages st); inputText := inputText st;
     isProcessing := isProcessing st; currentLanguage := currentLanguage st;
     connectionStatus := connectionStatus st;
     conversationMode := conversationMode st; socketRef := socketRef st;
     sockets := sockets st; wire := wire st; timers := timers st;
     readers := readers st; clock := clock st; wsUrlValid := wsUrlValid st |}.

Definition setInputText (v : jsstring) (st : State) : State :=
  {| messages := messages st; inputText := v;
     isProcessing := isProcessing st; currentLanguage := currentLanguage st;
     connectionStatus := connectionStatus st;
     conversationMode := conversationMode st; socketRef := socketRef st;
     sockets := sockets st; wire := wire st; timers := timers st;
     readers := readers st; clock := clock st; wsUrlValid := wsUrlValid st |}.

Definition setIsProcessing (v : bool) (st : State) : State :=
  {| messages := messages st; inputText := inputText st;
     isProcessing := v; currentLanguage := currentLanguage st;
     connectionStatus := connectionStatus st;
     conversationMode := conversationMode st; socketRef := socketRef st;
     sockets := sockets st; wire := wire st; timers := timers st;
     readers := readers st; clock := clock st; wsUrlValid := wsUrlValid st |}.

Definition setCurrentLanguage (v : jsstring) (st : State) : State :=
  {| messages := messages st; inputText := inputText st;
     isProcessing := isProcessing st; currentLanguage := v;
     connectionStatus := connectionStatus st;
     conversationMode := conversationMode st; socketRef := socketRef st;
     sockets := sockets st; wire := wire st; timers := timers st;
     readers := readers st; clock := clock st; wsUrlValid := wsUrlValid st |}.

Definition setConnectionStatus (v : ConnectionStatus) (st : State) : State :=
  {| messages := messages st; inputText := inputText st;
     isProcessing := isProcessing st; currentLanguage := currentLanguage st;
     connectionStatus := v;
     conversationMode := conversationMode st; socketRef := socketRef st;
     sockets := sockets st; wire := wire st; timers := timers st;
     readers := readers st; clock := clock st; wsUrlValid := wsUrlValid st |}.

Definition setConversationMode (v : jsstring) (st : State) : State :=
  {| messages := messages st; inputText := inputText st;
     isProcessing := isProcessing st; currentLanguage := currentLanguage st;
     connectionStatus := connectionStatus st;
     conversationMode := v; socketRef := socketRef st;
     sockets := sockets st; wire := wire st; timers := timers st;
     readers := readers st; clock := clock st; wsUrlValid := wsUrlValid st |}.

(** The state of the first render, at time 0. *)
Definition initial (wsUrlValid : bool) : State :=
  {| messages := []; inputText := []; isProcessing := false;
     currentLanguage := lit "hinglish"; connectionStatus := disconnected;
     conversationMode := lit "guidance_counselor"; socketRef := None;
     sockets := []; wire := []; timers := []; readers := []; clock := 0;
     wsUrlValid := wsUrlValid |}.

(** *** The platform operations the handlers call *)

(** [socketRef.current = new WebSocket(wsUrl)], once the constructor has
    accepted the URL. *)
Definition new_WebSocket (st : State) : State :=
  {| messages := messages st; inputText := inputText st;
     isProcessing := isProcessing st; currentLanguage := currentLanguage st;
     connectionStatus := connectionStatus st;
     conversationMode := conversationMode st;
     socketRef := Some (List.length (sockets st));
     sockets := sockets st ++ [CONNECTING]; wire := wire st;
     timers := timers st; readers := readers st; clock := clock st;
     wsUrlValid := wsUrlValid st |}.

Definition set_sockets (l : list ReadyState) (st : State) : State :=
  {| messages := messages st; inputText := inputText st;
     isProcessing := isProcessing st; currentLanguage := currentLanguage st;
     connectionStatus := connectionStatus st;
     conversationMode := conversationMode st; socketRef := socketRef st;
     sockets := l; wire := wire st; timers := timers st;
     readers := readers st; clock := clock st; wsUrlValid := wsUrlValid st |}.

Definition set_timers (l : list N) (st : State) : State :=
  {| messages := messages st; inputText := inputText st;
     isProcessing := isProcessing st; currentLanguage := currentLanguage st;
     connectionStatus := connectionStatus st;
     conversationMode := conversationMode st; socketRef := socketRef st;
     sockets := sockets st; wire := wire st; timers := l;
     readers := readers st; clock := clock st; wsUrlValid := wsUrlValid st |}.

Definition set_readers (l : list PendingRead) (st : State) : State :=
  {| messages := messages st; inputText := inputText st;
     isProcessing := isProcessing st; currentLanguage := currentLanguage st;
     connectionStatus := connectionStatus st;
     conversationMode := conversationMode st; socketRef := socketRef st;
     sockets := sockets st; wire := wire st; timers := timers st;
     readers := l; clock := clock st; wsUrlValid := wsUrlValid st |}.

Definition set_clock (t : N) (st : State) : State :=
  {| messages := messages st; inputText := inputText st;
     isProcessing := isProcessing st; currentLanguage := currentLanguage st;
     connectionStatus := connectionStatus st;
     conversationMode := conversationMode st; socketRef := socketRef st;
     sockets := sockets st; wire := wire st; timers := timers st;
     readers := readers st; clock := t; wsUrlValid := wsUrlValid st |}.

(** [socket.send(data)] on socket [i]. *)
Definition send (i : nat) (data : jsstring) (st : State) : State :=
  {| messages := messages st; inputText := inputText st;
     isProcessing := isProcessing st; currentLanguage := currentLanguage st;
     connectionStatus := connectionStatus st;
     conversationMode := conversationMode st; socketRef := socketRef st;
     sockets := sockets st; wire := wire st ++ [(i, data)];
     timers := timers st; readers := readers st; clock := clock st;
     wsUrlValid := wsUrlValid st |}.

Definition readyState (i : nat) (st : State) : option ReadyState :=
  nth_error (sockets st) i.

(** [socketRef.current && socketRef.current.readyState === WebSocket.OPEN]:
    the socket to send on, if there is one and it is open. *)
Definition open_socket (st : State) : option nat :=
  match socketRef st with
  | None => None
  | Some i =>
      match readyState i st with
      | Some OPEN => Some i
      | _ => None
      end
  end.

Definition set_readyState (i : nat) (r : ReadyState) (st : State) : State :=
  set_sockets (replace_nth i r (sockets st)) st.

(** [socket.close()]: a socket that is connecting or open starts its
    closing handshake; the close event comes later. *)
Definition socket_close (i : nat) (st : State) : State :=
  match readyState i st with
  | Some CONNECTING | Some OPEN => set_readyState i CLOSING st
  | _ => st
  end.

(** [setTimeout(connectWebSocket, delay)] *)
Definition setTimeout_connect (delay : N) (st : State) : State :=
  set_timers (timers st ++ [clock st + delay]) st.

(** [reader.readAsDataURL(blob)], with the language and mode that the
    closure of [onloadend] holds. *)
Definition readAsDataURL (b : Blob) (language mode : jsstring) (st : State)
  : State :=
  set_readers
    (readers st ++ [{| read_blob := b;
                       read_language := language;
                       read_conversationMode := mode |}]) st.

(** *** Reading a parsed message *)

Fixpoint last_member (name : jsstring) (ms : list (jsstring * json))
  : jsvalue :=
  match ms with
  | [] => None
  | (k, v) :: ms' =>
      match last_member name ms' with
      | Some w => Some w
      | None => if jsstring_eqb k name then Some v else None
      end
  end.

(** [message.name] for the names the handler reads (none of them an
    index, [length] or a prototype property): [undefined] on anything
    but an object that has the member.  Not to be used on [null]. *)
Definition get (message : json) (name : jsstring) : jsvalue :=
  match message with
  | JObject ms => last_member name ms
  | _ => None
  end.

(** [v === 'literal'] *)
Definition strict_equal (v : jsvalue) (s : jsstring) : bool :=
  match v with
  | Some (JString s') => jsstring_eqb s' s
  | _ => false
  end.

(** *** The handlers *)

Inductive Exception : Type := SyntaxError | TypeError.

(** How a handler ends: it returns, or an exception leaves it uncaught;
    either way with the state as it then is. *)
Inductive Outcome : Type :=
| Returned (st : State)
| Thrown (e : Exception) (st : State).

Definition state_of (o : Outcome) : State :=
  match o with
  | Returned st => st
  | Thrown _ st => st
  end.

(** [connectWebSocket] *)
Definition connectWebSocket (st : State) : State :=
  let st := setConnectionStatus connecting st in
  if wsUrlValid st then new_WebSocket st
  else setTimeout_connect 3000 (setConnectionStatus disconnected st).

Definition onopen (st : State) : State := setConnectionStatus connected st.

Definition onclose (st : State) : State :=
  setTimeout_connect 3000 (setConnectionStatus disconnected st).

Definition onerror (st : State) : State :=
  setConnectionStatus disconnected st.

(** The effect's cleanup. *)
Definition cleanup (st : State) : State :=
  match socketRef st with
  | Some i => socket_close i st
  | None => st
  end.

(** [handleSocketMessage].  Playing the audio of a response touches
    none of the state kept here and catches its own failures; it is
    left out. *)
Definition handleSocketMessage (data : jsstring) (st : State) : Outcome :=
  match JSON_parse data with
  | None => Thrown SyntaxError st
  | Some JNull => Thrown TypeError st
  | Some message =>
      let t := get message (lit "type") in
      if strict_equal t (lit "audio_response")
         || strict_equal t (lit "text_response") then
        let newMessage :=
          {| id := clock st; type := ai;
             text := Text (get message (lit "response_text"));
             language := get message (lit "detected_language");
             audioBase64 := get message (lit "audio_response");
             ttsEngine := get message (lit "tts_engine");
             timestamp := clock st |} in
        Returned (setIsProcessing false
                    (setMessages (fun prev => prev ++ [newMessage]) st))
      else if strict_equal t (lit "error") then
        let errorMessage :=
          {| id := clock st; type := error;
             text := ErrorTemplate (get message (lit "message"));
             language := None; audioBase64 := None; ttsEngine := None;
             timestamp := clock st |} in
        Returned (setIsProcessing false
                    (setMessages (fun prev => prev ++ [errorMessage]) st))
      else Returned (setIsProcessing false st)
  end.

(** The object [sendTextMessage] serializes. *)
Definition text_envelope (text language mode : jsstring)
  : list (jsstring * jsstring) :=
  [(lit "type", lit "text"); (lit "data", text);
   (lit "language", language); (lit "conversationMode", mode)].

(** The [userMessage] object of [sendTextMessage]. *)
Definition userMessage (text : jsstring) (st : State) : Message :=
  {| id := clock st; type := user; text := Text (Some (JString text));
     language := Some (JString (currentLanguage st));
     audioBase64 := None; ttsEngine := None; timestamp := clock st |}.

(** [sendTextMessage] *)
Definition sendTextMessage (text : jsstring) (st : State) : State :=
  if is_empty (trim text) then st
  else
    match socketRef st with
    | None => st
    | Some _ =>
        let st1 :=
          setMessages (fun prev => prev ++ [userMessage text st]) st in
        let st2 := setInputText [] st1 in
        let st3 := setIsProcessing true st2 in
        match open_socket st3 with
        | Some i =>
            send i (JSON_stringify
                      (text_envelope text (currentLanguage st)
                                     (conversationMode st))) st3
        | None => st3
        end
    end.

(** The object [onloadend] serializes; a property whose value is
    [undefined] is left out by [JSON.stringify]. *)
Definition audio_envelope (base64Audio : option jsstring)
                          (language mode : jsstring)
  : list (jsstring * jsstring) :=
  (lit "type", lit "audio")
  :: match base64Audio with
     | Some d => [(lit "data", d)]
     | None => []
     end
  ++ [(lit "language", language); (lit "conversationMode", mode)].

(** The [sendAudioMessage] of a render in which [currentLanguage] and
    [conversationMode] were [language] and [mode]: the recorder calls
    the function of the render in which the recording was started,
    which keeps these values whatever the state has become.  The
    argument is [None] for a missing blob. *)
Definition sendAudioMessage (language mode : jsstring)
                            (audioBlob : option Blob) (st : State) : State :=
  match audioBlob, socketRef st with
  | Some b, Some _ => readAsDataURL b language mode (setIsProcessing true st)
  | _, _ => st
  end.

(** [reader.onloadend], for a reader started by [sendAudioMessage] with
    the language and mode of that call; [result] is [None] for the
    [null] a failed read leaves. *)
Definition onloadend (result : option jsstring) (language mode : jsstring)
                     (st : State) : Outcome :=
  match result with
  | None => Thrown TypeError st
  | Some url =>
      let base64Audio := nth_error (split 44 url) 1 in
      match open_socket st with
      | Some i =>
          Returned (send i (JSON_stringify
                              (audio_envelope base64Audio language mode)) st)
      | None => Returned st
      end
  end.

Definition handleSubmit (st : State) : State :=
  sendTextMessage (inputText st) st.

Definition handleRecordingComplete (language mode : jsstring)
                                   (audioBlob : Blob) (st : State) : State :=
  sendAudioMessage language mode (Some audioBlob) st.

(** [toggleLanguage]: [indexOf] gives -1 for a language outside the
    list, and the next index is then 0. *)
Definition toggleLanguage (st : State) : State :=
  let l := currentLanguage st in
  if jsstring_eqb l (lit "hinglish") then setCurrentLanguage (lit "hi") st
  else if jsstring_eqb l (lit "hi") then setCurrentLanguage (lit "en") st
  else setCurrentLanguage (lit "hinglish") st.

(** *** Events *)

(** What can happen to the page: mounting and unmounting, the events of
    socket [i], a reconnection timer coming due, time passing, a file
    reader finishing, and the user acting on the controls.  A socket
    closes in one task: its [readyState] becomes closed, the error event
    is fired if the connection failed, then the close event. *)
Inductive Event : Type :=
| Mounted
| Unmounted
| SocketOpen (i : nat)
| SocketClose (i : nat) (failed : bool)
| SocketMessage (i : nat) (data : jsstring)
| TimerFires (k : nat)
| Elapse (ms : N)
| ReaderLoadEnd (k : nat) (ok : bool)
| Change (value : jsstring)
| EnterKey
| SendClick
| TopicClick (topic : jsstring)
| LanguageClick
| SettingsChange (mode : jsstring).

(** One turn of the event loop.  An event the platform cannot deliver
    (a socket that does not exist or is past the event, a timer not due,
    a control that is disabled or not rendered) leaves the state as it
    is.  The textarea is disabled while [isProcessing]; the send button
    while [isProcessing] or when the trimmed input is empty; the topic
    buttons are rendered while there is no message.  The state updates
    that handlers ask for after the unmount are kept like the others;
    what they do to sockets and timers does not depend on them. *)
Definition step (st : State) (e : Event) : State :=
  match e with
  | Mounted => connectWebSocket st
  | Unmounted => cleanup st
  | SocketOpen i =>
      match readyState i st with
      | Some CONNECTING => onopen (set_readyState i OPEN st)
      | _ => st
      end
  | SocketClose i failed =>
      match readyState i st with
      | Some CLOSED | None => st
      | Some _ =>
          let st1 := set_readyState i CLOSED st in
          onclose (if failed then onerror st1 else st1)
      end
  | SocketMessage i data =>
      match readyState i st with
      | Some OPEN => state_of (handleSocketMessage data st)
      | _ => st
      end
  | TimerFires k =>
      match nth_error (timers st) k with
      | Some due =>
          if due <=? clock st
          then connectWebSocket (set_timers (remove_nth k (timers st)) st)
          else st
      | None => st
      end
  | Elapse ms => set_clock (clock st + ms) st
  | ReaderLoadEnd k ok =>
      match nth_error (readers st) k with
      | Some r =>
          state_of
            (onloadend (if ok then Some (data_url (read_blob r)) else None)
                       (read_language r) (read_conversationMode r)
                       (set_readers (remove_nth k (readers st)) st))
      | None => st
      end
  | Change value => if isProcessing st then st else setInputText value st
  | EnterKey => if isProcessing st then st else handleSubmit st
  | SendClick =>
      if is_empty (trim (inputText st)) || isProcessing st then st
      else handleSubmit st
  | TopicClick topic =>
      match messages st with
      | [] => setInputText topic st
      | _ :: _ => st
      end
  | LanguageClick => toggleLanguage st
  | SettingsChange mode => setConversationMode mode st
  end.

(** *** The transcript grows at its end *)

(** [b] is [a] with messages appended. *)
Definition extends (a b : list Message) : Prop := exists new, b = a ++ new.

End Chat.

(** ** The recorder: [VoiceRecorder] *)
Module Recorder.
Import JS Blob.

(** *** Negotiating the encoding *)

(** The [for ... of] loop of [getSupportedMimeType] over the types still
    to try, with the value returned after the loop. *)
Fixpoint first_supported (isTypeSupported : jsstring -> bool)
                         (types : list jsstring) (fallback : jsstring)
  : jsstring :=
  match types with
  | [] => fallback
  | type :: types' =>
      if isTypeSupported type then type
      else first_supported isTypeSupported types' fallback
  end.

Definition types : list jsstring :=
  [lit "audio/webm;codecs=opus"; lit "audio/webm"; lit "audio/mp4";
   lit "audio/wav"].

(** [getSupportedMimeType], over [MediaRecorder.isTypeSupported]. *)
Definition getSupportedMimeType (isTypeSupported : jsstring -> bool)
  : jsstring :=
  first_supported isTypeSupported types (lit "audio/webm").

(** *** State *)

Inductive RecordingState : Type := inactive | recording.

(** The [onRecordingComplete] prop of a render, as the values the
    function closes over: the page's language and conversation mode in
    that render. *)
Definition Callback : Type := (jsstring * jsstring)%type.

(** A [MediaRecorder]: the stream, the type and the callback its
    [onstop] closure holds, its [state], and whether its stop event is
    still to come. *)
Record MediaRecorder : Type := {
  rec_stream : nat;
  rec_mimeType : jsstring;
  rec_onRecordingComplete : Callback;
  rec_state : RecordingState;
  rec_stop_due : bool
}.

(** A [getUserMedia] promise not settled yet: the probe of
    [requestMicrophonePermission], or the request of a [startRecording]
    with the prop of the render it was called in. *)
Inductive Request : Type :=
| PermissionProbe
| CaptureRequest (onRecordingComplete : Callback).

(** What the handlers did to the platform, oldest first. *)
Inductive Effect : Type :=
| TrackStop (stream : nat)
| ContextClose (context : nat)
| CancelAnimationFrame (handle : nat)
| ClearInterval (handle : nat)
| RecordingComplete (clip : Blob)
| Alert.

(** The component's state and refs, then the platform: the recorders
    constructed so far, the animation-frame requests and the intervals
    that are pending, a source of fresh identifiers (streams, audio
    contexts, frame requests, intervals), the [getUserMedia] promises
    pending, the effects, and the capability table.  A stream asked for
    with an audio constraint alone has one track; [TrackStop] of the
    stream records stopping it. *)
Record State : Type := {
  isRecording : bool;
  recordingTime : N;
  audioLevel : N * N;
  hasPermission : option bool;
  mediaRecorderRef : option nat;
  audioChunksRef : list Blob;
  audioContextRef : option nat;
  analyserRef : option nat;
  animationFrameRef : option nat;
  intervalRef : option nat;
  recorders : list MediaRecorder;
  frames : list nat;
  intervals : list nat;
  fresh : nat;
  pending : list Request;
  effects : list Effect;
  isTypeSupported : jsstring -> bool
}.

Definition setIsRecording (v : bool) (st : State) : State :=
  {| isRecording := v; recordingTime := recordingTime st;
     audioLevel := audioLevel st; hasPermission := hasPermission st;
     mediaRecorderRef := mediaRecorderRef st;
     audioChunksRef := audioChunksRef st;
     audioContextRef := audioContextRef st; analyserRef := analyserRef st;
     animationFrameRef := animationFrameRef st;
     intervalRef := intervalRef st; recorders := recorders st;
     frames := frames st; intervals := intervals st; fresh := fresh st;
     pending := pending st; effects := effects st;
     isTypeSupported := isTypeSupported st |}.

Definition setRecordingTime (v : N) (st : State) : State :=
  {| isRecording := isRecording st; recordingTime := v;
     audioLevel := audioLevel st; hasPermission := hasPermission st;
     mediaRecorderRef := mediaRecorderRef st;
     audioChunksRef := audioChunksRef st;
     audioContextRef := audioContextRef st; analyserRef := analyserRef st;
     animationFrameRef := animationFrameRef st;
     intervalRef := intervalRef st; recorders := recorders st;
     frames := frames st; intervals := intervals st; fresh := fresh st;
     pending := pending st; effects := effects st;
     isTypeSupported := isTypeSupported st |}.

Definition setAudioLevel (v : N * N) (st : State) : State :=
  {| isRecording := isRecording st; recordingTime := recordingTime st;
     audioLevel := v; hasPermission := hasPermission st;
     mediaRecorderRef := mediaRecorderRef st;
     audioChunksRef := audioChunksRef st;
     audioContextRef := audioContextRef st; analyserRef := analyserRef st;
     animationFrameRef := animationFrameRef st;
     intervalRef := intervalRef st; recorders := recorders st;
     frames := frames st; intervals := intervals st; fresh := fresh st;
     pending := pending st; effects := effects st;
     isTypeSupported := isTypeSupported st |}.

Definition setHasPermission (v : option bool) (st : State) : State :=
  {| isRecording := isRecording st; recordingTime := recordingTime st;
     audioLevel := audioLevel st; hasPermission := v;
     mediaRecorderRef := mediaRecorderRef st;
     audioChunksRef := audioChunksRef st;
     audioContextRef := audioContextRef st; analyserRef := analyserRef st;
     animationFrameRef := animationFrameRef st;
     intervalRef := intervalRef st; recorders := recorders st;
     frames := frames st; intervals := intervals st; fresh := fresh st;
     pending := pending st; effects := effects st;
     isTypeSupported := isTypeSupported st |}.

Definition set_mediaRecorderRef (v : option nat) (st : State) : State :=
  {| isRecording := isRecording st; recordingTime := recordingTime st;
     audioLevel := audioLevel st; hasPermission := hasPermission st;
     mediaRecorderRef := v; audioChunksRef := audioChunksRef st;
     audioContextRef := audioContextRef st; analyserRef := analyserRef st;
     animationFrameRef := animationFrameRef st;
     intervalRef := intervalRef st; recorders := recorders st;
     frames := frames st; intervals := intervals st; fresh := fresh st;
     pending := pending st; effects := effects st;
     isTypeSupported := isTypeSupported st |}.

Definition set_audioChunksRef (v : list Blob) (st : State) : State :=
  {| isRecording := isRecording st; recordingTime := recordingTime st;
     audioLevel := audioLevel st; hasPermission := hasPermission st;
     mediaRecorderRef := mediaRecorderRef st; audioChunksRef := v;
     audioContextRef := audioContextRef st; analyserRef := analyserRef st;
     animationFrameRef := animationFrameRef st;
     intervalRef := intervalRef st; recorders := recorders st;
     frames := frames st; intervals := intervals st; fresh := fresh st;
     pending := pending st; effects := effects st;
     isTypeSupported := isTypeSupported st |}.

Definition set_audioContextRef (v : option nat) (st : State) : State :=
  {| isRecording := isRecording st; recordingTime := recordingTime st;
     audioLevel := audioLevel st; hasPermission := hasPermission st;
     mediaRecorderRef := mediaRecorderRef st;
     audioChunksRef := audioChunksRef st; audioContextRef := v;
     analyserRef := analyserRef st;
     animationFrameRef := animationFrameRef st;
     intervalRef := intervalRef st; recorders := recorders st;
     frames := frames st; intervals := intervals st; fresh := fresh st;
     pending := pending st; effects := effects st;
     isTypeSupported := isTypeSupported st |}.

Definition set_analyserRef (v : option nat) (st : State) : State :=
  {| isRecording := isRecording st; recordingTime := recordingTime st;
     audioLevel := audioLevel st; hasPermission := hasPermission st;
     mediaRecorderRef := mediaRecorderRef st;
     audioChunksRef := audioChunksRef st;
     audioContextRef := audioContextRef st; analyserRef := v;
     animationFrameRef := animationFrameRef st;
     intervalRef := intervalRef st; recorders := recorders st;
     frames := frames st; intervals := intervals st; fresh := fresh st;
     pending := pending st; effects := effects st;
     isTypeSupported := isTypeSupported st |}.

Definition set_animationFrameRef (v : option nat) (st : State) : State :=
  {| isRecording := isRecording st; recordingTime := recordingTime st;
     audioLevel := audioLevel st; hasPermission := hasPermission st;
     mediaRecorderRef := mediaRecorderRef st;
     audioChunksRef := audioChunksRef st;
     audioContextRef := audioContextRef st; analyserRef := analyserRef st;
     animationFrameRef := v; intervalRef := intervalRef st;
     recorders := recorders st; frames := frames st;
     intervals := intervals st; fresh := fresh st; pending := pending st;
     effects := effects st; isTypeSupported := isTypeSupported st |}.

Definition set_intervalRef (v : option nat) (st : State) : State :=
  {| isRecording := isRecording st; recordingTime := recordingTime st;
     audioLevel := audioLevel st; hasPermission := hasPermission st;
     mediaRecorderRef := mediaRecorderRef st;
     audioChunksRef := audioChunksRef st;
     audioContextRef := audioContextRef st; analyserRef := analyserRef st;
     animationFrameRef := animationFrameRef st; intervalRef := v;
     recorders := recorders st; frames := frames st;
     intervals := intervals st; fresh := fresh st; pending := pending st;
     effects := effects st; isTypeSupported := isTypeSupported st |}.

Definition set_recorders (v : list MediaRecorder) (st : State) : State :=
  {| isRecording := isRecording st; recordingTime := recordingTime st;
     audioLevel := audioLevel st; hasPermission := hasPermission st;
     mediaRecorderRef := mediaRecorderRef st;
     audioChunksRef := audioChunksRef st;
     audioContextRef := audioContextRef st; analyserRef := analyserRef st;
     animationFrameRef := animationFrameRef st;
     intervalRef := intervalRef st; recorders := v; frames := frames st;
     intervals := intervals st; fresh := fresh st; pending := pending st;
     effects := effects st; isTypeSupported := isTypeSupported st |}.

Definition set_frames (v : list nat) (st : State) : State :=
  {| isRecording := isRecording st; recordingTime := recordingTime st;
     audioLevel := audioLevel st; hasPermission := hasPermission st;
     mediaRecorderRef := mediaRecorderRef st;
     audioChunksRef := audioChunksRef st;
     audioContextRef := audioContextRef st; analyserRef := analyserRef st;
     animationFrameRef := animationFrameRef st;
     intervalRef := intervalRef st; recorders := recorders st; frames := v;
     intervals := intervals st; fresh := fresh st; pending := pending st;
     effects := effects st; isTypeSupported := isTypeSupported st |}.

Definition set_intervals (v : list nat) (st : State) : State :=
  {| isRecording := isRecording st; recordingTime := recordingTime st;
     audioLevel := audioLevel st; hasPermission := hasPermission st;
     mediaRecorderRef := mediaRecorderRef st;
     audioChunksRef := audioChunksRef st;
     audioContextRef := audioContextRef st; analyserRef := analyserRef st;
     animationFrameRef := animationFrameRef st;
     intervalRef := intervalRef st; recorders := recorders st;
     frames := frames st; intervals := v; fresh := fresh st;
     pending := pending st; effects := effects st;
     isTypeSupported := isTypeSupported st |}.

Definition set_fresh (v : nat) (st : State) : State :=
  {| isRecording := isRecording st; recordingTime := recordingTime st;
     audioLevel := audioLevel st; hasPermission := hasPermission st;
     mediaRecorderRef := mediaRecorderRef st;
     audioChunksRef := audioChunksRef st;
     audioContextRef := audioContextRef st; analyserRef := analyserRef st;
     animationFrameRef := animationFrameRef st;
     intervalRef := intervalRef st; recorders := recorders st;
     frames := frames st; intervals := intervals st; fresh := v;
     pending := pending st; effects := effects st;
     isTypeSupported := isTypeSupported st |}.

Definition set_pending (v : list Request) (st : State) : State :=
  {| isRecording := isRecording st; recordingTime := recordingTime st;
     audioLevel := audioLevel st; hasPermission := hasPermission st;
     mediaRecorderRef := mediaRecorderRef st;
     audioChunksRef := audioChunksRef st;
     audioContextRef := audioContextRef st; analyserRef := analyserRef st;
     animationFrameRef := animationFrameRef st;
     intervalRef := intervalRef st; recorders := recorders st;
     frames := frames st; intervals := intervals st; fresh := fresh st;
     pending := v; effects := effects st;
     isTypeSupported := isTypeSupported st |}.

Definition set_effects (v : list Effect) (st : State) : State :=
  {| isRecording := isRecording st; recordingTime := recordingTime st;
     audioLevel := audioLevel st; hasPermission := hasPermission st;
     mediaRecorderRef := mediaRecorderRef st;
     audioChunksRef := audioChunksRef st;
     audioContextRef := audioContextRef st; analyserRef := analyserRef st;
     animationFrameRef := animationFrameRef st;
     intervalRef := intervalRef st; recorders := recorders st;
     frames := frames st; intervals := intervals st; fresh := fresh st;
     pending := pending st; effects := v;
     isTypeSupported := isTypeSupported st |}.
(** The state of the first render.  Identifiers start at 1: a handle is
    never the 0 that the guards of the cleanup take for an unset ref. *)
Definition initial (isTypeSupported : jsstring -> bool) : State :=
  {| isRecording := false; recordingTime := 0; audioLevel := (0, 1);
     hasPermission := None; mediaRecorderRef := None; audioChunksRef := [];
     audioContextRef := None; analyserRef := None;
     animationFrameRef := None; intervalRef := None; recorders := [];
     frames := []; intervals := []; fresh := 1%nat; pending := [];
     effects := []; isTypeSupported := isTypeSupported |}.

Definition log (e : Effect) (st : State) : State :=
  set_effects (effects st ++ [e]) st.

Fixpoint remove_nat (h : nat) (l : list nat) : list nat :=
  match l with
  | [] => []
  | x :: l' => if Nat.eqb x h then remove_nat h l' else x :: remove_nat h l'
  end.

(** *** Platform operations *)

(** [requestAnimationFrame(updateAudioLevel)], stored in the ref. *)
Definition requestAnimationFrame (st : State) : State :=
  let h := fresh st in
  set_animationFrameRef (Some h)
    (set_frames (frames st ++ [h]) (set_fresh (S h) st)).

Definition cancelAnimationFrame (h : nat) (st : State) : State :=
  log (CancelAnimationFrame h) (set_frames (remove_nat h (frames st)) st).

(** [intervalRef.current = setInterval(..., 1000)] *)
Definition setInterval (st : State) : State :=
  let h := fresh st in
  set_intervalRef (Some h)
    (set_intervals (intervals st ++ [h]) (set_fresh (S h) st)).

Definition clearInterval (h : nat) (st : State) : State :=
  log (ClearInterval h) (set_intervals (remove_nat h (intervals st)) st).

(** The level the visualizer is given: the mean of the frequency bins
    over 255, as a percentage; kept as the exact quotient of the pair,
    the buffer having 128 bins for an FFT size of 256. *)
Definition bufferLength : N := 128.

Definition level (dataArray : list N) : N * N :=
  (fold_left N.add dataArray 0 * 100, bufferLength * 255).

(** [updateAudioLevel] *)
Definition updateAudioLevel (dataArray : list N) (st : State) : State :=
  requestAnimationFrame (setAudioLevel (level dataArray) st).

Definition recorder (r : nat) (st : State) : option MediaRecorder :=
  nth_error (recorders st) r.

(** A recorder as [stop()] leaves it, its stop event due, and as the
    stop event leaves it. *)
Definition stopping (m : MediaRecorder) : MediaRecorder :=
  {| rec_stream := rec_stream m; rec_mimeType := rec_mimeType m;
     rec_onRecordingComplete := rec_onRecordingComplete m;
     rec_state := inactive; rec_stop_due := true |}.

Definition stopped (m : MediaRecorder) : MediaRecorder :=
  {| rec_stream := rec_stream m; rec_mimeType := rec_mimeType m;
     rec_onRecordingComplete := rec_onRecordingComplete m;
     rec_state := inactive; rec_stop_due := false |}.

(** [recorder.stop()]: a recorder that is recording becomes inactive at
    once and its stop event is queued; on an inactive one nothing
    happens. *)
Definition recorder_stop (r : nat) (st : State) : State :=
  match recorder r st with
  | Some m =>
      match rec_state m with
      | recording =>
          set_recorders (replace_nth r (stopping m) (recorders st)) st
      | inactive => st
      end
  | None => st
  end.

(** *** The handlers *)

(** [requestMicrophonePermission], up to its [await]. *)
Definition requestMicrophonePermission (st : State) : State :=
  set_pending (pending st ++ [PermissionProbe]) st.

(** The rest of [requestMicrophonePermission]: the stream obtained is
    stopped at once; a refusal is caught. *)
Definition permission_settled (granted : bool) (st : State) : State :=
  if granted then
    let stream := fresh st in
    log (TrackStop stream)
        (setHasPermission (Some true) (set_fresh (S stream) st))
  else setHasPermission (Some false) st.

(** [startRecording], up to its [await], with the props of the render
    it belongs to. *)
Definition startRecording (disabled : bool) (onRecordingComplete : Callback)
                          (st : State) : State :=
  match hasPermission st with
  | Some true =>
      if disabled then st
      else set_pending (pending st ++ [CaptureRequest onRecordingComplete]) st
  | _ => st
  end.

(** The rest of [startRecording] once [getUserMedia] has settled:
    [dataArray] is what the analyser gives to the first call of
    [updateAudioLevel].  A refusal, and a [MediaRecorder] constructor
    that rejects the type, end in the [catch] block. *)
Definition capture_settled (granted : bool)
                           (onRecordingComplete : Callback)
                           (dataArray : list N) (st : State) : State :=
  if granted then
    let stream := fresh st in
    let context := S stream in
    let st1 :=
      set_analyserRef (Some context)
        (set_audioContextRef (Some context) (set_fresh (S context) st)) in
    let st2 := updateAudioLevel dataArray st1 in
    let mimeType := getSupportedMimeType (isTypeSupported st2) in
    if isTypeSupported st2 mimeType then
      let r := List.length (recorders st2) in
      let st3 :=
        set_audioChunksRef []
          (set_mediaRecorderRef (Some r)
             (set_recorders
                (recorders st2
                 ++ [{| rec_stream := stream;
                        rec_mimeType := mimeType;
                        rec_onRecordingComplete := onRecordingComplete;
                        rec_state := recording;
                        rec_stop_due := false |}]) st2)) in
      setInterval (setIsRecording true st3)
    else log Alert st2
  else log Alert st.

(** [ondataavailable] *)
Definition ondataavailable (data : Blob) (st : State) : State :=
  if Nat.ltb 0 (size data)
  then set_audioChunksRef (audioChunksRef st ++ [data]) st
  else st.

Definition when_set (ref : option nat) (f : nat -> State -> State)
                    (st : State) : State :=
  match ref with
  | Some h => f h st
  | None => st
  end.

(** The cleanup in [onstop], after the callback. *)
Definition release (stream : nat) (st : State) : State :=
  let st1 := log (TrackStop stream) st in
  let st2 := when_set (audioContextRef st1)
                      (fun c => log (ContextClose c)) st1 in
  let st3 := when_set (animationFrameRef st2) cancelAnimationFrame st2 in
  let st4 := when_set (intervalRef st3) clearInterval st3 in
  setRecordingTime 0 (setAudioLevel (0, 1) st4).

(** [onstop] of a recorder made for [stream] with [mimeType]: the clip
    handed to [onRecordingComplete], and the state after the cleanup. *)
Definition onstop (stream : nat) (mimeType : jsstring) (st : State)
  : Blob * State :=
  let audioBlob := new_Blob (audioChunksRef st) mimeType in
  (audioBlob, release stream (log (RecordingComplete audioBlob) st)).

(** [stopRecording] *)
Definition stopRecording (st : State) : State :=
  match mediaRecorderRef st with
  | Some r =>
      if isRecording st then setIsRecording false (recorder_stop r st)
      else st
  | None => st
  end.

(** The cleanup of the mount effect. *)
Definition unmount (st : State) : State :=
  let st1 := when_set (animationFrameRef st) cancelAnimationFrame st in
  when_set (intervalRef st1) clearInterval st1.

(** A click on the component's button: the permission button when
    permission was refused, nothing while it is being asked, the
    record button otherwise. *)
Definition click (disabled : bool) (onRecordingComplete : Callback)
                 (st : State) : State :=
  if disabled then st
  else
    match hasPermission st with
    | Some false => requestMicrophonePermission st
    | None => st
    | Some true =>
        if isRecording st then stopRecording st
        else startRecording disabled onRecordingComplete st
    end.

(** *** Events *)

(** What can happen to the recorder: mounting and unmounting, a click
    on its button, the [k]-th pending [getUserMedia] promise settling,
    animation frame [h] coming due, interval [h] ticking, recorder [r]
    delivering data or its stop event. *)
Inductive Event : Type :=
| Mounted
| Unmounted
| Click
| MediaSettled (k : nat) (granted : bool) (dataArray : list N)
| AnimationFrame (h : nat) (dataArray : list N)
| IntervalTick (h : nat)
| DataAvailable (r : nat) (data : Blob)
| Stopped (r : nat).

Definition mem (h : nat) (l : list nat) : bool := existsb (Nat.eqb h) l.

(** One turn of the event loop, with the props of the current render:
    the state after it and, if the turn called a render's
    [onRecordingComplete], that callback and the clip it was given.  A
    recorder delivers data while it records or has its stop event due,
    and its stop event when it is due or when it stops by itself. *)
Definition step (disabled : bool) (onRecordingComplete : Callback)
                (st : State) (e : Event)
  : State * option (Callback * Blob) :=
  match e with
  | Mounted => (requestMicrophonePermission st, None)
  | Unmounted => (unmount st, None)
  | Click => (click disabled onRecordingComplete st, None)
  | MediaSettled k granted dataArray =>
      match nth_error (pending st) k with
      | Some PermissionProbe =>
          (permission_settled granted
             (set_pending (remove_nth k (pending st)) st), None)
      | Some (CaptureRequest callback) =>
          (capture_settled granted callback dataArray
             (set_pending (remove_nth k (pending st)) st), None)
      | None => (st, None)
      end
  | AnimationFrame h dataArray =>
      if mem h (frames st)
      then (updateAudioLevel dataArray
              (set_frames (remove_nat h (frames st)) st), None)
      else (st, None)
  | IntervalTick h =>
      if mem h (intervals st)
      then (setRecordingTime (recordingTime st + 1) st, None)
      else (st, None)
  | DataAvailable r data =>
      match recorder r st with
      | Some m =>
          match rec_state m, rec_stop_due m with
          | inactive, false => (st, None)
          | _, _ => (ondataavailable data st, None)
          end
      | None => (st, None)
      end
  | Stopped r =>
      match recorder r st with
      | Some m =>
          match rec_state m, rec_stop_due m with
          | inactive, false => (st, None)
          | _, _ =>
              let st1 :=
                set_recorders (replace_nth r (stopped m) (recorders st)) st in
              let (clip, st2) := onstop (rec_stream m) (rec_mimeType m) st1 in
              (st2, Some (rec_onRecordingComplete m, clip))
          end
      | None => (st, None)
      end
  end.

(** The recorder alone, through a sequence of events under one value of
    the props. *)
Definition run (disabled : bool) (onRecordingComplete : Callback)
               (st : State) (es : list Event) : State :=
  fold_left (fun s e => fst (step disabled onRecordingComplete s e)) es st.

(** *** Sessions *)

(** The resources of a session are held: recorder [r] of the ref is [m],
    the refs hold the session's audio context, its interval and the
    animation frame requested last, and these are the only timers
    pending. *)
Definition session (st : State) (r : nat) (m : MediaRecorder)
                   (context interval : nat) : Prop :=
  mediaRecorderRef st = Some r
  /\ recorder r st = Some m
  /\ audioContextRef st = Some context
  /\ intervalRef st = Some interval
  /\ intervals st = [interval]
  /\ exists h, animationFrameRef st = Some h /\ frames st = [h].

(** A capture session is under way: its recorder records. *)
Definition capturing (st : State) (r : nat) (m : MediaRecorder)
                     (context interval : nat) : Prop :=
  isRecording st = true
  /\ rec_state m = recording
  /\ session st r m context interval.

(** The events of a session that is neither started nor stopped by
    them: animation frames, interval ticks, data. *)
Definition ambient (e : Event) : bool :=
  match e with
  | AnimationFrame _ _ | IntervalTick _ | DataAvailable _ _ => true
  | _ => false
  end.



End Recorder.

(** ** The page with its recorder *)
Module App.

Record State : Type := {
  page : Chat.State;
  voice : Recorder.State
}.

Inductive Event : Type :=
| Page (e : Chat.Event)
| Voice (e : Recorder.Event).

(** The recorder is rendered with [disabled] bound to [isProcessing] and
    [onRecordingComplete] to the render's [handleRecordingComplete]. *)
Definition step (st : State) (e : Event) : State :=
  match e with
  | Page e => {| page := Chat.step (page st) e; voice := voice st |}
  | Voice e =>
      let (v, called) :=
        Recorder.step (Chat.isProcessing (page st))
                      (Chat.currentLanguage (page st),
                       Chat.conversationMode (page st))
                      (voice st) e in
      {| page := match called with
                 | Some (language, mode, clip) =>
                     Chat.handleRecordingComplete language mode clip (page st)
                 | None => page st
                 end;
         voice := v |}
  end.

Definition run (st : State) (es : list Event) : State := fold_left step es st.

Definition initial (wsUrlValid : bool) (isTypeSupported : JS.jsstring -> bool)
  : State :=
  {| page := Chat.initial wsUrlValid;
     voice := Recorder.initial isTypeSupported |}.

End App.

(** ** Scenarios *)
Module Scenario.
Import JS JSON Blob.

(** *** On the page *)
Section Page.
Import Chat.

(** A connected page with text typed in. *)
Definition connected_page : State :=
  setInputText (lit "draft")
    (step (step (initial true) Mounted) (SocketOpen 0)).

(** The page once hello has been submitted on the open socket. *)
Definition pending_page : State := sendTextMessage (lit "hello") connected_page.

(** The connected page after its socket has closed. *)
Definition dropped_page : State := step connected_page (SocketClose 0 false).

End Page.

(** *** In the recorder *)
Section Voice.
Import Recorder.

(** A clip of three bytes in two chunks, recorded as WebM with Opus. *)
Definition sample_clip : Blob :=
  new_Blob [{| blob_bytes := [Byte.x4d; Byte.x61]; blob_type := [] |};
            {| blob_bytes := [Byte.x6e]; blob_type := [] |}]
           (getSupportedMimeType (fun _ => true)).

(** The callback of a render in Hinglish, in the counselor mode. *)
Definition hinglish : Callback := (lit "hinglish", lit "guidance_counselor").

(** The recorder made by the first capture, and the component after
    permission was granted on mount, the button was clicked and that
    capture has started. *)
Definition started_recorder : MediaRecorder :=
  {| rec_stream := 2; rec_mimeType := lit "audio/webm;codecs=opus";
     rec_onRecordingComplete := hinglish;
     rec_state := recording; rec_stop_due := false |}.

Definition started : State :=
  {| isRecording := true; recordingTime := 0; audioLevel := (19200, 32640);
     hasPermission := Some true; mediaRecorderRef := Some 0%nat;
     audioChunksRef := []; audioContextRef := Some 3%nat;
     analyserRef := Some 3%nat; animationFrameRef := Some 4%nat;
     intervalRef := Some 5%nat; recorders := [started_recorder];
     frames := [4%nat]; intervals := [5%nat]; fresh := 6%nat; pending := [];
     effects := [TrackStop 1]; isTypeSupported := fun _ => true |}.

End Voice.

(** A voice turn from the first render on: the socket opens, permission
    is granted, a recording is started, the language is changed while
    it runs, the recording is stopped, its only chunk arrives, and the
    clip is read and sent. *)
Definition voice_turn : App.State :=
  App.run (App.initial true (fun _ => true))
    [App.Page Chat.Mounted; App.Page (Chat.SocketOpen 0);
     App.Voice Recorder.Mounted;
     App.Voice (Recorder.MediaSettled 0 true []);
     App.Voice Recorder.Click;
     App.Voice (Recorder.MediaSettled 0 true [128; 64]);
     App.Page Chat.LanguageClick;
     App.Voice Recorder.Click;
     App.Voice (Recorder.DataAvailable 0
                  {| blob_bytes := [Byte.x4d; Byte.x61; Byte.x6e];
                     blob_type := [] |});
     App.Voice (Recorder.Stopped 0);
     App.Page (Chat.ReaderLoadEnd 0 true)].

End Scenario.

(** ** Measures of a history of the page *)
Module History.
Import JS Chat.
Local Open Scope N_scope.

(** A socket that has not closed yet: connecting, open or closing. *)
Definition live (r : ReadyState) : bool :=
  match r with
  | CLOSED => false
  | _ => true
  end.

(** The connection attempts under way: the sockets still live and the
    reconnections scheduled. *)
Definition attempts (st : State) : nat :=
  (List.length (filter live (sockets st)) + List.length (timers st))%nat.

Definition is_mount (e : App.Event) : bool :=
  match e with
  | App.Page Mounted => true
  | _ => false
  end.

(** How many times the page's effect ran. *)
Definition mounts (es : list App.Event) : nat :=
  List.length (filter is_mount es).

(** The delivery of a frame by a socket. *)
Definition is_frame (e : App.Event) : bool :=
  match e with
  | App.Page (SocketMessage _ _) => true
  | _ => false
  end.

(** Every live socket is the one of the ref. *)
Definition ref_only (st : State) : Prop :=
  forall i r, readyState i st = Some r -> live r = true -> socketRef st = Some i.

(** The page as it stays when no socket can be constructed. *)
Definition unconnected (st : State) : Prop :=
  wsUrlValid st = false /\ sockets st = [] /\ socketRef st = None
  /\ connectionStatus st = disconnected /\ wire st = [] /\ messages st = []
  /\ isProcessing st = false /\ readers st = [].

End History.

(** ** What the components display *)
Module Display.
Import JS JSON Chat.

(** The codes [toggleLanguage] cycles through. *)
Definition codes : list jsstring := [lit "hinglish"; lit "hi"; lit "en"].

(** [getLanguageDisplayName] *)
Definition getLanguageDisplayName (lang : jsstring) : jsstring :=
  if jsstring_eqb lang (lit "hi") then [2361; 2367; 2306; 2342; 2368]
  else if jsstring_eqb lang (lit "en") then lit "English"
  else if jsstring_eqb lang (lit "hinglish") then lit "Hinglish"
  else lang.

(** The table of [LanguageToggle]. *)
Record Language : Type := {
  code : jsstring;
  name : jsstring;
  flag : jsstring;
  color : jsstring
}.

Definition languages : list Language :=
  [{| code := lit "hinglish"; name := lit "Hinglish";
      flag := [55356; 56814; 55356; 56819];
      color := lit "bg-gradient-to-r from-orange-500 to-green-500" |};
   {| code := lit "hi"; name := [2361; 2367; 2306; 2342; 2368];
      flag := [55356; 56814; 55356; 56819]; color := lit "bg-orange-500" |};
   {| code := lit "en"; name := lit "English";
      flag := [55356; 56826; 55356; 56824]; color := lit "bg-blue-500" |}].

(** [languages.find(lang => lang.code === currentLanguage)] *)
Definition find_language (currentLanguage : jsstring) : option Language :=
  find (fun lang => jsstring_eqb (code lang) currentLanguage) languages.

(** [currentLangData]: the entry found, or the first of the table. *)
Definition currentLangData (currentLanguage : jsstring) : option Language :=
  match find_language currentLanguage with
  | Some lang => Some lang
  | None => nth_error languages 0
  end.

(** A user message carries one of the three codes as its language. *)
Definition tagged (m : Message) : Prop :=
  type m = user ->
  exists l, In l codes /\ language m = Some (JString l).

(** The page's language is one of the codes, and its user messages are
    tagged. *)
Definition coded (st : State) : Prop :=
  In (currentLanguage st) codes /\ Forall tagged (messages st).

End Display.

(** ** Measures of a history of the recorder *)
Module Measures.
Import JS Blob Recorder.

(** The ticks, among the events, of the intervals in [live]. *)
Definition ticks (live : list nat) (es : list Event) : N :=
  N.of_nat
    (List.length
       (filter (fun e => match e with
                         | IntervalTick h => mem h live
                         | _ => false
                         end) es)).

(** An effect that stops the track of [stream]. *)
Definition stops (stream : nat) (e : Effect) : bool :=
  match e with
  | TrackStop s => Nat.eqb s stream
  | _ => false
  end.

(** An effect of a capture that got as far as a recorder: the clip
    handed over, the audio context closed, the interval cleared. *)
Definition of_session (e : Effect) : bool :=
  match e with
  | RecordingComplete _ | ContextClose _ | ClearInterval _ => true
  | _ => false
  end.

(** The recorder of a platform on which no recorder can be constructed:
    it is idle, and the streams stopped so far are older than the next
    identifier. *)
Definition idle (st : State) : Prop :=
  recorders st = [] /\ isRecording st = false /\ intervalRef st = None
  /\ existsb of_session (effects st) = false
  /\ forall s, existsb (stops s) (effects st) = true -> (s < fresh st)%nat.

(** No type of the list is supported. *)
Definition unsupported (isTypeSupported : jsstring -> bool) : Prop :=
  forall t, In t types -> isTypeSupported t = false.

(** What the events of a session leave alone when two sessions are
    under way. *)
Definition same_recorders (a b : State) : Prop :=
  isRecording b = isRecording a
  /\ mediaRecorderRef b = mediaRecorderRef a
  /\ recorders b = recorders a
  /\ audioContextRef b = audioContextRef a
  /\ intervalRef b = intervalRef a
  /\ intervals b = intervals a
  /\ effects b = effects a.

End Measures.

(** ** The recorder's clock and level meter *)
Module Meter.
Import JS Recorder.

(** *** [formatTime] *)

Fixpoint units_of_uint (d : Decimal.uint) : jsstring :=
  match d with
  | Decimal.Nil => []
  | Decimal.D0 d' => 48 :: units_of_uint d'
  | Decimal.D1 d' => 49 :: units_of_uint d'
  | Decimal.D2 d' => 50 :: units_of_uint d'
  | Decimal.D3 d' => 51 :: units_of_uint d'
  | Decimal.D4 d' => 52 :: units_of_uint d'
  | Decimal.D5 d' => 53 :: units_of_uint d'
  | Decimal.D6 d' => 54 :: units_of_uint d'
  | Decimal.D7 d' => 55 :: units_of_uint d'
  | Decimal.D8 d' => 56 :: units_of_uint d'
  | Decimal.D9 d' => 57 :: units_of_uint d'
  end.

(** [n.toString()] for a count [n]: its decimal digits.  (A Number
    that is an integer below 10^21 is written so.) *)
Definition Number_toString (n : N) : jsstring := units_of_uint (N.to_uint n).

(** [s.padStart(targetLength, pad)] for a pad of one code unit. *)
Definition padStart (targetLength : nat) (pad : code_unit) (s : jsstring)
  : jsstring :=
  repeat pad (targetLength - List.length s) ++ s.

(** [formatTime(seconds)] for a count of seconds: on the integers below
    2^53 [Math.floor(seconds / 60)] is the quotient and [%] the
    remainder. *)
Definition formatTime (seconds : N) : jsstring :=
  let mins := seconds / 60 in
  let secs := seconds mod 60 in
  Number_toString mins ++ 58 :: padStart 2 48 (Number_toString secs).

(** *** The level and the five bars *)

(** The Number that is the integer [n], for [n] below 2^53. *)
Definition Number_of (n : N) : PrimFloat.float :=
  PrimFloat.of_uint63 (Uint63.of_Z (BinInt.Z.of_N n)).

(** The Number [updateAudioLevel] gives to [setAudioLevel]: the sum of
    the bins (integers, added without rounding) over the buffer length,
    over 255, times 100, each operation rounded as a double. *)
Definition audioLevel_number (dataArray : list N) : PrimFloat.float :=
  let average :=
    PrimFloat.div (Number_of (fold_left N.add dataArray 0))
                  (Number_of bufferLength) in
  PrimFloat.mul (PrimFloat.div average (Number_of 255)) (Number_of 100).

(** Bar [i] of the visualizer is the tall one:
    [audioLevel > (i + 1) * 20]. *)
Definition tall (audioLevel : PrimFloat.float) (i : N) : bool :=
  PrimFloat.ltb (Number_of ((i + 1) * 20)) audioLevel.

(** The five bars, [i] from 0 to 4. *)
Definition bars (audioLevel : PrimFloat.float) : list bool :=
  map (tall audioLevel) [0; 1; 2; 3; 4].

(** The same comparison on the exact quotient kept in the state. *)
Definition above (level : N * N) (i : N) : bool :=
  (i + 1) * 20 * snd level <? fst level.

(** The thresholds of the five bars, as Numbers and scaled by the
    denominator of the exact quotient. *)
Definition thresholds : list (PrimFloat.float * N) :=
  map (fun i => (Number_of ((i + 1) * 20),
                 (i + 1) * 20 * (bufferLength * 255)))
      [0; 1; 2; 3; 4].

(** For the bins' sum [sum], each bar is tall exactly when the exact
    quotient is above its threshold. *)
Definition agree_with (size full hundred : PrimFloat.float)
                      (thresholds : list (PrimFloat.float * N)) (sum : N)
  : bool :=
  let audioLevel :=
    PrimFloat.mul
      (PrimFloat.div (PrimFloat.div (Number_of sum) size) full) hundred in
  let scaled := sum * 100 in
  forallb (fun t => Bool.eqb (PrimFloat.ltb (fst t) audioLevel)
                             (snd t <? scaled))
          thresholds.

Definition bars_agree : N -> bool :=
  agree_with (Number_of bufferLength) (Number_of 255) (Number_of 100)
             thresholds.

(** [f] holds of [count] consecutive numbers from [start] on. *)
Fixpoint all_from (count : nat) (start : N) (f : N -> bool) : bool :=
  match count with
  | O => true
  | S count' => f start && all_from count' (N.succ start) f
  end.

End Meter.

(** ** The settings: [SettingsPanel] and the page's [settings] state *)
Module Panel.
Import JS.

(** The [settings] object: its nine keys, in the order of the initial
    object. *)
Record Settings : Type := {
  ttsEngine : jsstring;
  voiceSpeed : PrimFloat.float;
  voiceModel : jsstring;
  voiceQuality : jsstring;
  hindiVoice : jsstring;
  englishVoice : jsstring;
  autoLanguageDetection : bool;
  scriptDisplay : jsstring;
  conversationMode : jsstring
}.

Definition initial_settings : Settings :=
  {| ttsEngine := lit "coqui"; voiceSpeed := PrimFloat.one;
     voiceModel := lit "multilingual"; voiceQuality := lit "balanced";
     hindiVoice := lit "hi_female"; englishVoice := lit "en_jenny";
     autoLanguageDetection := true; scriptDisplay := lit "dual";
     conversationMode := lit "guidance_counselor" |}.

(** The values of the options the panel offers. *)
Definition ttsEngines : list jsstring :=
  [lit "coqui"; lit "gtts"; lit "pyttsx3"].

Definition voiceOptions : list jsstring :=
  [lit "hi_female"; lit "hi_male"; lit "en_jenny"; lit "en_vctk";
   lit "multilingual"].

Definition voiceQualityOptions : list jsstring :=
  [lit "high"; lit "balanced"; lit "fast"].

Definition scriptDisplayOptions : list jsstring :=
  [lit "dual"; lit "devanagari"; lit "latin"].

Definition conversationModes : list jsstring :=
  [lit "guidance_counselor"; lit "conversational"; lit "hinglish";
   lit "casual_chat"].

(** [s.startsWith(prefix)] *)
Fixpoint startsWith (s prefix : jsstring) : bool :=
  match prefix, s with
  | [], _ => true
  | p :: prefix', c :: s' => (c =? p) && startsWith s' prefix'
  | _ :: _, [] => false
  end.

(** The options of the two selects:
    [voiceOptions.filter(v => v.value.startsWith(prefix))]. *)
Definition voices (prefix : jsstring) : list jsstring :=
  filter (fun v => startsWith v prefix) voiceOptions.

(** A change event of one of the panel's controls, with the argument
    its handler gives to [updateSetting]: the value of a radio button or
    of a selected option, the Number [parseFloat] reads from the range
    input, the state of the checkbox. *)
Inductive Update : Type :=
| TtsEngineChange (value : jsstring)
| ConversationModeChange (value : jsstring)
| VoiceModelChange (value : jsstring)
| VoiceQualityChange (value : jsstring)
| VoiceSpeedChange (value : PrimFloat.float)
| HindiVoiceChange (value : jsstring)
| EnglishVoiceChange (value : jsstring)
| ScriptDisplayChange (value : jsstring)
| AutoLanguageDetectionChange (checked : bool).

Definition member (v : jsstring) (l : list jsstring) : bool :=
  existsb (jsstring_eqb v) l.

(** The control that fires the event is rendered: its value is one of
    the options. *)
Definition offered (c : Update) : bool :=
  match c with
  | TtsEngineChange v => member v ttsEngines
  | ConversationModeChange v => member v conversationModes
  | VoiceModelChange v => member v voiceOptions
  | VoiceQualityChange v => member v voiceQualityOptions
  | VoiceSpeedChange _ => true
  | HindiVoiceChange v => member v (voices (lit "hi_"))
  | EnglishVoiceChange v => member v (voices (lit "en_"))
  | ScriptDisplayChange v => member v scriptDisplayOptions
  | AutoLanguageDetectionChange _ => true
  end.

(** [updateSetting(key, value)]: the object given to
    [onSettingsChange], the settings of the render with the one key
    replaced. *)
Definition updateSetting (c : Update) (settings : Settings) : Settings :=
  match c with
  | TtsEngineChange v =>
      {| ttsEngine := v; voiceSpeed := voiceSpeed settings;
         voiceModel := voiceModel settings;
         voiceQuality := voiceQuality settings;
         hindiVoice := hindiVoice settings;
         englishVoice := englishVoice settings;
         autoLanguageDetection := autoLanguageDetection settings;
         scriptDisplay := scriptDisplay settings;
         conversationMode := conversationMode settings |}
  | ConversationModeChange v =>
      {| ttsEngine := ttsEngine settings; voiceSpeed := voiceSpeed settings;
         voiceModel := voiceModel settings;
         voiceQuality := voiceQuality settings;
         hindiVoice := hindiVoice settings;
         englishVoice := englishVoice settings;
         autoLanguageDetection := autoLanguageDetection settings;
         scriptDisplay := scriptDisplay settings;
         conversationMode := v |}
  | VoiceModelChange v =>
      {| ttsEngine := ttsEngine settings; voiceSpeed := voiceSpeed settings;
         voiceModel := v;
         voiceQuality := voiceQuality settings;
         hindiVoice := hindiVoice settings;
         englishVoice := englishVoice settings;
         autoLanguageDetection := autoLanguageDetection settings;
         scriptDisplay := scriptDisplay settings;
         conversationMode := conversationMode settings |}
  | VoiceQualityChange v =>
      {| ttsEngine := ttsEngine settings; voiceSpeed := voiceSpeed settings;
         voiceModel := voiceModel settings;
         voiceQuality := v;
         hindiVoice := hindiVoice settings;
         englishVoice := englishVoice settings;
         autoLanguageDetection := autoLanguageDetection settings;
         scriptDisplay := scriptDisplay settings;
         conversationMode := conversationMode settings |}
  | VoiceSpeedChange v =>
      {| ttsEngine := ttsEngine settings; voiceSpeed := v;
         voiceModel := voiceModel settings;
         voiceQuality := voiceQuality settings;
         hindiVoice := hindiVoice settings;
         englishVoice := englishVoice settings;
         autoLanguageDetection := autoLanguageDetection settings;
         scriptDisplay := scriptDisplay settings;
         conversationMode := conversationMode settings |}
  | HindiVoiceChange v =>
      {| ttsEngine := ttsEngine settings; voiceSpeed := voiceSpeed settings;
         voiceModel := voiceModel settings;
         voiceQuality := voiceQuality settings;
         hindiVoice := v;
         englishVoice := englishVoice settings;
         autoLanguageDetection := autoLanguageDetection settings;
         scriptDisplay := scriptDisplay settings;
         conversationMode := conversationMode settings |}
  | EnglishVoiceChange v =>
      {| ttsEngine := ttsEngine settings; voiceSpeed := voiceSpeed settings;
         voiceModel := voiceModel settings;
         voiceQuality := voiceQuality settings;
         hindiVoice := hindiVoice settings;
         englishVoice := v;
         autoLanguageDetection := autoLanguageDetection settings;
         scriptDisplay := scriptDisplay settings;
         conversationMode := conversationMode settings |}
  | ScriptDisplayChange v =>
      {| ttsEngine := ttsEngine settings; voiceSpeed := voiceSpeed settings;
         voiceModel := voiceModel settings;
         voiceQuality := voiceQuality settings;
         hindiVoice := hindiVoice settings;
         englishVoice := englishVoice settings;
         autoLanguageDetection := autoLanguageDetection settings;
         scriptDisplay := v;
         conversationMode := conversationMode settings |}
  | AutoLanguageDetectionChange b =>
      {| ttsEngine := ttsEngine settings; voiceSpeed := voiceSpeed settings;
         voiceModel := voiceModel settings;
         voiceQuality := voiceQuality settings;
         hindiVoice := hindiVoice settings;
         englishVoice := englishVoice settings;
         autoLanguageDetection := b;
         scriptDisplay := scriptDisplay settings;
         conversationMode := conversationMode settings |}
  end.

(** The page with its settings: the state of [Chat], the [settings]
    object and [showSettings]. *)
Record State : Type := {
  chat : Chat.State;
  settings : Settings;
  showSettings : bool
}.

Definition initial (wsUrlValid : bool) : State :=
  {| chat := Chat.initial wsUrlValid; settings := initial_settings;
     showSettings := false |}.

(** [onSettingsChange], that is [setSettings], followed by the effect
    that depends on [settings.conversationMode]: it runs after a render
    in which that value differs from the one of the render before, and
    copies it to the [conversationMode] state. *)
Definition onSettingsChange (next : Settings) (st : State) : State :=
  {| chat :=
       if jsstring_eqb (conversationMode (settings st))
                       (conversationMode next)
       then chat st
       else Chat.setConversationMode (conversationMode next) (chat st);
     settings := next;
     showSettings := showSettings st |}.

(** What can happen to the page with its panel: a click on the gear, a
    change in the panel, a click on one of the panel's closing buttons
    (the cross, Cancel, Save Settings: all three are [onClose]), or an
    event of the page itself.  The panel's events need the panel
    rendered.  The settings change event of [Chat], which stands for a
    change of the mode made here, is not an event of this finer
    description. *)
Inductive Event : Type :=
| GearClick
| Changed (c : Update)
| CloseClick
| Page (e : Chat.Event).

Definition step (st : State) (e : Event) : State :=
  match e with
  | GearClick =>
      {| chat := chat st; settings := settings st;
         showSettings := negb (showSettings st) |}
  | Changed c =>
      if showSettings st && offered c
      then onSettingsChange (updateSetting c (settings st)) st
      else st
  | CloseClick =>
      if showSettings st
      then {| chat := chat st; settings := settings st;
              showSettings := false |}
      else st
  | Page (Chat.SettingsChange _) => st
  | Page e =>
      {| chat := Chat.step (chat st) e; settings := settings st;
         showSettings := showSettings st |}
  end.

Definition run (st : State) (es : list Event) : State := fold_left step es st.

(** What the change of the panel is in the coarser description of
    [Chat]. *)
Definition coarse (st : State) (e : Event) : list Chat.Event :=
  match e with
  | Changed (ConversationModeChange v) =>
      if showSettings st && offered (ConversationModeChange v)
         && negb (jsstring_eqb (conversationMode (settings st)) v)
      then [Chat.SettingsChange v]
      else []
  | Page (Chat.SettingsChange _) => []
  | Page e => [e]
  | _ => []
  end.

(** Every value is one of the options of its control. *)
Definition within (s : Settings) : Prop :=
  member (ttsEngine s) ttsEngines = true
  /\ member (conversationMode s) conversationModes = true
  /\ member (voiceModel s) voiceOptions = true
  /\ member (voiceQuality s) voiceQualityOptions = true
  /\ member (hindiVoice s) [lit "hi_female"; lit "hi_male"] = true
  /\ member (englishVoice s) [lit "en_jenny"; lit "en_vctk"] = true
  /\ member (scriptDisplay s) scriptDisplayOptions = true.

(** The mode of the page is the one of the settings, and every value
    is one its control offers. *)
Definition synced (st : State) : Prop :=
  Chat.conversationMode (chat st) = conversationMode (settings st)
  /\ within (settings st).

End Panel.

(** ** A message of the transcript: [ChatMessage] *)
Module Bubble.
Import JS.

(** [hasDevanagariScript]: the text has a code unit from U+0900 to
    U+097F. *)
Definition hasDevanagariScript (text : jsstring) : bool :=
  existsb (fun c => (2304 <=? c) && (c <=? 2431)) text.

(** What [renderText] returns: the text, or the text in an emphasis
    element. *)
Inductive Rendered : Type :=
| Plain (text : jsstring)
| Emphasis (text : jsstring).

Definition content (r : Rendered) : jsstring :=
  match r with
  | Plain t | Emphasis t => t
  end.

Definition emphasized (r : Rendered) : bool :=
  match r with
  | Plain _ => false
  | Emphasis _ => true
  end.

(** [renderText], for a message whose text is the string [text]. *)
Definition renderText (scriptDisplay text : jsstring) : Rendered :=
  let hasDevanagari := hasDevanagariScript text in
  if jsstring_eqb scriptDisplay (lit "devanagari") then
    if hasDevanagari then Plain text else Emphasis text
  else if jsstring_eqb scriptDisplay (lit "latin") then
    if negb hasDevanagari then Plain text else Emphasis text
  else Plain text.

(** The component's state, with the timeouts it has set (their due
    times), the clock, and how many times [onPlayAudio] was called. *)
Record State : Type := {
  isPlayingAudio : bool;
  timers : list N;
  clock : N;
  played : nat
}.

Definition initial : State :=
  {| isPlayingAudio := false; timers := []; clock := 0; played := 0 |}.

(** [Math.max(2000, message.text.length * 100)] *)
Definition estimatedDuration (text : jsstring) : N :=
  N.max 2000 (N.of_nat (List.length text) * 100).

(** [handlePlayAudio], for a message whose text is the string [text];
    [audio] tells whether [message.audioBase64 && onPlayAudio] holds. *)
Definition handlePlayAudio (text : jsstring) (audio : bool) (st : State)
  : State :=
  if audio then
    {| isPlayingAudio := true;
       timers := timers st ++ [clock st + estimatedDuration text];
       clock := clock st;
       played := S (played st) |}
  else st.

(** The events of the component: a click on the play button, one of its
    timeouts coming due, time passing.  The button is rendered for a
    message with audio and is disabled while [isPlayingAudio]. *)
Inductive Event : Type :=
| PlayClick
| TimerFires (k : nat)
| Elapse (ms : N).

Definition step (text : jsstring) (audio : bool) (st : State) (e : Event)
  : State :=
  match e with
  | PlayClick =>
      if audio && negb (isPlayingAudio st)
      then handlePlayAudio text audio st
      else st
  | TimerFires k =>
      match nth_error (timers st) k with
      | Some due =>
          if due <=? clock st
          then {| isPlayingAudio := false;
                  timers := remove_nth k (timers st);
                  clock := clock st; played := played st |}
          else st
      | None => st
      end
  | Elapse ms =>
      {| isPlayingAudio := isPlayingAudio st; timers := timers st;
         clock := clock st + ms; played := played st |}
  end.

Definition run (text : jsstring) (audio : bool) (st : State)
               (es : list Event) : State :=
  fold_left (step text audio) es st.


End Bubble.

(** ** The install prompt: [useInstallPrompt] *)
Module Install.

(** The hook's state, whether its listeners are registered, and what it
    did to the events it was given: the [beforeinstallprompt] events
    whose default was prevented, those [prompt()] was called on, the
    calls of [promptInstall] waiting for the user's choice (each with
    its event), and the values the calls have returned. *)
Record State : Type := {
  installPromptEvent : option nat;
  isInstallable : bool;
  listening : bool;
  prevented : list nat;
  prompted : list nat;
  awaiting : list nat;
  returned : list bool
}.

Definition initial : State :=
  {| installPromptEvent := None; isInstallable := false; listening := false;
     prevented := []; prompted := []; awaiting := []; returned := [] |}.

(** [handleBeforeInstallPrompt] *)
Definition handleBeforeInstallPrompt (event : nat) (st : State) : State :=
  {| installPromptEvent := Some event; isInstallable := true;
     listening := listening st; prevented := prevented st ++ [event];
     prompted := prompted st; awaiting := awaiting st;
     returned := returned st |}.

(** [handleAppInstalled] *)
Definition handleAppInstalled (st : State) : State :=
  {| installPromptEvent := None; isInstallable := false;
     listening := listening st; prevented := prevented st;
     prompted := prompted st; awaiting := awaiting st;
     returned := returned st |}.

(** [promptInstall], up to its [await], in a render whose
    [installPromptEvent] is the state's.  On an event that was prompted
    before, [prompt()] may throw, as [throws] tells; the call then ends
    there, its promise rejected. *)
Definition promptInstall (throws : bool) (st : State) : State :=
  match installPromptEvent st with
  | None =>
      {| installPromptEvent := installPromptEvent st;
         isInstallable := isInstallable st; listening := listening st;
         prevented := prevented st; prompted := prompted st;
         awaiting := awaiting st; returned := returned st ++ [false] |}
  | Some event =>
      if throws && existsb (Nat.eqb event) (prompted st) then st
      else
        {| installPromptEvent := installPromptEvent st;
           isInstallable := isInstallable st; listening := listening st;
           prevented := prevented st; prompted := prompted st ++ [event];
           awaiting := awaiting st ++ [event]; returned := returned st |}
  end.

(** The rest of [promptInstall], once the user has chosen. *)
Definition choice_settled (accepted : bool) (st : State) : State :=
  {| installPromptEvent :=
       if accepted then None else installPromptEvent st;
     isInstallable := if accepted then false else isInstallable st;
     listening := listening st; prevented := prevented st;
     prompted := prompted st; awaiting := awaiting st;
     returned := returned st ++ [accepted] |}.

(** The events of the hook: the effect and its cleanup, the window's
    two events, a click on an install button (the banner's or the
    page's: both are rendered while [isInstallable] and call
    [promptInstall]), the choice awaited by call [k]. *)
Inductive Event : Type :=
| Mounted
| Unmounted
| BeforeInstallPrompt (event : nat)
| AppInstalled
| InstallClick (throws : bool)
| ChoiceSettled (k : nat) (accepted : bool).

Definition step (st : State) (e : Event) : State :=
  match e with
  | Mounted =>
      {| installPromptEvent := installPromptEvent st;
         isInstallable := isInstallable st; listening := true;
         prevented := prevented st; prompted := prompted st;
         awaiting := awaiting st; returned := returned st |}
  | Unmounted =>
      {| installPromptEvent := installPromptEvent st;
         isInstallable := isInstallable st; listening := false;
         prevented := prevented st; prompted := prompted st;
         awaiting := awaiting st; returned := returned st |}
  | BeforeInstallPrompt event =>
      if listening st then handleBeforeInstallPrompt event st else st
  | AppInstalled => if listening st then handleAppInstalled st else st
  | InstallClick throws =>
      if isInstallable st then promptInstall throws st else st
  | ChoiceSettled k accepted =>
      match nth_error (awaiting st) k with
      | Some _ =>
          choice_settled accepted
            {| installPromptEvent := installPromptEvent st;
               isInstallable := isInstallable st; listening := listening st;
               prevented := prevented st; prompted := prompted st;
               awaiting := JS.remove_nth k (awaiting st);
               returned := returned st |}
      | None => st
      end
  end.

Definition run (st : State) (es : list Event) : State := fold_left step es st.

(** The banner is shown exactly when an event is held, and [prompt()]
    was only called on events whose default was prevented. *)
Definition deferred (st : State) : Prop :=
  (isInstallable st = true <-> installPromptEvent st <> None)
  /\ (forall event, installPromptEvent st = Some event ->
                    In event (prevented st))
  /\ incl (prompted st) (prevented st)
  /\ incl (awaiting st) (prompted st).

End Install.

(** ** Playing a response: the part of [handleSocketMessage] that calls
    [playAudioResponse] *)
Module Playback.
Import JS JSON Chat.

Section Platform.

(** Whether the Number that a literal denotes is neither zero nor NaN. *)
Variable number_truthy : jsstring -> bool.

(** The truth value of a value read from a parsed message. *)
Definition truthy (v : jsvalue) : bool :=
  match v with
  | None | Some JNull => false
  | Some (JBool b) => b
  | Some (JNumber literal) => number_truthy literal
  | Some (JString s) => negb (is_empty s)
  | Some (JArray _) | Some (JObject _) => true
  end.

(** The argument [handleSocketMessage] gives to [playAudioResponse] for
    the payload [data], in a render whose [audioEnabled] is the
    argument; [None] when it does not call it. *)
Definition autoplay (audioEnabled : bool) (data : jsstring) : option json :=
  match JSON_parse data with
  | None | Some JNull => None
  | Some message =>
      let t := get message (lit "type") in
      if strict_equal t (lit "audio_response")
         || strict_equal t (lit "text_response") then
        if audioEnabled && truthy (get message (lit "audio_response"))
        then get message (lit "audio_response")
        else None
      else None
  end.

(** The [audioEnabled] state; the [audioEnabled] that the message
    handler of the sockets holds ([None] before the effect has run); the
    calls of [playAudioResponse], oldest first.  The handler every
    socket is given, reconnections included, is made in the effect that
    runs once after the first render; it calls the
    [handleSocketMessage] of that render, and with it the
    [audioEnabled] of that render. *)
Record State : Type := {
  audioEnabled : bool;
  handler_audioEnabled : option bool;
  calls : list json
}.

Definition initial : State :=
  {| audioEnabled := true; handler_audioEnabled := None; calls := [] |}.

(** The effect runs, the audio button is clicked, an open socket
    delivers a frame. *)
Inductive Event : Type :=
| Mounted
| AudioClick
| Frame (data : jsstring).

Definition step (st : State) (e : Event) : State :=
  match e with
  | Mounted =>
      {| audioEnabled := audioEnabled st;
         handler_audioEnabled := Some (audioEnabled st);
         calls := calls st |}
  | AudioClick =>
      {| audioEnabled := negb (audioEnabled st);
         handler_audioEnabled := handler_audioEnabled st;
         calls := calls st |}
  | Frame data =>
      match handler_audioEnabled st with
      | None => st
      | Some enabled =>
          match autoplay enabled data with
          | Some audio =>
              {| audioEnabled := audioEnabled st;
                 handler_audioEnabled := handler_audioEnabled st;
                 calls := calls st ++ [audio] |}
          | None => st
          end
      end
  end.

Definition run (st : State) (es : list Event) : State := fold_left step es st.

(** The audio of a frame, when it is one to play. *)
Definition audio_of (e : Event) : list json :=
  match e with
  | Frame data =>
      match autoplay true data with
      | Some audio => [audio]
      | None => []
      end
  | _ => []
  end.

Definition is_effect (e : Event) : bool :=
  match e with
  | Mounted => true
  | _ => false
  end.

Definition is_click (e : Event) : bool :=
  match e with
  | AudioClick => true
  | _ => false
  end.

End Platform.

End Playback.

(** ** Further scenarios *)
Module Cases.
Import JS.

(** The mode is changed in the panel, with another setting; the panel
    is closed and hello is typed. *)
Definition casual_history : list Panel.Event :=
  [Panel.Page Chat.Mounted; Panel.Page (Chat.SocketOpen 0); Panel.GearClick;
   Panel.Changed (Panel.VoiceQualityChange (lit "fast"));
   Panel.Changed (Panel.ConversationModeChange (lit "casual_chat"));
   Panel.CloseClick; Panel.Page (Chat.Change (lit "hello"))].

Definition casual : Panel.State :=
  {| Panel.chat :=
       {| Chat.messages := []; Chat.inputText := lit "hello";
          Chat.isProcessing := false; Chat.currentLanguage := lit "hinglish";
          Chat.connectionStatus := Chat.connected;
          Chat.conversationMode := lit "casual_chat";
          Chat.socketRef := Some 0%nat; Chat.sockets := [Chat.OPEN];
          Chat.wire := []; Chat.timers := []; Chat.readers := [];
          Chat.clock := 0; Chat.wsUrlValid := true |};
     Panel.settings :=
       {| Panel.ttsEngine := lit "coqui"; Panel.voiceSpeed := PrimFloat.one;
          Panel.voiceModel := lit "multilingual";
          Panel.voiceQuality := lit "fast";
          Panel.hindiVoice := lit "hi_female";
          Panel.englishVoice := lit "en_jenny";
          Panel.autoLanguageDetection := true;
          Panel.scriptDisplay := lit "dual";
          Panel.conversationMode := lit "casual_chat" |};
     Panel.showSettings := false |}.

(** The component after the button was clicked twice before the first
    capture has started. *)
Definition clicked_twice : Recorder.State :=
  Recorder.set_pending [Recorder.CaptureRequest Scenario.hinglish]
                       Scenario.started.

End Cases.

(** * Properties *)

(** ** Tables and queues of platform objects *)
Module ListFacts.
Import JS.

Lemma nth_error_snoc {A : Type} (l : list A) (x : A) :
  nth_error (l ++ [x]) (List.length l) = Some x.
Proof. induction l as [| y l IH]; [reflexivity | exact IH]. Qed.

Lemma remove_nth_snoc {A : Type} (l : list A) (x : A) :
  remove_nth (List.length l) (l ++ [x]) = l.
Proof.
  induction l as [| y l IH]; [reflexivity |].
  cbn [List.length app remove_nth]. rewrite IH. reflexivity.
Qed.

Lemma nth_error_replace_nth {A : Type} (l : list A) (i : nat) (x y : A) :
  nth_error l i = Some y -> nth_error (replace_nth i x l) i = Some x.
Proof.
  revert i. induction l as [| z l IH]; intros [| i] H; cbn in *;
    try discriminate; [reflexivity | apply IH; exact H].
Qed.

Lemma replace_nth_twice {A : Type} (l : list A) (i : nat) (x y : A) :
  replace_nth i y (replace_nth i x l) = replace_nth i y l.
Proof.
  revert i. induction l as [| z l IH]; intros [| i]; cbn;
    try reflexivity. rewrite IH. reflexivity.
Qed.

End ListFacts.

(** ** The JSON text written by [JSON_stringify] parses back *)
Module JSONFacts.
Import JS JSON.

Lemma prepend_nil (o : option (list token)) : prepend [] o = o.
Proof. destruct o; reflexivity. Qed.

Lemma hex_value_hex_digit (d : N) :
  d < 16 -> hex_value (hex_digit d) = Some d.
Proof.
  intros Hd. unfold hex_digit, hex_value, is_digit.
  destruct (N.ltb_spec d 10) as [Hlt | Hge].
  - replace (48 <=? 48 + d) with true by (symmetry; apply N.leb_le; lia).
    replace (48 + d <=? 57) with true by (symmetry; apply N.leb_le; lia).
    cbn [andb]. f_equal. lia.
  - replace (87 + d <=? 57) with false by (symmetry; apply N.leb_gt; lia).
    rewrite andb_false_r.
    replace (97 <=? 87 + d) with true by (symmetry; apply N.leb_le; lia).
    replace (87 + d <=? 102) with true by (symmetry; apply N.leb_le; lia).
    cbn [andb]. f_equal. lia.
Qed.

Lemma lex_hex_more acc n v d rest :
  d < 16 ->
  lex_from (Uni acc (S (S n)) v) (hex_digit d :: rest)
  = lex_from (Uni acc (S n) (16 * v + d)) rest.
Proof.
  intros Hd. simpl. rewrite (hex_value_hex_digit d Hd). apply prepend_nil.
Qed.

Lemma lex_hex_last acc v d rest :
  d < 16 ->
  lex_from (Uni acc 1 v) (hex_digit d :: rest)
  = lex_from (InStr (16 * v + d :: acc)) rest.
Proof.
  intros Hd. simpl. rewrite (hex_value_hex_digit d Hd). apply prepend_nil.
Qed.

Lemma four_hex_digits (c : N) :
  c < 65536 ->
  16 * (16 * (16 * (16 * 0 + (c / 4096) mod 16) + (c / 256) mod 16)
        + (c / 16) mod 16) + c mod 16 = c.
Proof.
  intros Hc.
  assert (H4096 : c / 4096 = c / 256 / 16)
    by (rewrite N.Div0.div_div; reflexivity).
  assert (H256 : c / 256 = c / 16 / 16)
    by (rewrite N.Div0.div_div; reflexivity).
  assert (Hsmall : c / 4096 < 16)
    by (apply N.Div0.div_lt_upper_bound; lia).
  rewrite (N.mod_small (c / 4096) 16 Hsmall).
  pose proof (N.div_mod c 16 ltac:(lia)) as E0.
  pose proof (N.div_mod (c / 16) 16 ltac:(lia)) as E1.
  pose proof (N.div_mod (c / 256) 16 ltac:(lia)) as E2.
  rewrite <- H256 in E1. rewrite <- H4096 in E2.
  clear H4096 H256 Hsmall Hc.
  generalize dependent (c / 4096). generalize dependent (c / 256).
  generalize dependent (c / 16). generalize dependent (c mod 16).
  intros. lia.
Qed.

Lemma lex_unicode_escape acc c rest :
  c < 65536 ->
  lex_from (InStr acc) (unicode_escape c ++ rest)
  = lex_from (InStr (c :: acc)) rest.
Proof.
  intros Hc. unfold unicode_escape.
  cbn [app].
  change (lex_from (InStr acc) (92 :: 117 :: ?x)) with
    (prepend [] (prepend [] (lex_from (Uni acc 4 0) x))).
  rewrite !prepend_nil.
  rewrite !lex_hex_more, lex_hex_last by (apply N.mod_lt; lia).
  rewrite (four_hex_digits c Hc). reflexivity.
Qed.

Lemma lex_plain acc c rest :
  c <> 34 -> c <> 92 -> 32 <= c ->
  lex_from (InStr acc) (c :: rest) = lex_from (InStr (c :: acc)) rest.
Proof.
  intros Hq Hb Hc. cbn [lex_from lex_step].
  rewrite (proj2 (N.eqb_neq c 34) Hq), (proj2 (N.eqb_neq c 92) Hb).
  rewrite (proj2 (N.ltb_ge c 32) Hc). apply prepend_nil.
Qed.

Lemma lex_escaped acc e c rest :
  lex_step (Esc acc) e = Some ([], InStr (c :: acc)) ->
  lex_from (InStr acc) (92 :: e :: rest) = lex_from (InStr (c :: acc)) rest.
Proof.
  intros He.
  change (lex_from (InStr acc) (92 :: e :: rest)) with
    (prepend [] (lex_from (Esc acc) (e :: rest))).
  cbn [lex_from]. rewrite He, !prepend_nil. reflexivity.
Qed.

Lemma surrogate_range (c : code_unit) :
  is_high_surrogate c || is_low_surrogate c = true -> 55296 <= c < 57344.
Proof.
  unfold is_high_surrogate, is_low_surrogate.
  rewrite orb_true_iff, !andb_true_iff, !N.leb_le. lia.
Qed.

Lemma lex_quote_unit acc c rest :
  lex_from (InStr acc) (quote_unit c ++ rest)
  = lex_from (InStr (c :: acc)) rest.
Proof.
  unfold quote_unit.
  destruct (N.eqb_spec c 8) as [-> | H8]; [now apply lex_escaped |].
  destruct (N.eqb_spec c 9) as [-> | H9]; [now apply lex_escaped |].
  destruct (N.eqb_spec c 10) as [-> | H10]; [now apply lex_escaped |].
  destruct (N.eqb_spec c 12) as [-> | H12]; [now apply lex_escaped |].
  destruct (N.eqb_spec c 13) as [-> | H13]; [now apply lex_escaped |].
  destruct (N.eqb_spec c 34) as [-> | H34]; [now apply lex_escaped |].
  destruct (N.eqb_spec c 92) as [-> | H92]; [now apply lex_escaped |].
  destruct (N.ltb_spec c 32) as [Hlt | Hge]; cbn [orb].
  - apply lex_unicode_escape. lia.
  - destruct (is_high_surrogate c || is_low_surrogate c) eqn:Hs.
    + apply lex_unicode_escape. apply surrogate_range in Hs. lia.
    + now apply lex_plain.
Qed.

Lemma quote_body_cons c s :
  quote_body (c :: s) =
  if is_high_surrogate c then
    match s with
    | d :: s' =>
        if is_low_surrogate d then c :: d :: quote_body s'
        else unicode_escape c ++ quote_body s
    | [] => unicode_escape c
    end
  else quote_unit c ++ quote_body s.
Proof. destruct s; reflexivity. Qed.

Lemma lex_quote_body_bounded (n : nat) :
  forall s acc rest,
    (List.length s <= n)%nat ->
    lex_from (InStr acc) (quote_body s ++ rest)
    = lex_from (InStr (rev s ++ acc)) rest.
Proof.
  induction n as [| n IH]; intros s acc rest Hlen.
  - destruct s; [reflexivity | simpl in Hlen; lia].
  - destruct s as [| c s]; [reflexivity |].
    rewrite quote_body_cons. cbn [rev]. rewrite <- app_assoc. cbn [app].
    simpl in Hlen.
    destruct (is_high_surrogate c) eqn:Hhigh.
    + assert (Hc : 55296 <= c < 57344)
        by (apply surrogate_range; rewrite Hhigh; reflexivity).
      destruct s as [| d s].
      * rewrite lex_unicode_escape by lia. reflexivity.
      * destruct (is_low_surrogate d) eqn:Hlow.
        -- assert (Hd : 55296 <= d < 57344)
             by (apply surrogate_range; rewrite Hlow; apply orb_true_r).
           cbn [app rev]. rewrite !lex_plain by lia.
           rewrite IH by (simpl in Hlen; lia).
           rewrite <- app_assoc. reflexivity.
        -- rewrite <- app_assoc, lex_unicode_escape by lia.
           apply IH. lia.
    + rewrite <- app_assoc, lex_quote_unit. apply IH. lia.
Qed.

Lemma lex_quote_body s acc rest :
  lex_from (InStr acc) (quote_body s ++ rest)
  = lex_from (InStr (rev s ++ acc)) rest.
Proof. apply (lex_quote_body_bounded (List.length s)). lia. Qed.

(** A quoted string is read back as one string token. *)
Lemma lex_quote s rest :
  lex_from Start (quote s ++ rest)
  = prepend [TString s] (lex_from Start rest).
Proof.
  unfold quote. cbn [app]. rewrite <- app_assoc.
  change (lex_from Start (34 :: ?x)) with
    (prepend [] (lex_from (InStr []) x)).
  rewrite prepend_nil, lex_quote_body. rewrite app_nil_r.
  cbn [app lex_from lex_step]. rewrite N.eqb_refl, rev_involutive.
  reflexivity.
Qed.

Lemma prepend_prepend (a b : list token) (o : option (list token)) :
  prepend a (prepend b o) = prepend (a ++ b) o.
Proof. destruct o; simpl; [rewrite app_assoc |]; reflexivity. Qed.

Lemma lex_punctuation c t rest :
  start_step c = Some ([t], Start) ->
  lex_from Start (c :: rest) = prepend [t] (lex_from Start rest).
Proof. intros H. cbn [lex_from lex_step]. rewrite H. reflexivity. Qed.

Lemma lex_member p rest :
  lex_from Start (member_text p ++ rest)
  = prepend (member_tokens p) (lex_from Start rest).
Proof.
  unfold member_text, member_tokens. rewrite <- app_assoc, lex_quote.
  cbn [app]. rewrite (lex_punctuation 58 TColon) by reflexivity.
  rewrite lex_quote, !prepend_prepend. reflexivity.
Qed.

Lemma lex_more_members ps rest :
  lex_from Start (more_members ps ++ rest)
  = prepend (more_tokens ps) (lex_from Start rest).
Proof.
  induction ps as [| p ps IH]; cbn [more_members more_tokens app].
  - symmetry. apply prepend_nil.
  - rewrite (lex_punctuation 44 TComma) by reflexivity.
    rewrite <- app_assoc, lex_member, IH, !prepend_prepend. reflexivity.
Qed.

Lemma lex_stringify props :
  lex_from Start (JSON_stringify props) = Some (object_tokens props).
Proof.
  destruct props as [| p ps]; [reflexivity |].
  unfold JSON_stringify, object_tokens.
  rewrite (lex_punctuation 123 TLBrace) by reflexivity.
  rewrite lex_member, lex_more_members.
  rewrite (lex_punctuation 125 TRBrace) by reflexivity.
  cbn [lex_from lex_end prepend]. rewrite !app_nil_r. reflexivity.
Qed.

Lemma parse_more_members ps done stack ts :
  parse_tokens (SObjectNext done stack) (more_tokens ps ++ ts)
  = parse_tokens (SObjectNext (rev (map string_member ps) ++ done) stack) ts.
Proof.
  revert done. induction ps as [| p ps IH]; intros done; [reflexivity |].
  cbn [more_tokens member_tokens app parse_tokens parse_step value_step
       deliver].
  rewrite IH. cbn [map rev]. rewrite <- app_assoc. reflexivity.
Qed.

Lemma parse_object_tokens props :
  parse_tokens (SValue []) (object_tokens props) = Some (record_value props).
Proof.
  destruct props as [| p ps]; [reflexivity |].
  unfold object_tokens, record_value.
  cbn [member_tokens app parse_tokens parse_step value_step deliver].
  rewrite parse_more_members.
  cbn [parse_tokens parse_step deliver map].
  rewrite rev_app_distr, rev_involutive. reflexivity.
Qed.

(** Parsing the text [JSON_stringify] wrote gives the record back, for
    every record of strings. *)
Lemma JSON_parse_stringify props :
  JSON_parse (JSON_stringify props) = Some (record_value props).
Proof.
  unfold JSON_parse. rewrite lex_stringify. apply parse_object_tokens.
Qed.

End JSONFacts.

(** ** Data URLs *)
Module BlobFacts.
Import JS Blob.

Lemma split_from_no_sep sep cur s :
  ~ In sep s -> split_from sep cur s = [rev cur ++ s].
Proof.
  revert cur. induction s as [| c s IH]; intros cur Hs; cbn [split_from].
  - rewrite app_nil_r. reflexivity.
  - destruct (N.eqb_spec c sep) as [-> | Hne].
    + exfalso. apply Hs. left. reflexivity.
    + rewrite IH by (intros Hin; apply Hs; right; exact Hin).
      cbn [rev]. rewrite <- app_assoc. reflexivity.
Qed.

Lemma split_from_first sep cur a b :
  ~ In sep a ->
  split_from sep cur (a ++ sep :: b) = (rev cur ++ a) :: split_from sep [] b.
Proof.
  revert cur. induction a as [| c a IH]; intros cur Ha; cbn [split_from app].
  - rewrite N.eqb_refl, app_nil_r. reflexivity.
  - destruct (N.eqb_spec c sep) as [-> | Hne].
    + exfalso. apply Ha. left. reflexivity.
    + rewrite IH by (intros Hin; apply Ha; right; exact Hin).
      cbn [rev]. rewrite <- app_assoc. reflexivity.
Qed.

Lemma base64_char_not_comma i : base64_char i <> 44.
Proof.
  unfold base64_char.
  destruct (N.ltb_spec i 26); [lia |].
  destruct (N.ltb_spec i 52); [lia |].
  destruct (N.ltb_spec i 62); [lia |].
  destruct (N.eqb_spec i 62); lia.
Qed.

Lemma base64_no_comma_bounded (n : nat) :
  forall bs, (List.length bs <= n)%nat -> ~ In 44 (base64 bs).
Proof.
  induction n as [| n IH]; intros bs Hlen.
  - destruct bs; [intros [] | simpl in Hlen; lia].
  - destruct bs as [| a [| b [| c rest]]]; cbn [base64 In].
    + intros [].
    + intros [H | [H | [H | [H | []]]]];
        try (revert H; apply base64_char_not_comma); lia.
    + intros [H | [H | [H | [H | []]]]];
        try (revert H; apply base64_char_not_comma); lia.
    + intros [H | [H | [H | [H | H]]]];
        try (revert H; apply base64_char_not_comma).
      revert H. apply IH. simpl in Hlen. lia.
Qed.

Lemma base64_no_comma bs : ~ In 44 (base64 bs).
Proof. apply (base64_no_comma_bounded (List.length bs)). lia. Qed.

(** [reader.result.split(',')[1]] is the base64 text of the bytes, when
    the blob's type has no comma. *)
Lemma data_url_split (b : Blob) :
  ~ In 44 (blob_type b) ->
  nth_error (split 44 (data_url b)) 1 = Some (base64 (blob_bytes b)).
Proof.
  intros Hty. unfold split, data_url.
  assert (Hprefix : ~ In 44 (lit "data:" ++ media_type b ++ lit ";base64")).
  { rewrite !in_app_iff. intros [H | [H | H]].
    - vm_compute in H. intuition discriminate.
    - unfold media_type in H.
      destruct (is_empty (blob_type b)); [| exact (Hty H)].
      vm_compute in H. intuition discriminate.
    - vm_compute in H. intuition discriminate. }
  replace (lit "data:" ++ media_type b ++ lit ";base64,"
           ++ base64 (blob_bytes b))
    with ((lit "data:" ++ media_type b ++ lit ";base64")
          ++ 44 :: base64 (blob_bytes b)).
  - rewrite split_from_first by exact Hprefix.
    rewrite split_from_no_sep by apply base64_no_comma. reflexivity.
  - rewrite <- !app_assoc. reflexivity.
Qed.

End BlobFacts.

(** ** A truncated JSON text is rejected *)
Module Truncation.
Import JS JSON.
Import JSONFacts.

Lemma lex_from_run s : forall m,
  lex_from m s
  = match lex_run m s with
    | None => None
    | Some (ts, m') => prepend ts (lex_end m')
    end.
Proof.
  induction s as [| c s IH]; intros m; cbn [lex_from lex_run].
  - symmetry. apply prepend_nil.
  - destruct (lex_step m c) as [[ts m'] |]; [| reflexivity].
    rewrite IH. destruct (lex_run m' s) as [[ts' m''] |]; [| reflexivity].
    apply prepend_prepend.
Qed.

Lemma lex_run_app p q : forall m,
  lex_run m (p ++ q)
  = match lex_run m p with
    | None => None
    | Some (ts, m') =>
        match lex_run m' q with
        | None => None
        | Some (ts', m'') => Some (ts ++ ts', m'')
        end
    end.
Proof.
  induction p as [| c p IH]; intros m; cbn [app lex_run].
  - destruct (lex_run m q) as [[ts' m''] |]; reflexivity.
  - destruct (lex_step m c) as [[ts m'] |]; [| reflexivity].
    rewrite IH. destruct (lex_run m' p) as [[ts1 m1] |]; [| reflexivity].
    destruct (lex_run m1 q) as [[ts2 m2] |]; [| reflexivity].
    rewrite app_assoc. reflexivity.
Qed.

Lemma parse_tokens_run ts : forall st,
  parse_tokens st ts
  = match parse_run st ts with
    | Some (SDone v) => Some v
    | _ => None
    end.
Proof.
  induction ts as [| t ts IH]; intros st; cbn [parse_tokens parse_run].
  - destruct st; reflexivity.
  - destruct (parse_step st t); [apply IH | reflexivity].
Qed.

Lemma parse_run_app a b : forall st,
  parse_run st (a ++ b)
  = match parse_run st a with
    | None => None
    | Some st' => parse_run st' b
    end.
Proof.
  induction a as [| t a IH]; intros st; cbn [app parse_run]; [reflexivity |].
  destruct (parse_step st t); [apply IH | reflexivity].
Qed.

Ltac split_ifs H :=
  repeat match type of H with
         | context [if ?b then _ else _] => destruct b
         | context [match ?o with Some _ => _ | None => _ end] =>
             destruct o
         end.

Lemma after_token_emits t c ts m : after_token t c = Some (ts, m) -> ts <> [].
Proof.
  unfold after_token. destruct t as [t |]; [| discriminate].
  destruct (start_step c) as [[ts0 m0] |]; [| discriminate].
  intros H. inversion H. discriminate.
Qed.

(** A scanner inside a token stays inside it as long as it emits
    nothing. *)
Lemma busy_step m c m0 :
  m <> Start -> lex_step m c = Some ([], m0) -> m0 <> Start.
Proof.
  intros Hm H. destruct m as [| acc | acc | acc todo value | acc | acc];
    [contradiction | | | | |]; cbn [lex_step] in H.
  - split_ifs H; inversion H; discriminate.
  - split_ifs H; inversion H; discriminate.
  - destruct (hex_value c); [| discriminate].
    destruct todo as [| [| todo]]; inversion H; discriminate.
  - destruct (is_number_unit c); [inversion H; discriminate |].
    apply after_token_emits in H. contradiction.
  - destruct (is_lower c); [inversion H; discriminate |].
    apply after_token_emits in H. contradiction.
Qed.

Lemma lex_end_busy m e : m <> Start -> lex_end m = Some e -> e <> [].
Proof.
  intros Hm H. destruct m; try contradiction; try discriminate;
    cbn [lex_end] in H.
  - destruct (number_token acc); inversion H; discriminate.
  - destruct (word_token acc); inversion H; discriminate.
Qed.

Lemma busy_emits q : forall m ts m' e,
  m <> Start -> lex_run m q = Some (ts, m') -> lex_end m' = Some e ->
  ts ++ e <> [].
Proof.
  induction q as [| c q IH]; intros m ts m' e Hm Hrun Hend;
    cbn [lex_run] in Hrun.
  - inversion Hrun; subst. cbn [app]. eapply lex_end_busy; eassumption.
  - destruct (lex_step m c) as [[ts0 m0] |] eqn:Hstep; [| discriminate].
    destruct (lex_run m0 q) as [[ts1 m1] |] eqn:Hrest; [| discriminate].
    inversion Hrun; subst.
    destruct ts0 as [| t ts0]; [| discriminate].
    cbn [app]. eapply IH; [| exact Hrest | exact Hend].
    eapply busy_step; eassumption.
Qed.

Lemma start_step_silent c m :
  start_step c = Some ([], m) -> is_json_ws c = true \/ m <> Start.
Proof.
  unfold start_step. intros H.
  destruct (is_json_ws c); [left; reflexivity | right].
  split_ifs H; inversion H; discriminate.
Qed.

(** A text read between tokens that yields no token is white space. *)
Lemma silent_white_space q : forall ts m' e,
  lex_run Start q = Some (ts, m') -> lex_end m' = Some e -> ts ++ e = [] ->
  Forall (fun c => is_json_ws c = true) q.
Proof.
  induction q as [| c q IH]; intros ts m' e Hrun Hend Hnil; [constructor |].
  cbn [lex_run lex_step] in Hrun.
  destruct (start_step c) as [[ts0 m0] |] eqn:Hstep; [| discriminate].
  destruct (lex_run m0 q) as [[ts1 m1] |] eqn:Hrest; [| discriminate].
  inversion Hrun; subst.
  destruct ts0 as [| t ts0]; [| discriminate].
  destruct (start_step_silent c m0 Hstep) as [Hws | Hbusy].
  - constructor; [exact Hws |].
    assert (m0 = Start).
    { unfold start_step in Hstep. rewrite Hws in Hstep. congruence. }
    subst m0. eapply IH; eassumption.
  - exfalso. eapply busy_emits; eassumption.
Qed.

Lemma number_token_scalar acc t :
  number_token acc = Some t -> is_scalar_token t = true.
Proof.
  unfold number_token. destruct (valid_number (rev acc)); [| discriminate].
  intros H; inversion H; reflexivity.
Qed.

Lemma word_token_scalar acc t :
  word_token acc = Some t -> is_scalar_token t = true.
Proof.
  unfold word_token. cbv zeta. intros H.
  split_ifs H; inversion H; reflexivity.
Qed.

(** A scanner inside a number or a word emits that scalar first. *)
Lemma scalar_first q : forall m ts m' e,
  in_scalar m = true ->
  lex_run m q = Some (ts, m') -> lex_end m' = Some e ->
  exists t rest, ts ++ e = t :: rest /\ is_scalar_token t = true.
Proof.
  induction q as [| c q IH]; intros m ts m' e Hm Hrun Hend;
    cbn [lex_run] in Hrun.
  - inversion Hrun; subst. cbn [app].
    destruct m'; try discriminate; cbn [lex_end] in Hend.
    + destruct (number_token acc) as [t |] eqn:Ht; [| discriminate].
      inversion Hend. exists t, []. split; [reflexivity |].
      eapply number_token_scalar; eassumption.
    + destruct (word_token acc) as [t |] eqn:Ht; [| discriminate].
      inversion Hend. exists t, []. split; [reflexivity |].
      eapply word_token_scalar; eassumption.
  - destruct (lex_step m c) as [[ts0 m0] |] eqn:Hstep; [| discriminate].
    destruct (lex_run m0 q) as [[ts1 m1] |] eqn:Hrest; [| discriminate].
    inversion Hrun; subst.
    destruct m; try discriminate; cbn [lex_step] in Hstep.
    + destruct (is_number_unit c).
      * inversion Hstep; subst. cbn [app].
        eapply IH; [| exact Hrest | exact Hend]. reflexivity.
      * unfold after_token in Hstep.
        destruct (number_token acc) as [t |] eqn:Ht; [| discriminate].
        destruct (start_step c) as [[ts2 m2] |]; [| discriminate].
        inversion Hstep; subst. exists t. eexists. split; [reflexivity |].
        eapply number_token_scalar; eassumption.
    + destruct (is_lower c).
      * inversion Hstep; subst. cbn [app].
        eapply IH; [| exact Hrest | exact Hend]. reflexivity.
      * unfold after_token in Hstep.
        destruct (word_token acc) as [t |] eqn:Ht; [| discriminate].
        destruct (start_step c) as [[ts2 m2] |]; [| discriminate].
        inversion Hstep; subst. exists t. eexists. split; [reflexivity |].
        eapply word_token_scalar; eassumption.
Qed.

Lemma parse_run_done v ts st :
  parse_run (SDone v) ts = Some st -> ts = [].
Proof. destruct ts; [reflexivity | discriminate]. Qed.

Lemma deliver_not_initial v stack : deliver v stack <> SValue [].
Proof. destruct stack as [| [] stack]; discriminate. Qed.

Lemma value_step_not_initial stack t st :
  value_step stack t = Some st -> st <> SValue [].
Proof.
  destruct t; cbn [value_step]; intros H; inversion H;
    try discriminate; apply deliver_not_initial.
Qed.

(** No token leads back to the initial state. *)
Lemma parse_step_not_initial st t st' :
  parse_step st t = Some st' -> st' <> SValue [].
Proof.
  destruct st; cbn [parse_step]; intros H.
  - eapply value_step_not_initial; eassumption.
  - destruct t; try (eapply value_step_not_initial; eassumption).
    inversion H. apply deliver_not_initial.
  - destruct t; inversion H; try discriminate. apply deliver_not_initial.
  - destruct t; inversion H; discriminate.
  - destruct t; inversion H; discriminate.
  - destruct t; inversion H; try discriminate. apply deliver_not_initial.
  - destruct t; inversion H; try discriminate. apply deliver_not_initial.
  - discriminate.
Qed.

Lemma parse_run_not_initial ts : forall st st',
  ts <> [] -> parse_run st ts = Some st' -> st' <> SValue [].
Proof.
  induction ts as [| t ts IH]; intros st st' Hne Hrun; [contradiction |].
  cbn [parse_run] in Hrun.
  destruct (parse_step st t) as [st1 |] eqn:Hstep; [| discriminate].
  destruct ts as [| t' ts].
  - inversion Hrun; subst. eapply parse_step_not_initial; eassumption.
  - eapply IH; [discriminate | exact Hrun].
Qed.

(** Past the initial state, a scalar does not complete the text. *)
Lemma scalar_not_done st t v :
  st <> SValue [] -> is_scalar_token t = true ->
  parse_step st t <> Some (SDone v).
Proof.
  intros Hst Ht H. destruct st; cbn [parse_step] in H.
  - destruct stack as [| [] stack]; [contradiction | |];
      destruct t; try discriminate.
  - destruct t; try discriminate.
  - destruct t; try discriminate.
  - destruct t; try discriminate.
  - destruct t; try discriminate.
  - destruct t; try discriminate.
  - destruct t; try discriminate.
  - discriminate.
Qed.

(** A text that begins with a scalar is that scalar. *)
Lemma scalar_text t rest v :
  is_scalar_token t = true ->
  parse_tokens (SValue []) (t :: rest) = Some v -> is_container v = false.
Proof.
  intros Ht H. rewrite parse_tokens_run in H. cbn [parse_run parse_step] in H.
  destruct t; try discriminate; cbn [value_step deliver] in H;
    destruct rest; try discriminate; cbn [parse_run] in H;
    inversion H; reflexivity.
Qed.

(** Cut an object or an array anywhere before its last character that
    is not white space: what is left is not a JSON text. *)
Lemma truncated_rejected (p q : jsstring) (v : json) :
  JSON_parse (p ++ q) = Some v ->
  is_container v = true ->
  existsb (fun c => negb (is_json_ws c)) q = true ->
  JSON_parse p = None.
Proof.
  unfold JSON_parse. rewrite !lex_from_run, lex_run_app.
  intros Hfull Hv Hq.
  destruct (lex_run Start p) as [[T1 m1] |] eqn:Hp; [| reflexivity].
  destruct (lex_run m1 q) as [[T2 mE] |] eqn:Hqrun; [| discriminate].
  destruct (lex_end mE) as [E |] eqn:HE; [| discriminate].
  cbn [prepend] in Hfull.
  destruct (lex_end m1) as [E1 |] eqn:HE1; [| reflexivity].
  cbn [prepend]. rewrite parse_tokens_run, parse_run_app.
  rewrite parse_tokens_run, <- app_assoc, parse_run_app in Hfull.
  destruct (parse_run (SValue []) T1) as [S1 |] eqn:HS1; [| reflexivity].
  destruct (parse_run S1 (T2 ++ E)) as [[] |] eqn:Hrest; try discriminate.
  destruct (parse_run S1 E1) as [[] |] eqn:Hcut; try reflexivity.
  exfalso.
  destruct m1; try discriminate; cbn [lex_end] in HE1.
  - (* between tokens *)
    inversion HE1; subst E1. cbn [parse_run] in Hcut. inversion Hcut; subst S1.
    apply parse_run_done in Hrest.
    pose proof (silent_white_space q T2 mE E Hqrun HE Hrest) as Hws.
    apply existsb_exists in Hq as (c & Hc & Hnot).
    rewrite Forall_forall in Hws. rewrite (Hws c Hc) in Hnot. discriminate.
  - (* inside a number *)
    destruct (number_token acc) as [t |] eqn:Ht; [| discriminate].
    inversion HE1; subst E1. cbn [parse_run] in Hcut.
    destruct (parse_step S1 t) as [S2 |] eqn:Hstep; [| discriminate].
    inversion Hcut; subst S2.
    destruct T1 as [| t1 T1].
    + cbn [parse_run] in HS1. inversion HS1; subst S1.
      destruct (scalar_first q (InNum acc) T2 mE E eq_refl Hqrun HE)
        as (t' & rest & Hfirst & Hscalar).
      assert (Hwhole : parse_tokens (SValue []) (t' :: rest) = Some v0).
      { rewrite parse_tokens_run, <- Hfirst, Hrest. reflexivity. }
      apply (scalar_text _ _ _ Hscalar) in Hwhole.
      inversion Hfull; subst. rewrite Hv in Hwhole. discriminate.
    + eapply scalar_not_done; [| | exact Hstep].
      * eapply parse_run_not_initial; [| exact HS1]. discriminate.
      * eapply number_token_scalar; eassumption.
  - (* inside a word *)
    destruct (word_token acc) as [t |] eqn:Ht; [| discriminate].
    inversion HE1; subst E1. cbn [parse_run] in Hcut.
    destruct (parse_step S1 t) as [S2 |] eqn:Hstep; [| discriminate].
    inversion Hcut; subst S2.
    destruct T1 as [| t1 T1].
    + cbn [parse_run] in HS1. inversion HS1; subst S1.
      destruct (scalar_first q (InWord acc) T2 mE E eq_refl Hqrun HE)
        as (t' & rest & Hfirst & Hscalar).
      assert (Hwhole : parse_tokens (SValue []) (t' :: rest) = Some v0).
      { rewrite parse_tokens_run, <- Hfirst, Hrest. reflexivity. }
      apply (scalar_text _ _ _ Hscalar) in Hwhole.
      inversion Hfull; subst. rewrite Hv in Hwhole. discriminate.
    + eapply scalar_not_done; [| | exact Hstep].
      * eapply parse_run_not_initial; [| exact HS1]. discriminate.
      * eapply word_token_scalar; eassumption.
Qed.

End Truncation.

(** ** Negotiation of the encoding *)
Module Negotiation.
Import JS Recorder.

Lemma first_supported_skips f before type after fallback :
  (forall u, In u before -> f u = false) ->
  f type = true ->
  first_supported f (before ++ type :: after) fallback = type.
Proof.
  intros Hbefore Htype. induction before as [| u before IH]; cbn.
  - rewrite Htype. reflexivity.
  - rewrite (Hbefore u (or_introl eq_refl)).
    apply IH. intros v Hv. apply Hbefore. right. exact Hv.
Qed.

Lemma first_supported_none f l fallback :
  (forall u, In u l -> f u = false) ->
  first_supported f l fallback = fallback.
Proof.
  intros Hl. induction l as [| u l IH]; cbn; [reflexivity |].
  rewrite (Hl u (or_introl eq_refl)).
  apply IH. intros v Hv. apply Hl. right. exact Hv.
Qed.

(** C8.  For every capability table, [getSupportedMimeType] returns the
    first entry of the preference list audio/webm;codecs=opus,
    audio/webm, audio/mp4, audio/wav that the table supports (every
    entry before it being unsupported), and returns audio/webm when the
    table supports none of the four. *)
Theorem getSupportedMimeType_first_supported
        (isTypeSupported : jsstring -> bool) :
  let preference :=
    [lit "audio/webm;codecs=opus"; lit "audio/webm"; lit "audio/mp4";
     lit "audio/wav"] in
  (forall before type after,
      preference = before ++ type :: after ->
      (forall u, In u before -> isTypeSupported u = false) ->
      isTypeSupported type = true ->
      getSupportedMimeType isTypeSupported = type)
  /\ ((forall u, In u preference -> isTypeSupported u = false) ->
      getSupportedMimeType isTypeSupported = lit "audio/webm").
Proof.
  intros preference. split.
  - intros before type after Hsplit Hbefore Htype.
    unfold getSupportedMimeType.
    change types with preference. rewrite Hsplit.
    apply first_supported_skips; assumption.
  - intros Hnone. unfold getSupportedMimeType.
    apply first_supported_none. exact Hnone.
Qed.

(** A platform that records MP4 and WAV only gets audio/mp4. *)
Lemma getSupportedMimeType_mp4_wav :
  getSupportedMimeType
    (fun t => jsstring_eqb t (lit "audio/mp4")
              || jsstring_eqb t (lit "audio/wav"))
  = lit "audio/mp4".
Proof.
  apply (proj1 (getSupportedMimeType_first_supported _)
               [lit "audio/webm;codecs=opus"; lit "audio/webm"]
               (lit "audio/mp4") [lit "audio/wav"]).
  - reflexivity.
  - intros u [<- | [<- | []]]; reflexivity.
  - reflexivity.
Defined.

End Negotiation.

(** ** Submitting text *)
Module Submission.
Import JS JSON Blob Chat Scenario.

Lemma trimStart_white_space s :
  Forall (fun c => is_white_space c = true) s -> trimStart s = [].
Proof.
  induction 1 as [| c s Hc _ IH]; cbn; [reflexivity |].
  rewrite Hc. exact IH.
Qed.

Lemma trim_white_space s :
  Forall (fun c => is_white_space c = true) s -> trim s = [].
Proof.
  intros Hs. unfold trim, trimEnd. rewrite (trimStart_white_space s Hs).
  reflexivity.
Qed.

(** C10.  [sendTextMessage] called with a text made of white space only
    (the empty text included), or while the socket ref is null, returns
    at once: the state it leaves is the state it found, so no message
    is appended, the input text is kept, the processing flag is not
    set and nothing is sent. *)
Theorem sendTextMessage_noop (text : jsstring) (st : State) :
  Forall (fun c => is_white_space c = true) text \/ socketRef st = None ->
  sendTextMessage text st = st.
Proof.
  intros [Hblank | Hnull]; unfold sendTextMessage.
  - rewrite (trim_white_space text Hblank). reflexivity.
  - rewrite Hnull. destruct (is_empty (trim text)); reflexivity.
Qed.

Lemma sendTextMessage_noop_blank :
  sendTextMessage (lit "  ") connected_page = connected_page
  /\ inputText (sendTextMessage (lit "  ") connected_page) = lit "draft".
Proof.
  split.
  - apply sendTextMessage_noop. left. repeat constructor.
  - rewrite sendTextMessage_noop; [reflexivity |].
    left. repeat constructor.
Defined.

(** The setters of the submission leave the sockets alone. *)
Lemma open_socket_after_echo (m : Message) (st : State) :
  open_socket
    (setIsProcessing true
       (setInputText [] (setMessages (fun prev => prev ++ [m]) st)))
  = open_socket st.
Proof. reflexivity. Qed.

Lemma open_socket_ref (st : State) (i : nat) :
  open_socket st = Some i -> socketRef st = Some i.
Proof.
  unfold open_socket. destruct (socketRef st) as [j |]; [| discriminate].
  destruct (readyState j st) as [[] |]; congruence.
Qed.

(** C6.  A text submission that passes the guard (the trimmed text is not
    empty) while the socket of the ref is open hands to [send] exactly
    one frame, the serialization of the object with the members type
    (the word text), data (the text as typed), language and
    conversationMode, in this order. *)
Theorem sendTextMessage_wire (text : jsstring) (st : State) (i : nat) :
  is_empty (trim text) = false ->
  open_socket st = Some i ->
  let envelope :=
    JSON_stringify
      [(lit "type", lit "text"); (lit "data", text);
       (lit "language", currentLanguage st);
       (lit "conversationMode", conversationMode st)] in
  wire (sendTextMessage text st) = wire st ++ [(i, envelope)]
  /\ envelope
     = sq "{'type':'text','data':" ++ quote text
       ++ sq ",'language':" ++ quote (currentLanguage st)
       ++ sq ",'conversationMode':" ++ quote (conversationMode st)
       ++ sq "}".
Proof.
  intros Htext Hopen envelope. split.
  - unfold sendTextMessage. rewrite Htext.
    rewrite (open_socket_ref st i Hopen).
    rewrite open_socket_after_echo, Hopen. reflexivity.
  - subst envelope. unfold JSON_stringify, more_members, member_text.
    cbn [fst snd].
    repeat (rewrite <- app_assoc || rewrite <- app_comm_cons
            || rewrite app_nil_r).
    reflexivity.
Qed.

(** The scenario of the specification: hello, in English, to the
    guidance counselor. *)
Lemma sendTextMessage_wire_hello :
  let st := setCurrentLanguage (lit "en") connected_page in
  is_empty (trim (lit "hello")) = false
  /\ open_socket st = Some 0%nat
  /\ conversationMode st = lit "guidance_counselor"
  /\ wire (sendTextMessage (lit "hello") st)
     = [(0%nat,
         sq "{'type':'text','data':'hello','language':'en','conversationMode':'guidance_counselor'}")].
Proof.
  intros st.
  split; [reflexivity |]. split; [reflexivity |]. split; [reflexivity |].
  rewrite (proj1 (sendTextMessage_wire (lit "hello") st 0 eq_refl eq_refl)).
  reflexivity.
Defined.

End Submission.

(** ** The envelope read back *)
Module Codec.
Import JS JSON Blob Chat Recorder Scenario.

Lemma first_supported_range f l fallback :
  In (first_supported f l fallback) (fallback :: l).
Proof.
  induction l as [| t l IH]; cbn [first_supported].
  - left. reflexivity.
  - destruct (f t).
    + right. left. reflexivity.
    + destruct IH as [IH | IH]; [left; exact IH | right; right; exact IH].
Qed.

(** Whatever the platform supports, the type of a recorded clip has no
    comma. *)
Lemma clip_type_no_comma (isTypeSupported : jsstring -> bool)
                         (chunks : list Blob) :
  ~ In 44 (blob_type (new_Blob chunks (getSupportedMimeType isTypeSupported))).
Proof.
  cbn [new_Blob blob_type]. unfold getSupportedMimeType.
  destruct (first_supported_range isTypeSupported types (lit "audio/webm"))
    as [<- | [<- | [<- | [<- | [<- | []]]]]];
    vm_compute; intuition discriminate.
Qed.

(** C7.  Parsing the frame written for a turn gives back the envelope,
    member for member: for a text turn the type, the text, the language
    and the conversation mode; for an audio turn whose clip type has no
    comma the type, the base64 text of the clip's bytes (what
    [onloadend] cuts out of the data URL), the language and the
    conversation mode.  Every clip the recorder makes has such a
    type. *)
Theorem envelope_round_trip :
  (forall text language mode : jsstring,
      JSON_parse (JSON_stringify (text_envelope text language mode))
      = Some (JObject [(lit "type", JString (lit "text"));
                       (lit "data", JString text);
                       (lit "language", JString language);
                       (lit "conversationMode", JString mode)]))
  /\ (forall (clip : Blob) (language mode : jsstring),
         ~ In 44 (blob_type clip) ->
         JSON_parse
           (JSON_stringify
              (audio_envelope (nth_error (split 44 (data_url clip)) 1)
                              language mode))
         = Some (JObject [(lit "type", JString (lit "audio"));
                          (lit "data", JString (base64 (blob_bytes clip)));
                          (lit "language", JString language);
                          (lit "conversationMode", JString mode)]))
  /\ (forall (isTypeSupported : jsstring -> bool) (chunks : list Blob),
         ~ In 44 (blob_type (new_Blob chunks
                               (getSupportedMimeType isTypeSupported)))).
Proof.
  split; [| split].
  - intros text language mode.
    rewrite JSONFacts.JSON_parse_stringify. reflexivity.
  - intros clip language mode Hty.
    rewrite (BlobFacts.data_url_split clip Hty).
    rewrite JSONFacts.JSON_parse_stringify. reflexivity.
  - intros isTypeSupported chunks. apply clip_type_no_comma.
Qed.

Lemma envelope_round_trip_sample :
  blob_type sample_clip = lit "audio/webm;codecs=opus"
  /\ data_url sample_clip = lit "data:audio/webm;codecs=opus;base64,TWFu"
  /\ JSON_parse
       (JSON_stringify
          (audio_envelope (nth_error (split 44 (data_url sample_clip)) 1)
                          (lit "hi") (lit "guidance_counselor")))
     = Some (JObject [(lit "type", JString (lit "audio"));
                      (lit "data", JString (lit "TWFu"));
                      (lit "language", JString (lit "hi"));
                      (lit "conversationMode",
                       JString (lit "guidance_counselor"))]).
Proof.
  split; [reflexivity |]. split; [reflexivity |].
  rewrite (proj1 (proj2 envelope_round_trip) sample_clip (lit "hi")
                 (lit "guidance_counselor")
                 (proj2 (proj2 envelope_round_trip) (fun _ => true) _)).
  reflexivity.
Defined.

End Codec.

(** ** The session: the processing flag, the transcript, failures *)
Module Session.
Import JS JSON Blob Chat Scenario.
Import Submission.

(** *** C4: submitting while the socket is not open *)

(** C4, as the specification states it, fails: with the socket closed,
    hello is echoed as a user message, no error message is appended,
    and the processing flag stays set although nothing was sent. *)
Lemma sendTextMessage_closed_socket :
  let st' := sendTextMessage (lit "hello") dropped_page in
  connectionStatus dropped_page = disconnected
  /\ open_socket dropped_page = None
  /\ wire st' = wire dropped_page
  /\ map type (messages st') = [user]
  /\ isProcessing st' = true.
Proof. repeat split. Qed.

(** C4, amended.  When [sendTextMessage] is called with a text that is
    not blank while the socket of the ref exists but is not open,
    nothing is sent, and the transcript gains exactly the user message
    of the text (no error message). *)
Theorem sendTextMessage_not_open (text : jsstring) (st : State) (i : nat) :
  is_empty (trim text) = false ->
  socketRef st = Some i ->
  open_socket st = None ->
  wire (sendTextMessage text st) = wire st
  /\ messages (sendTextMessage text st) = messages st ++ [userMessage text st].
Proof.
  intros Htext Href Hopen. unfold sendTextMessage.
  rewrite Htext, Href, open_socket_after_echo, Hopen. split; reflexivity.
Qed.

Lemma sendTextMessage_not_open_dropped :
  wire (sendTextMessage (lit "hello") dropped_page) = []
  /\ messages (sendTextMessage (lit "hello") dropped_page)
     = [userMessage (lit "hello") dropped_page].
Proof.
  exact (sendTextMessage_not_open (lit "hello") dropped_page 0
           eq_refl eq_refl eq_refl).
Defined.

(** *** C5: a payload that is not JSON text *)

(** C5, as the specification states it, fails: a truncated response
    makes [JSON.parse] throw inside [handleSocketMessage]; no message is
    rendered and the state stays as it was, the flag still set. *)
Lemma handleSocketMessage_truncated :
  let data := sq "{'type':'text_response','response_text':'Hi the" in
  JSON_parse data = None
  /\ handleSocketMessage data pending_page = Thrown SyntaxError pending_page
  /\ messages (step pending_page (SocketMessage 0 data))
     = messages pending_page
  /\ isProcessing (step pending_page (SocketMessage 0 data)) = true.
Proof. repeat split. Qed.

(** C5, amended.  A payload that [JSON.parse] rejects makes
    [handleSocketMessage] end with the SyntaxError uncaught, before any
    update: the state is the one it found, so no message of any role is
    appended, and the turn of the event loop that delivered the payload
    leaves the page unchanged.  Every truncation of a payload whose
    value is an object or an array is such a payload, once it has lost
    a character that is not white space. *)
Theorem handleSocketMessage_malformed :
  (forall (data : jsstring) (st : State),
      JSON_parse data = None ->
      handleSocketMessage data st = Thrown SyntaxError st
      /\ forall i, step st (SocketMessage i data) = st)
  /\ (forall (data rest : jsstring) (message : json) (st : State),
         JSON_parse (data ++ rest) = Some message ->
         is_container message = true ->
         existsb (fun c => negb (is_json_ws c)) rest = true ->
         handleSocketMessage data st = Thrown SyntaxError st).
Proof.
  assert (Hthrown : forall data st,
             JSON_parse data = None ->
             handleSocketMessage data st = Thrown SyntaxError st)
    by (intros data st Hparse; unfold handleSocketMessage;
        rewrite Hparse; reflexivity).
  split.
  - intros data st Hparse. split; [apply Hthrown; exact Hparse |].
    intros i. cbn [step]. rewrite (Hthrown data st Hparse).
    destruct (readyState i st) as [[] |]; reflexivity.
  - intros data rest message st Hfull Hcontainer Hrest.
    apply Hthrown.
    exact (Truncation.truncated_rejected data rest message
             Hfull Hcontainer Hrest).
Qed.

(** The response to hello, cut in the middle of its text. *)
Lemma handleSocketMessage_malformed_truncated :
  let data := sq "{'type':'text_response','response_text':'Hi the" in
  let rest := sq "re','detected_language':'en'}" in
  JSON_parse (data ++ rest)
  = Some (JObject [(lit "type", JString (lit "text_response"));
                   (lit "response_text", JString (lit "Hi there"));
                   (lit "detected_language", JString (lit "en"))])
  /\ handleSocketMessage data pending_page = Thrown SyntaxError pending_page.
Proof.
  intros data rest. split; [reflexivity |].
  exact (proj2 handleSocketMessage_malformed data rest _ pending_page
               eq_refl eq_refl eq_refl).
Defined.

End Session.

(** ** Single flight *)
Module SingleFlight.
Import JS JSON Blob Chat Scenario.
Import Submission Session.

(** C1, as the specification states it, fails: [sendTextMessage] does
    not look at the processing flag.  Called a second time while the
    first turn is pending, it echoes a second user message and sends a
    second frame. *)
Lemma sendTextMessage_while_pending :
  let st := sendTextMessage (lit "again") pending_page in
  isProcessing pending_page = true
  /\ List.length (wire pending_page) = 1%nat
  /\ List.length (wire st) = 2%nat
  /\ map type (messages st) = [user; user].
Proof. repeat split. Qed.

(** Nor is the second submission always stopped by the controls: a
    recorder that stops by itself (its track ended) while a text turn is
    pending calls [sendAudioMessage] all the same, and a second frame
    goes out before any response. *)
Lemma two_turns_in_flight :
  let st :=
    App.run (App.initial true (fun _ => true))
      [App.Page Mounted; App.Page (SocketOpen 0);
       App.Voice Recorder.Mounted;
       App.Voice (Recorder.MediaSettled 0 true []);
       App.Voice Recorder.Click;
       App.Voice (Recorder.MediaSettled 0 true [128; 64]);
       App.Page (Change (lit "hello")); App.Page EnterKey;
       App.Voice (Recorder.Stopped 0);
       App.Page (ReaderLoadEnd 0 true)] in
  List.length (wire (App.page st)) = 2%nat
  /\ map type (messages (App.page st)) = [user]
  /\ isProcessing (App.page st) = true.
Proof. repeat split. Qed.

(** C1, amended.  The pending marker is the one boolean [isProcessing]. A
    submission that passes its guard sets it, by [sendTextMessage] as by
    [sendAudioMessage]; neither function tests it or reports Busy.  The
    rejection is made by the controls: while the flag is set the
    textarea, the send button and the recorder's button are disabled,
    and the Enter key, a click on the send button, typing, and a click
    on the recorder's button leave the whole state as it is, so no user
    message is appended and nothing is sent. *)
Theorem controls_disabled_while_processing :
  (forall (text : jsstring) (st : State) (i : nat),
      is_empty (trim text) = false -> socketRef st = Some i ->
      isProcessing (sendTextMessage text st) = true)
  /\ (forall (language mode : jsstring) (clip : Blob) (st : State) (i : nat),
         socketRef st = Some i ->
         isProcessing (sendAudioMessage language mode (Some clip) st) = true)
  /\ (forall st : App.State,
         isProcessing (App.page st) = true ->
         App.step st (App.Page EnterKey) = st
         /\ App.step st (App.Page SendClick) = st
         /\ (forall value, App.step st (App.Page (Change value)) = st)
         /\ App.step st (App.Voice Recorder.Click) = st).
Proof.
  split; [| split].
  - intros text st i Htext Href. unfold sendTextMessage.
    rewrite Htext, Href. destruct (open_socket _); reflexivity.
  - intros language mode clip st i Href. unfold sendAudioMessage.
    rewrite Href. reflexivity.
  - intros [p v] Hflag. cbn [App.page] in Hflag.
    cbn [App.step step App.page App.voice Recorder.step Recorder.click].
    rewrite Hflag, orb_true_r. repeat split.
Qed.

(** With hello pending and more text typed in, the Enter key, the send
    button and the recorder's button do nothing. *)
Lemma controls_disabled_while_pending :
  let st := {| App.page := setInputText (lit "again") pending_page;
               App.voice := Recorder.initial (fun _ => true) |} in
  isProcessing (App.page st) = true
  /\ App.run st [App.Page EnterKey; App.Page SendClick;
                 App.Voice Recorder.Click] = st.
Proof.
  intros st. split; [reflexivity |].
  destruct (proj2 (proj2 controls_disabled_while_processing) st eq_refl)
    as (Henter & Hsend & _ & Hclick).
  cbn [App.run fold_left]. rewrite Henter, Hsend, Hclick. reflexivity.
Defined.

End SingleFlight.

(** ** The transcript *)
Module Transcript.
Import JS JSON Blob Chat Scenario.
Import Submission Session.

Lemma extends_refl a : extends a a.
Proof. exists []. symmetry. apply app_nil_r. Qed.

Lemma extends_one a m : extends a (a ++ [m]).
Proof. exists [m]. reflexivity. Qed.

Lemma extends_trans a b c : extends a b -> extends b c -> extends a c.
Proof.
  intros [x ->] [y ->]. exists (x ++ y). symmetry. apply app_assoc.
Qed.

Create HintDb transcript.
#[local] Hint Resolve extends_refl extends_one : transcript.

Lemma connectWebSocket_messages st :
  messages (connectWebSocket st) = messages st.
Proof. unfold connectWebSocket. cbn. destruct (wsUrlValid st); reflexivity. Qed.

Lemma handleSocketMessage_extends data st :
  extends (messages st) (messages (state_of (handleSocketMessage data st))).
Proof.
  unfold handleSocketMessage.
  destruct (JSON_parse data) as [message |]; [| apply extends_refl].
  destruct message; cbn [state_of]; try apply extends_refl;
    repeat match goal with
           | |- context [if ?b then _ else _] => destruct b
           end;
    cbn; auto with transcript.
Qed.

Lemma sendTextMessage_extends text st :
  extends (messages st) (messages (sendTextMessage text st)).
Proof.
  unfold sendTextMessage.
  destruct (is_empty (trim text)); [apply extends_refl |].
  destruct (socketRef st); [| apply extends_refl].
  destruct (open_socket _); cbn; auto with transcript.
Qed.

Lemma sendAudioMessage_messages language mode clip st :
  messages (sendAudioMessage language mode clip st) = messages st.
Proof.
  unfold sendAudioMessage. destruct clip, (socketRef st); reflexivity.
Qed.

Lemma onloadend_messages result language mode st :
  messages (state_of (onloadend result language mode st)) = messages st.
Proof.
  unfold onloadend. destruct result; [| reflexivity].
  destruct (open_socket st); reflexivity.
Qed.

Lemma page_step_extends st e :
  extends (messages st) (messages (step st e)).
Proof.
  destruct e; cbn [step].
  - rewrite connectWebSocket_messages. apply extends_refl.
  - unfold cleanup, socket_close.
    destruct (socketRef st) as [i |]; [| apply extends_refl].
    destruct (readyState i st) as [[] |]; apply extends_refl.
  - destruct (readyState i st) as [[] |]; apply extends_refl.
  - destruct (readyState i st) as [[] |], failed; apply extends_refl.
  - destruct (readyState i st) as [[] |]; try apply extends_refl.
    apply handleSocketMessage_extends.
  - destruct (nth_error (timers st) k) as [due |]; [| apply extends_refl].
    destruct (due <=? clock st); [| apply extends_refl].
    rewrite connectWebSocket_messages. apply extends_refl.
  - apply extends_refl.
  - destruct (nth_error (readers st) k) as [r |]; [| apply extends_refl].
    rewrite onloadend_messages. apply extends_refl.
  - destruct (isProcessing st); apply extends_refl.
  - destruct (isProcessing st); [apply extends_refl |].
    apply sendTextMessage_extends.
  - destruct (is_empty (trim (inputText st)) || isProcessing st);
      [apply extends_refl | apply sendTextMessage_extends].
  - generalize (messages st) at 2. intros [| m ms]; apply extends_refl.
  - unfold toggleLanguage.
    repeat match goal with
           | |- context [if ?b then _ else _] => destruct b
           end; apply extends_refl.
  - apply extends_refl.
Qed.

Lemma app_step_extends st e :
  extends (messages (App.page st)) (messages (App.page (App.step st e))).
Proof.
  destruct e as [e | e]; cbn [App.step].
  - apply page_step_extends.
  - destruct (Recorder.step (isProcessing (App.page st))
                            (currentLanguage (App.page st),
                             conversationMode (App.page st))
                            (App.voice st) e)
      as [v [[[language mode] clip] |]]; cbn [App.page];
      [| apply extends_refl].
    unfold handleRecordingComplete. rewrite sendAudioMessage_messages.
    apply extends_refl.
Qed.

Lemma app_run_extends es :
  forall st, extends (messages (App.page st))
                     (messages (App.page (App.run st es))).
Proof.
  induction es as [| e es IH]; intros st; cbn [App.run fold_left].
  - apply extends_refl.
  - eapply extends_trans; [apply app_step_extends | apply IH].
Qed.

(** C2, as the specification states it, fails for audio: the clip of the
    voice turn is submitted and sent (under the language of the render
    in which the recording was started), the turn is pending, and the
    transcript is still empty. *)
Lemma voice_turn_no_echo :
  wire (App.page voice_turn)
  = [(0%nat,
      sq "{'type':'audio','data':'TWFu','language':'hinglish','conversationMode':'guidance_counselor'}")]
  /\ isProcessing (App.page voice_turn) = true
  /\ messages (App.page voice_turn) = [].
Proof. repeat split. Qed.

(** C2, amended.  A text submission that passes its guard appends the
    user message of the text at submit time, before anything is known
    of the send.  An audio submission appends nothing.  The transcript
    is append-only: whatever events follow, on the page or in the
    recorder, the messages so far stay in place and new ones come
    after.  So after a text submission the earlier transcript is
    followed by its user message, then by everything appended later,
    the response and the messages of later submissions included. *)
Theorem transcript_append_only :
  (forall (text : jsstring) (st : State) (i : nat),
      is_empty (trim text) = false -> socketRef st = Some i ->
      messages (sendTextMessage text st)
      = messages st ++ [userMessage text st])
  /\ (forall (language mode : jsstring) (clip : option Blob) (st : State),
         messages (sendAudioMessage language mode clip st) = messages st)
  /\ (forall (st : App.State) (es : list App.Event),
         exists new,
           messages (App.page (App.run st es))
           = messages (App.page st) ++ new)
  /\ (forall (text : jsstring) (st : App.State) (i : nat)
             (es : list App.Event),
         is_empty (trim text) = false ->
         socketRef (App.page st) = Some i ->
         exists later,
           messages
             (App.page
                (App.run {| App.page := sendTextMessage text (App.page st);
                            App.voice := App.voice st |} es))
           = messages (App.page st)
             ++ userMessage text (App.page st) :: later).
Proof.
  assert (Hecho : forall text st i,
             is_empty (trim text) = false -> socketRef st = Some i ->
             messages (sendTextMessage text st)
             = messages st ++ [userMessage text st]).
  { intros text st i Htext Href. unfold sendTextMessage.
    rewrite Htext, Href. destruct (open_socket _); reflexivity. }
  split; [exact Hecho |].
  split; [exact sendAudioMessage_messages |].
  split; [intros st es; apply app_run_extends |].
  intros text st i es Htext Href.
  destruct (app_run_extends es
              {| App.page := sendTextMessage text (App.page st);
                 App.voice := App.voice st |}) as [later Hlater].
  exists later. rewrite Hlater. cbn [App.page].
  rewrite (Hecho text (App.page st) i Htext Href), <- app_assoc.
  reflexivity.
Qed.

(** The scenario of the specification: hello is typed and submitted with
    the Enter key, and the server answers. *)
Lemma transcript_hello_hi_there :
  let st := {| App.page := setCurrentLanguage (lit "en") connected_page;
               App.voice := Recorder.initial (fun _ => true) |} in
  let reply :=
    sq "{'type':'text_response','response_text':'Hi there','detected_language':'en'}" in
  let st' :=
    App.run st [App.Page (Change (lit "hello")); App.Page EnterKey;
                App.Page (SocketMessage 0 reply)] in
  messages (sendTextMessage (lit "hello") (App.page st))
  = [userMessage (lit "hello") (App.page st)]
  /\ map (fun m => (type m, text m)) (messages (App.page st'))
     = [(user, Text (Some (JString (lit "hello"))));
        (ai, Text (Some (JString (lit "Hi there"))))]
  /\ isProcessing (App.page st') = false.
Proof.
  intros st reply st'. split; [| split; reflexivity].
  exact (proj1 transcript_append_only (lit "hello") (App.page st) 0%nat
               eq_refl eq_refl).
Defined.

End Transcript.

(** ** The connection *)
Module Connection.
Import JS Chat Scenario.
Import ListFacts Submission.

(** The close event of a socket that is not closed yet: what [step]
    does. *)
Lemma step_SocketClose st i failed r :
  readyState i st = Some r -> r <> CLOSED ->
  step st (SocketClose i failed)
  = onclose (if failed then onerror (set_readyState i CLOSED st)
             else set_readyState i CLOSED st).
Proof.
  intros Hr Hne. cbn [step]. rewrite Hr.
  destruct r; [reflexivity .. | contradiction].
Qed.

(** C3, as the specification states it, fails: the page's only call of
    [close()] is the cleanup, and the close event that follows it
    schedules the reconnection like any other; three seconds later a
    new socket is constructed and put in the ref. *)
Lemma close_does_not_suppress_reconnect :
  let st1 := step connected_page Unmounted in
  let st2 := step st1 (SocketClose 0 false) in
  let st3 := step (step st2 (Elapse 3000)) (TimerFires 0) in
  sockets st1 = [CLOSING]
  /\ timers st2 = [3000]
  /\ sockets st3 = [CLOSED; CONNECTING]
  /\ socketRef st3 = Some 1%nat.
Proof. repeat split. Qed.

(** C3, amended.  Whenever the close event of a socket fires, whatever
    made the socket close (the cleanup's [close()] included), the status
    becomes disconnected and exactly one reconnection is scheduled, due
    3000 ms later.  The timer cannot fire before it is due; when it
    fires, the URL being one the constructor accepts, the status
    becomes connecting, a new socket in the connecting state is put in
    the ref, and the timer is gone.  Nothing in the code suppresses
    this. *)
Theorem close_event_reconnects (st : State) (i : nat) (failed : bool)
        (r : ReadyState) :
  readyState i st = Some r -> r <> CLOSED -> wsUrlValid st = true ->
  let st1 := step st (SocketClose i failed) in
  let k := List.length (timers st) in
  connectionStatus st1 = disconnected
  /\ timers st1 = timers st ++ [clock st + 3000]
  /\ (forall ms, ms < 3000 ->
        step (step st1 (Elapse ms)) (TimerFires k) = step st1 (Elapse ms))
  /\ (forall ms, 3000 <= ms ->
        let st2 := step (step st1 (Elapse ms)) (TimerFires k) in
        connectionStatus st2 = connecting
        /\ timers st2 = timers st
        /\ sockets st2 = sockets st1 ++ [CONNECTING]
        /\ socketRef st2 = Some (List.length (sockets st1))).
Proof.
  intros Hr Hne Hurl st1 k.
  assert (Hst1 : st1 = onclose (if failed
                                then onerror (set_readyState i CLOSED st)
                                else set_readyState i CLOSED st))
    by (apply (step_SocketClose st i failed r Hr Hne)).
  assert (Htimers : timers st1 = timers st ++ [clock st + 3000])
    by (rewrite Hst1; destruct failed; reflexivity).
  assert (Hclock : clock st1 = clock st)
    by (rewrite Hst1; destruct failed; reflexivity).
  assert (Hvalid : wsUrlValid st1 = true)
    by (rewrite Hst1; destruct failed; exact Hurl).
  split; [rewrite Hst1; reflexivity |].
  split; [exact Htimers |].
  split.
  - intros ms Hms. cbn [step]. cbn [timers set_clock clock].
    rewrite Htimers, Hclock. subst k. rewrite nth_error_snoc.
    replace (clock st + 3000 <=? clock st + ms) with false
      by (symmetry; apply N.leb_gt; lia).
    reflexivity.
  - intros ms Hms. cbn zeta. cbn [step]. cbn [timers set_clock clock].
    rewrite Htimers, Hclock. subst k. rewrite nth_error_snoc.
    replace (clock st + 3000 <=? clock st + ms) with true
      by (symmetry; apply N.leb_le; lia).
    rewrite remove_nth_snoc. unfold connectWebSocket.
    cbn [wsUrlValid setConnectionStatus set_timers set_clock].
    rewrite Hvalid. repeat split.
Qed.

(** The socket of the connected page drops. *)
Lemma close_event_reconnects_connected :
  let st1 := step connected_page (SocketClose 0 true) in
  connectionStatus st1 = disconnected
  /\ timers st1 = [3000]
  /\ connectionStatus (step (step st1 (Elapse 3000)) (TimerFires 0))
     = connecting.
Proof.
  assert (Hne : OPEN <> CLOSED) by discriminate.
  destruct (close_event_reconnects connected_page 0 true OPEN
                                   eq_refl Hne eq_refl)
    as (Hstatus & Htimers & _ & Hdue).
  split; [exact Hstatus |]. split; [exact Htimers |].
  exact (proj1 (Hdue 3000 (N.le_refl 3000))).
Defined.

End Connection.

(** ** Stopping a capture *)
Module Capture.
Import JS Blob Recorder Scenario.
Import ListFacts.













Lemma started_reached :
  run false hinglish (initial (fun _ => true))
      [Mounted; MediaSettled 0 true []; Click; MediaSettled 0 true [128; 64]]
  = started.
Proof. reflexivity. Qed.

Lemma started_capturing : capturing started 0 started_recorder 3 5.
Proof. repeat split. exists 4%nat. split; reflexivity. Qed.


End Capture.

(** ** Further facts about lists and strings *)
Module Lists.
Import JS.

Lemma nth_error_replace_other {A : Type} (l : list A) (i j : nat) (x : A) :
  i <> j -> nth_error (replace_nth i x l) j = nth_error l j.
Proof.
  revert i j. induction l as [| z l IH]; intros [| i] [| j] Hne; cbn;
    try reflexivity; [contradiction | apply IH; congruence].
Qed.

Lemma length_remove_nth {A : Type} (l : list A) (k : nat) (x : A) :
  nth_error l k = Some x -> S (List.length (remove_nth k l)) = List.length l.
Proof.
  revert k. induction l as [| y l IH]; intros [| k] H; cbn in H;
    try discriminate; cbn [remove_nth List.length]; [reflexivity |].
  rewrite (IH k H). reflexivity.
Qed.

Lemma existsb_snoc {A : Type} (p : A -> bool) (l : list A) (x : A) :
  existsb p (l ++ [x]) = existsb p l || p x.
Proof. rewrite existsb_app. cbn. rewrite orb_false_r. reflexivity. Qed.

Lemma incl_remove_nth {A : Type} (k : nat) (l m : list A) :
  incl l m -> incl (remove_nth k l) m.
Proof.
  revert k. induction l as [| x l IH]; intros k H; [destruct k; exact H |].
  destruct k as [| k]; cbn [remove_nth].
  - intros y Hy. apply H. right. exact Hy.
  - intros y [<- | Hy]; [apply H; left; reflexivity |].
    apply (IH k); [| exact Hy]. intros z Hz. apply H. right. exact Hz.
Qed.

End Lists.

Module StringFacts.
Import JS.

Lemma jsstring_eqb_eq a : forall b, jsstring_eqb a b = true <-> a = b.
Proof.
  induction a as [| x a IH]; intros [| y b]; cbn; split; intros H;
    try reflexivity; try discriminate.
  - apply andb_true_iff in H as [Hx Ha]. apply N.eqb_eq in Hx.
    apply IH in Ha. congruence.
  - injection H as -> ->. rewrite N.eqb_refl. apply IH. reflexivity.
Qed.

Lemma jsstring_eqb_refl a : jsstring_eqb a a = true.
Proof. apply jsstring_eqb_eq. reflexivity. Qed.

End StringFacts.

(** ** Frames received *)
Module Reception.
Import JS JSON Blob Chat Scenario.

(** The message a response frame is turned into. *)
Lemma response_members kind text language audio engine :
  let message :=
    record_value [(lit "type", kind); (lit "response_text", text);
                  (lit "detected_language", language);
                  (lit "audio_response", audio); (lit "tts_engine", engine)] in
  get message (lit "type") = Some (JString kind)
  /\ get message (lit "response_text") = Some (JString text)
  /\ get message (lit "detected_language") = Some (JString language)
  /\ get message (lit "audio_response") = Some (JString audio)
  /\ get message (lit "tts_engine") = Some (JString engine).
Proof. repeat split. Qed.



End Reception.

(** ** The processing flag *)
Module Lock.
Import JS JSON Blob Chat Scenario History.



(** Handlers that leave the flag alone. *)
Lemma connectWebSocket_isProcessing st :
  isProcessing (connectWebSocket st) = isProcessing st.
Proof. unfold connectWebSocket. cbn. destruct (wsUrlValid st); reflexivity. Qed.

Lemma sendTextMessage_keeps_lock text st :
  isProcessing st = true -> isProcessing (sendTextMessage text st) = true.
Proof.
  intros H. unfold sendTextMessage.
  destruct (is_empty (trim text)); [exact H |].
  destruct (socketRef st); [| exact H].
  destruct (open_socket _); reflexivity.
Qed.

Lemma sendAudioMessage_keeps_lock language mode clip st :
  isProcessing st = true ->
  isProcessing (sendAudioMessage language mode clip st) = true.
Proof.
  intros H. unfold sendAudioMessage.
  destruct clip, (socketRef st); first [exact H | reflexivity].
Qed.

Lemma onloadend_isProcessing result language mode st :
  isProcessing (state_of (onloadend result language mode st))
  = isProcessing st.
Proof.
  unfold onloadend. destruct result; [| reflexivity].
  destruct (open_socket st); reflexivity.
Qed.

Lemma page_step_keeps_lock st e :
  (forall i data, e <> SocketMessage i data) ->
  isProcessing st = true -> isProcessing (step st e) = true.
Proof.
  intros Hframe H. destruct e; cbn [step].
  - rewrite connectWebSocket_isProcessing. exact H.
  - unfold cleanup, socket_close.
    destruct (socketRef st) as [i |]; [| exact H].
    destruct (readyState i st) as [[] |]; exact H.
  - destruct (readyState i st) as [[] |]; exact H.
  - destruct (readyState i st) as [[] |], failed; exact H.
  - contradiction (Hframe i data eq_refl).
  - destruct (nth_error (timers st) k) as [due |]; [| exact H].
    destruct (due <=? clock st); [| exact H].
    rewrite connectWebSocket_isProcessing. exact H.
  - exact H.
  - destruct (nth_error (readers st) k) as [r |]; [| exact H].
    rewrite onloadend_isProcessing. exact H.
  - rewrite H. exact H.
  - rewrite H. exact H.
  - rewrite H, orb_true_r. exact H.
  - destruct (messages st); exact H.
  - unfold toggleLanguage.
    repeat match goal with
           | |- context [if ?b then _ else _] => destruct b
           end; exact H.
  - exact H.
Qed.

Lemma app_step_keeps_lock st e :
  is_frame e = false ->
  isProcessing (App.page st) = true ->
  isProcessing (App.page (App.step st e)) = true.
Proof.
  intros Hframe H. destruct e as [e | e]; cbn [App.step].
  - cbn [App.page]. apply page_step_keeps_lock; [| exact H].
    intros i data ->. discriminate Hframe.
  - destruct (Recorder.step (isProcessing (App.page st))
                            (currentLanguage (App.page st),
                             conversationMode (App.page st))
                            (App.voice st) e)
      as [v [[[language mode] clip] |]]; cbn [App.page]; [| exact H].
    apply sendAudioMessage_keeps_lock. exact H.
Qed.

(** X3.  Once the processing flag is set, no event of the page or of the
    recorder other than the delivery of a frame clears it: it is still
    set after any sequence of such events (closes, reconnections, typing
    and submissions, recordings, timers). *)
Theorem lock_held_until_frame (st : App.State) (es : list App.Event) :
  isProcessing (App.page st) = true ->
  existsb is_frame es = false ->
  isProcessing (App.page (App.run st es)) = true.
Proof.
  revert st. induction es as [| e es IH]; intros st H Hes;
    cbn [App.run fold_left]; [exact H |].
  cbn [existsb] in Hes. apply orb_false_iff in Hes as [He Hes].
  apply IH; [| exact Hes]. apply app_step_keeps_lock; assumption.
Qed.

Lemma lock_held_across_reconnection :
  let st := {| App.page := pending_page;
               App.voice := Recorder.initial (fun _ => true) |} in
  let es := [App.Page (SocketClose 0 true); App.Page (Elapse 3000);
             App.Page (TimerFires 0); App.Page (SocketOpen 1);
             App.Page (Change (lit "anyone there?")); App.Page EnterKey] in
  connectionStatus (App.page (App.run st es)) = connected
  /\ inputText (App.page (App.run st es)) = []
  /\ isProcessing (App.page (App.run st es)) = true.
Proof.
  intros st es. split; [reflexivity |]. split; [reflexivity |].
  exact (lock_held_until_frame st es eq_refl eq_refl).
Defined.

End Lock.

(** ** Connection attempts *)
Module Reconnection.
Import JS JSON Blob Chat Scenario History.
Import ListFacts Lists.

Lemma live_replace_nth (l : list ReadyState) (i : nat) (r r0 : ReadyState) :
  nth_error l i = Some r0 ->
  (List.length (filter live (replace_nth i r l)) + (if live r0 then 1 else 0)
   = List.length (filter live l) + (if live r then 1 else 0))%nat.
Proof.
  revert i. induction l as [| z l IH]; intros [| i] H; cbn in H;
    try discriminate.
  - injection H as ->. cbn [replace_nth filter].
    destruct (live r), (live r0); cbn [List.length]; lia.
  - cbn [replace_nth filter]. specialize (IH i H).
    destruct (live z); cbn [List.length]; lia.
Qed.

Lemma live_snoc (l : list ReadyState) (r : ReadyState) :
  List.length (filter live (l ++ [r]))
  = (List.length (filter live l) + (if live r then 1 else 0))%nat.
Proof.
  rewrite filter_app, length_app. cbn [filter].
  destruct (live r); reflexivity.
Qed.

Lemma attempts_connectWebSocket st :
  attempts (connectWebSocket st) = S (attempts st).
Proof.
  unfold connectWebSocket, attempts.
  cbn [wsUrlValid setConnectionStatus].
  destruct (wsUrlValid st).
  - cbn [new_WebSocket setConnectionStatus sockets timers].
    rewrite live_snoc. cbn [live]. lia.
  - cbn [setTimeout_connect set_timers setConnectionStatus sockets timers].
    rewrite length_app. cbn [List.length]. lia.
Qed.

Lemma attempts_set_timers l st :
  attempts (set_timers l st)
  = (List.length (filter live (sockets st)) + List.length l)%nat.
Proof. reflexivity. Qed.

Lemma attempts_page_step st e :
  attempts (step st e)
  = (attempts st + match e with Mounted => 1 | _ => 0 end)%nat.
Proof.
  destruct e; cbn [step]; try (rewrite Nat.add_0_r).
  - rewrite attempts_connectWebSocket. lia.
  - unfold cleanup, socket_close.
    destruct (socketRef st) as [i |]; [| reflexivity].
    destruct (readyState i st) as [r |] eqn:Hr; [| reflexivity].
    unfold readyState in Hr.
    destruct r; try reflexivity; unfold attempts, set_readyState;
      cbn [set_sockets sockets timers];
      pose proof (live_replace_nth (sockets st) i CLOSING _ Hr) as H;
      cbn [live] in H; lia.
  - destruct (readyState i st) as [r |] eqn:Hr; [| reflexivity].
    unfold readyState in Hr.
    destruct r; try reflexivity. unfold attempts, onopen, set_readyState.
    cbn [setConnectionStatus set_sockets sockets timers].
    pose proof (live_replace_nth (sockets st) i OPEN _ Hr) as H.
    cbn [live] in H. lia.
  - destruct (readyState i st) as [r |] eqn:Hr; [| reflexivity].
    unfold readyState in Hr.
    destruct r; try reflexivity; unfold attempts, onclose, onerror,
      setTimeout_connect, set_readyState;
      destruct failed;
      cbn [setConnectionStatus set_timers set_sockets sockets timers];
      rewrite length_app; cbn [List.length];
      pose proof (live_replace_nth (sockets st) i CLOSED _ Hr) as H;
      cbn [live] in H; lia.
  - destruct (readyState i st) as [[] |]; try reflexivity.
    unfold handleSocketMessage.
    destruct (JSON_parse data) as [message |]; [| reflexivity].
    destruct message; cbn [state_of]; try reflexivity;
      repeat match goal with
             | |- context [if ?b then _ else _] => destruct b
             end; reflexivity.
  - destruct (nth_error (timers st) k) as [due |] eqn:Hk; [| reflexivity].
    destruct (due <=? clock st); [| reflexivity].
    rewrite attempts_connectWebSocket, attempts_set_timers.
    unfold attempts. pose proof (length_remove_nth _ _ _ Hk). lia.
  - reflexivity.
  - destruct (nth_error (readers st) k) as [r |]; [| reflexivity].
    unfold onloadend. destruct ok; [| reflexivity].
    destruct (open_socket _); reflexivity.
  - destruct (isProcessing st); reflexivity.
  - destruct (isProcessing st); [reflexivity |].
    unfold handleSubmit, sendTextMessage.
    destruct (is_empty (trim (inputText st))); [reflexivity |].
    destruct (socketRef st); [| reflexivity].
    destruct (open_socket _); reflexivity.
  - destruct (is_empty (trim (inputText st)) || isProcessing st);
      [reflexivity |].
    unfold handleSubmit, sendTextMessage.
    destruct (is_empty (trim (inputText st))); [reflexivity |].
    destruct (socketRef st); [| reflexivity].
    destruct (open_socket _); reflexivity.
  - destruct (messages st); reflexivity.
  - unfold toggleLanguage.
    repeat match goal with
           | |- context [if ?b then _ else _] => destruct b
           end; reflexivity.
  - reflexivity.
Qed.

Lemma attempts_sendAudioMessage language mode clip st :
  attempts (sendAudioMessage language mode clip st) = attempts st.
Proof.
  unfold sendAudioMessage. destruct clip, (socketRef st); reflexivity.
Qed.

Lemma attempts_app_step st e :
  attempts (App.page (App.step st e))
  = (attempts (App.page st) + if is_mount e then 1 else 0)%nat.
Proof.
  destruct e as [e | e]; cbn [App.step].
  - cbn [App.page]. rewrite attempts_page_step. destruct e; reflexivity.
  - cbn [is_mount]. rewrite Nat.add_0_r.
    destruct (Recorder.step (isProcessing (App.page st))
                            (currentLanguage (App.page st),
                             conversationMode (App.page st))
                            (App.voice st) e)
      as [v [[[language mode] clip] |]]; cbn [App.page]; [| reflexivity].
    apply attempts_sendAudioMessage.
Qed.

Lemma attempts_app_run es :
  forall st,
    attempts (App.page (App.run st es))
    = (attempts (App.page st) + mounts es)%nat.
Proof.
  induction es as [| e es IH]; intros st; cbn [App.run fold_left].
  - unfold mounts. cbn. lia.
  - change (fold_left App.step es (App.step st e))
      with (App.run (App.step st e) es).
    rewrite IH, attempts_app_step. unfold mounts. cbn [filter].
    destruct (is_mount e); cbn [List.length]; lia.
Qed.

Lemma no_live l :
  List.length (filter live l) = 0%nat ->
  forall i r, nth_error l i = Some r -> live r = false.
Proof.
  induction l as [| z l IH]; intros H [| i] r Hr; cbn in Hr;
    try discriminate.
  - injection Hr as <-. cbn [filter] in H.
    destruct (live z); [discriminate H | reflexivity].
  - apply (IH) with (i := i); [| exact Hr].
    cbn [filter] in H. destruct (live z); [discriminate H | exact H].
Qed.

Lemma ref_only_connectWebSocket st :
  List.length (filter live (sockets st)) = 0%nat ->
  ref_only st -> ref_only (connectWebSocket st).
Proof.
  intros Hnone Href. unfold connectWebSocket.
  cbn [wsUrlValid setConnectionStatus]. destruct (wsUrlValid st).
  - intros i r Hr Hlive. unfold readyState in Hr.
    cbn [new_WebSocket setConnectionStatus sockets socketRef] in *.
    destruct (Nat.lt_ge_cases i (List.length (sockets st))) as [Hlt | Hge].
    + rewrite nth_error_app1 in Hr by exact Hlt.
      rewrite (no_live _ Hnone i r Hr) in Hlive. discriminate Hlive.
    + rewrite nth_error_app2 in Hr by exact Hge.
      destruct (i - List.length (sockets st))%nat as [| d] eqn:Hd.
      * f_equal. lia.
      * cbn in Hr. destruct d; discriminate Hr.
  - exact Href.
Qed.

Lemma ref_only_replace st i r :
  ref_only st ->
  (live r = true -> socketRef st = Some i) ->
  ref_only (set_readyState i r st).
Proof.
  intros Href Hi j q Hq Hlive. unfold readyState, set_readyState in Hq.
  cbn [set_sockets sockets socketRef] in *.
  destruct (Nat.eq_dec i j) as [<- | Hne].
  - destruct (nth_error (sockets st) i) as [q0 |] eqn:Hold.
    + rewrite (nth_error_replace_nth _ _ r q0 Hold) in Hq.
      injection Hq as <-. exact (Hi Hlive).
    + apply nth_error_None in Hold.
      assert (Hlen : List.length (replace_nth i r (sockets st))
                     = List.length (sockets st)).
      { clear. generalize i. induction (sockets st) as [| z l IH];
          intros [| k]; cbn; try reflexivity. rewrite IH. reflexivity. }
      assert (nth_error (replace_nth i r (sockets st)) i = None)
        by (apply nth_error_None; lia).
      congruence.
  - rewrite nth_error_replace_other in Hq by exact Hne.
    exact (Href j q Hq Hlive).
Qed.

Lemma ref_only_page_step st e :
  (attempts st + match e with Mounted => 1 | _ => 0 end <= 1)%nat ->
  ref_only st -> ref_only (step st e).
Proof.
  intros Hone Href. destruct e; cbn [step]; try exact Href.
  - apply ref_only_connectWebSocket; [unfold attempts in Hone; lia | exact Href].
  - unfold cleanup, socket_close.
    destruct (socketRef st) as [i |] eqn:Hi; [| exact Href].
    destruct (readyState i st) as [[] |]; try exact Href;
      apply ref_only_replace; auto.
  - destruct (readyState i st) as [r |] eqn:Hr; [| exact Href].
    destruct r; try exact Href.
    unfold onopen. apply (ref_only_replace st i OPEN Href).
    intros _. exact (Href i CONNECTING Hr eq_refl).
  - destruct (readyState i st) as [r |] eqn:Hr; [| exact Href].
    assert (H : ref_only (set_readyState i CLOSED st))
      by (apply ref_only_replace; [exact Href | discriminate]).
    destruct r, failed; first [exact Href | exact H].
  - destruct (readyState i st) as [[] |]; try exact Href.
    unfold handleSocketMessage.
    destruct (JSON_parse data) as [message |]; [| exact Href].
    destruct message; cbn [state_of]; try exact Href;
      repeat match goal with
             | |- context [if ?b then _ else _] => destruct b
             end; exact Href.
  - destruct (nth_error (timers st) k) as [due |] eqn:Hk; [| exact Href].
    destruct (due <=? clock st); [| exact Href].
    apply ref_only_connectWebSocket; [| exact Href].
    cbn [set_timers sockets]. unfold attempts in Hone.
    pose proof (length_remove_nth _ _ _ Hk). lia.
  - destruct (nth_error (readers st) k) as [r |]; [| exact Href].
    unfold onloadend. destruct ok; [| exact Href].
    destruct (open_socket _); exact Href.
  - destruct (isProcessing st); exact Href.
  - destruct (isProcessing st); [exact Href |].
    unfold handleSubmit, sendTextMessage.
    destruct (is_empty (trim (inputText st))); [exact Href |].
    destruct (socketRef st) eqn:Hs; [| exact Href].
    destruct (open_socket _); intros j q Hq Hl; exact (Href j q Hq Hl).
  - destruct (is_empty (trim (inputText st)) || isProcessing st);
      [exact Href |].
    unfold handleSubmit, sendTextMessage.
    destruct (is_empty (trim (inputText st))); [exact Href |].
    destruct (socketRef st) eqn:Hs; [| exact Href].
    destruct (open_socket _); intros j q Hq Hl; exact (Href j q Hq Hl).
  - destruct (messages st); exact Href.
  - unfold toggleLanguage.
    repeat match goal with
           | |- context [if ?b then _ else _] => destruct b
           end; exact Href.
Qed.

Lemma ref_only_app_step st e :
  (attempts (App.page st) + (if is_mount e then 1 else 0) <= 1)%nat ->
  ref_only (App.page st) -> ref_only (App.page (App.step st e)).
Proof.
  intros Hone Href. destruct e as [e | e]; cbn [App.step].
  - cbn [App.page]. apply ref_only_page_step; [| exact Href].
    destruct e; exact Hone.
  - destruct (Recorder.step (isProcessing (App.page st))
                            (currentLanguage (App.page st),
                             conversationMode (App.page st))
                            (App.voice st) e)
      as [v [[[language mode] clip] |]]; cbn [App.page]; [| exact Href].
    unfold handleRecordingComplete, sendAudioMessage.
    destruct (socketRef (App.page st)) eqn:Hs; exact Href.
Qed.

Lemma ref_only_app_run es :
  forall st,
    (attempts (App.page st) + mounts es <= 1)%nat ->
    ref_only (App.page st) -> ref_only (App.page (App.run st es)).
Proof.
  induction es as [| e es IH]; intros st Hone Href;
    cbn [App.run fold_left]; [exact Href |].
  change (fold_left App.step es (App.step st e))
    with (App.run (App.step st e) es).
  assert (Hsplit : mounts (e :: es)
                   = ((if is_mount e then 1 else 0) + mounts es)%nat)
    by (unfold mounts; cbn [filter]; destruct (is_mount e); reflexivity).
  apply IH.
  - rewrite attempts_app_step. lia.
  - apply ref_only_app_step; [lia | exact Href].
Qed.

(** X4.  From the first render on, the connection attempts under way
    (the sockets not closed yet and the reconnections scheduled) are as
    many as the runs of the effect: a close event puts one scheduled
    reconnection in the place of its socket, a reconnection that fires
    puts one socket in its place.  While the effect ran at most once,
    every socket that is not closed is the one of the ref. *)
Theorem attempts_equal_mounts (wsUrlValid : bool)
        (isTypeSupported : jsstring -> bool) (es : list App.Event) :
  let st := App.page (App.run (App.initial wsUrlValid isTypeSupported) es) in
  attempts st = mounts es
  /\ ((mounts es <= 1)%nat ->
      forall i r, readyState i st = Some r -> live r = true ->
                  socketRef st = Some i).
Proof.
  intros st. split.
  - subst st. rewrite attempts_app_run. reflexivity.
  - intros Hone. apply ref_only_app_run; [exact Hone |].
    intros [| i] r Hr; discriminate Hr.
Qed.

Lemma attempts_after_remount :
  let es := [App.Page Mounted; App.Page (SocketOpen 0); App.Page Unmounted;
             App.Page (SocketClose 0 false); App.Page (Elapse 3000);
             App.Page (TimerFires 0)] in
  let st := App.page (App.run (App.initial true (fun _ => true)) es) in
  sockets st = [CLOSED; CONNECTING]
  /\ timers st = []
  /\ attempts st = 1%nat
  /\ socketRef st = Some 1%nat.
Proof.
  intros es st. split; [reflexivity |]. split; [reflexivity |].
  destruct (attempts_equal_mounts true (fun _ => true) es) as [Hcount Href].
  split; [exact Hcount |].
  exact (Href (Nat.le_refl 1) 1%nat CONNECTING eq_refl eq_refl).
Defined.

(** *** A URL the constructor rejects *)

Lemma unconnected_page_step st e : unconnected st -> unconnected (step st e).
Proof.
  destruct st as [ms input flag lang status mode ref socks sent tms rds now valid].
  unfold unconnected. cbn [wsUrlValid sockets socketRef connectionStatus wire
                            messages isProcessing readers].
  intros (-> & -> & -> & -> & -> & -> & -> & ->).
  destruct e; cbn [step]; unfold readyState; cbn [sockets timers readers];
    try (destruct i; cbn [nth_error]); try (repeat split; fail).
  - destruct (nth_error tms k) as [due |]; [| repeat split].
    cbn [clock]. destruct (due <=? now); repeat split.
  - destruct k; repeat split.
  - unfold handleSubmit, sendTextMessage. cbn [isProcessing inputText socketRef].
    destruct (is_empty (trim input)); repeat split.
  - unfold handleSubmit, sendTextMessage. cbn [isProcessing inputText socketRef].
    destruct (is_empty (trim input) || false);
      destruct (is_empty (trim input)); repeat split.
  - unfold toggleLanguage. cbn [currentLanguage].
    repeat match goal with
           | |- context [if ?b then _ else _] => destruct b
           end; repeat split.
Qed.

Lemma unconnected_app_run es :
  forall st, unconnected (App.page st) -> unconnected (App.page (App.run st es)).
Proof.
  induction es as [| e es IH]; intros st H; cbn [App.run fold_left];
    [exact H |].
  apply IH. destruct e as [e | e]; cbn [App.step].
  - apply unconnected_page_step. exact H.
  - destruct (Recorder.step (isProcessing (App.page st))
                            (currentLanguage (App.page st),
                             conversationMode (App.page st))
                            (App.voice st) e)
      as [v [[[language mode] clip] |]]; cbn [App.page]; [| exact H].
    unfold handleRecordingComplete, sendAudioMessage.
    pose proof H as (_ & _ & Href & _). rewrite Href. exact H.
Qed.

(** X5.  With a URL the [WebSocket] constructor rejects, no socket ever
    exists: the ref stays null and the status disconnected, one
    reconnection stays scheduled for each run of the effect (one that
    fires schedules the next), nothing is sent, nothing is appended to
    the transcript and the processing flag is never set. *)
Theorem rejected_url_never_connects (isTypeSupported : jsstring -> bool)
        (es : list App.Event) :
  let st := App.page (App.run (App.initial false isTypeSupported) es) in
  sockets st = [] /\ socketRef st = None
  /\ connectionStatus st = disconnected
  /\ List.length (timers st) = mounts es
  /\ wire st = [] /\ messages st = [] /\ isProcessing st = false.
Proof.
  intros st.
  assert (H : unconnected st)
    by (apply unconnected_app_run; repeat split).
  destruct H as (_ & Hsockets & Href & Hstatus & Hwire & Hmessages & Hflag & _).
  repeat split; try assumption.
  pose proof (attempts_app_run es (App.initial false isTypeSupported)) as Hn.
  fold st in Hn. unfold attempts in Hn. rewrite Hsockets in Hn. exact Hn.
Qed.

End Reconnection.

(** ** The language *)
Module Languages.
Import JS JSON Blob Chat Scenario Display.

Lemma toggleLanguage_codes st : In (currentLanguage (toggleLanguage st)) codes.
Proof.
  unfold toggleLanguage.
  repeat match goal with
         | |- context [if ?b then _ else _] => destruct b
         end; cbn; auto.
Qed.

Lemma coded_connectWebSocket st : coded st -> coded (connectWebSocket st).
Proof.
  unfold connectWebSocket. cbn [wsUrlValid setConnectionStatus].
  destruct (wsUrlValid st); intros H; exact H.
Qed.

Lemma coded_handleSocketMessage data st :
  coded st -> coded (state_of (handleSocketMessage data st)).
Proof.
  intros [Hl Hm]. unfold handleSocketMessage.
  destruct (JSON_parse data) as [message |]; [| split; assumption].
  destruct message; cbn [state_of]; try (split; assumption);
    repeat match goal with
           | |- context [if ?b then _ else _] => destruct b
           end;
    (split; [exact Hl |]); cbn [messages setIsProcessing setMessages];
    try exact Hm;
    (apply Forall_app; split; [exact Hm |]);
    (apply Forall_cons; [| apply Forall_nil]); intros Htype;
    discriminate Htype.
Qed.

Lemma coded_sendTextMessage text st :
  coded st -> coded (sendTextMessage text st).
Proof.
  intros [Hl Hm]. unfold sendTextMessage.
  destruct (is_empty (trim text)); [split; assumption |].
  destruct (socketRef st); [| split; assumption].
  assert (Hnew : Forall tagged (messages st ++ [userMessage text st])).
  { apply Forall_app. split; [exact Hm |].
    constructor; [| constructor]. intros _.
    exists (currentLanguage st). split; [exact Hl | reflexivity]. }
  destruct (open_socket _); (split; [exact Hl | exact Hnew]).
Qed.

Lemma coded_page_step st e : coded st -> coded (step st e).
Proof.
  intros H. destruct e; cbn [step]; try exact H.
  - apply coded_connectWebSocket. exact H.
  - unfold cleanup, socket_close.
    destruct (socketRef st) as [i |]; [| exact H].
    destruct (readyState i st) as [[] |]; exact H.
  - destruct (readyState i st) as [[] |]; exact H.
  - destruct (readyState i st) as [[] |], failed; exact H.
  - destruct (readyState i st) as [[] |]; try exact H.
    apply coded_handleSocketMessage. exact H.
  - destruct (nth_error (timers st) k) as [due |]; [| exact H].
    destruct (due <=? clock st); [| exact H].
    apply coded_connectWebSocket. exact H.
  - destruct (nth_error (readers st) k) as [r |]; [| exact H].
    unfold onloadend. destruct ok; [| exact H].
    destruct (open_socket _); exact H.
  - destruct (isProcessing st); exact H.
  - destruct (isProcessing st); [exact H |].
    apply coded_sendTextMessage. exact H.
  - destruct (is_empty (trim (inputText st)) || isProcessing st);
      [exact H | apply coded_sendTextMessage; exact H].
  - destruct (messages st); exact H.
  - destruct H as [_ Hm]. split; [apply toggleLanguage_codes |].
    unfold toggleLanguage.
    repeat match goal with
           | |- context [if ?b then _ else _] => destruct b
           end; exact Hm.
Qed.

Lemma coded_app_run es :
  forall st, coded (App.page st) -> coded (App.page (App.run st es)).
Proof.
  induction es as [| e es IH]; intros st H; cbn [App.run fold_left];
    [exact H |].
  apply IH. destruct e as [e | e]; cbn [App.step].
  - apply coded_page_step. exact H.
  - destruct (Recorder.step (isProcessing (App.page st))
                            (currentLanguage (App.page st),
                             conversationMode (App.page st))
                            (App.voice st) e)
      as [v [[[language mode] clip] |]]; cbn [App.page]; [| exact H].
    unfold handleRecordingComplete, sendAudioMessage.
    destruct (socketRef (App.page st)); exact H.
Qed.

(** X6.  From the first render on, the page's language is one of
    hinglish, hi and en: the toggle's table has an entry with that code,
    [getLanguageDisplayName] gives one of the three names, one click on
    the toggle changes the language and three clicks restore it; and
    every user message of the transcript carries one of the three
    codes. *)
Theorem language_among_codes (wsUrlValid : bool)
        (isTypeSupported : jsstring -> bool) (es : list App.Event) :
  let st := App.page (App.run (App.initial wsUrlValid isTypeSupported) es) in
  let l := currentLanguage st in
  In l [lit "hinglish"; lit "hi"; lit "en"]
  /\ option_map code (currentLangData l) = Some l
  /\ In (getLanguageDisplayName l)
        [lit "Hinglish"; [2361; 2367; 2306; 2342; 2368]; lit "English"]
  /\ jsstring_eqb (currentLanguage (toggleLanguage st)) l = false
  /\ currentLanguage (toggleLanguage (toggleLanguage (toggleLanguage st))) = l
  /\ Forall (fun m => type m = user ->
                      exists c, In c [lit "hinglish"; lit "hi"; lit "en"]
                                /\ language m = Some (JString c))
            (messages st).
Proof.
  intros st l.
  assert (H : coded st)
    by (apply coded_app_run; split; [left; reflexivity | constructor]).
  destruct H as [Hl Hm]. fold l in Hl.
  split; [exact Hl |].
  assert (Hcases : l = lit "hinglish" \/ l = lit "hi" \/ l = lit "en")
    by (destruct Hl as [<- | [<- | [<- | []]]]; auto).
  split; [| split; [| split; [| split]]].
  - destruct Hcases as [-> | [-> | ->]]; reflexivity.
  - destruct Hcases as [-> | [-> | ->]]; cbn; auto.
  - unfold toggleLanguage. fold l.
    destruct Hcases as [-> | [-> | ->]]; reflexivity.
  - unfold toggleLanguage. fold l.
    destruct Hcases as [-> | [-> | ->]]; reflexivity.
  - exact Hm.
Qed.

End Languages.

(** ** The settings *)
Module SettingsFacts.
Import JS JSON Chat Panel StringFacts.

Lemma member_In v l : member v l = true <-> In v l.
Proof.
  unfold member. rewrite existsb_exists. split.
  - intros (x & Hx & Heq). apply jsstring_eqb_eq in Heq. subst. exact Hx.
  - intros H. exists v. split; [exact H | apply jsstring_eqb_refl].
Qed.

Lemma page_step_conversationMode st e :
  (forall mode, e <> SettingsChange mode) ->
  Chat.conversationMode (Chat.step st e) = Chat.conversationMode st.
Proof.
  intros Hne. destruct e; cbn [Chat.step].
  - unfold connectWebSocket. cbn. destruct (wsUrlValid st); reflexivity.
  - unfold cleanup, socket_close.
    destruct (socketRef st) as [i |]; [| reflexivity].
    destruct (readyState i st) as [[] |]; reflexivity.
  - destruct (readyState i st) as [[] |]; reflexivity.
  - destruct (readyState i st) as [[] |], failed; reflexivity.
  - destruct (readyState i st) as [[] |]; try reflexivity.
    unfold handleSocketMessage.
    destruct (JSON_parse data) as [message |]; [| reflexivity].
    destruct message; cbn [state_of]; try reflexivity;
      repeat match goal with
             | |- context [if ?b then _ else _] => destruct b
             end; reflexivity.
  - destruct (nth_error (timers st) k) as [due |]; [| reflexivity].
    destruct (due <=? clock st); [| reflexivity].
    unfold connectWebSocket. cbn. destruct (wsUrlValid st); reflexivity.
  - reflexivity.
  - destruct (nth_error (readers st) k) as [r |]; [| reflexivity].
    unfold onloadend. destruct ok; [| reflexivity].
    destruct (open_socket _); reflexivity.
  - destruct (isProcessing st); reflexivity.
  - destruct (isProcessing st); [reflexivity |].
    unfold handleSubmit, sendTextMessage.
    destruct (is_empty (trim (inputText st))); [reflexivity |].
    destruct (socketRef st); [| reflexivity].
    destruct (open_socket _); reflexivity.
  - destruct (is_empty (trim (inputText st)) || isProcessing st);
      [reflexivity |].
    unfold handleSubmit, sendTextMessage.
    destruct (is_empty (trim (inputText st))); [reflexivity |].
    destruct (socketRef st); [| reflexivity].
    destruct (open_socket _); reflexivity.
  - destruct (messages st); reflexivity.
  - unfold toggleLanguage.
    repeat match goal with
           | |- context [if ?b then _ else _] => destruct b
           end; reflexivity.
  - exfalso. eapply Hne. reflexivity.
Qed.

Lemma within_updateSetting c s :
  offered c = true -> within s -> within (updateSetting c s).
Proof.
  intros Hc (H1 & H2 & H3 & H4 & H5 & H6 & H7).
  destruct c; cbn [offered] in Hc; unfold within; cbn [updateSetting
    Panel.ttsEngine Panel.conversationMode voiceModel voiceQuality hindiVoice
    englishVoice scriptDisplay]; repeat split; assumption.
Qed.

Lemma synced_step st e : synced st -> synced (Panel.step st e).
Proof.
  intros [Hmode Hwithin]. destruct e as [| c | | e]; cbn [Panel.step].
  - split; assumption.
  - destruct (showSettings st && offered c) eqn:Hc; [| split; assumption].
    apply andb_true_iff in Hc as [_ Hc].
    unfold onSettingsChange, synced. cbn [chat settings]. split.
    + destruct (jsstring_eqb _ _) eqn:Heq; [| reflexivity].
      apply jsstring_eqb_eq in Heq. congruence.
    + apply within_updateSetting; assumption.
  - destruct (showSettings st); split; assumption.
  - assert (Hkeep : forall e',
               (forall mode, e' <> SettingsChange mode) ->
               synced {| chat := Chat.step (chat st) e';
                         settings := settings st;
                         showSettings := showSettings st |}).
    { intros e' Hne. split; [| exact Hwithin]. cbn [chat settings].
      rewrite page_step_conversationMode by exact Hne. exact Hmode. }
    destruct e; try (apply Hkeep; discriminate). split; assumption.
Qed.

Lemma synced_run es : forall st, synced st -> synced (Panel.run st es).
Proof.
  induction es as [| e es IH]; intros st H; cbn [Panel.run fold_left];
    [exact H |].
  apply IH. apply synced_step. exact H.
Qed.

(** X7.  From the first render on, through any changes made in the
    settings panel, the page's conversation mode is the one of the
    settings object and is one of the four modes the panel offers, the
    script display is one of its three options, and a text submitted with
    the Enter key is sent with the mode of the settings.  The page with
    its panel refines the page alone (a change of the mode in the panel
    is the settings change of the page), and closing the panel by any of
    its buttons, Cancel included, keeps the changes made. *)
Theorem settings_reach_the_wire :
  (forall (wsUrlValid : bool) (es : list Panel.Event),
      let st := Panel.run (Panel.initial wsUrlValid) es in
      Chat.conversationMode (chat st) = Panel.conversationMode (settings st)
      /\ In (Panel.conversationMode (settings st))
            [lit "guidance_counselor"; lit "conversational"; lit "hinglish";
             lit "casual_chat"]
      /\ In (scriptDisplay (settings st))
            [lit "dual"; lit "devanagari"; lit "latin"]
      /\ (forall i,
             isProcessing (chat st) = false ->
             is_empty (trim (inputText (chat st))) = false ->
             open_socket (chat st) = Some i ->
             wire (chat (Panel.step st (Page EnterKey)))
             = wire (chat st)
               ++ [(i, JSON_stringify
                         [(lit "type", lit "text");
                          (lit "data", inputText (chat st));
                          (lit "language", currentLanguage (chat st));
                          (lit "conversationMode",
                           Panel.conversationMode (settings st))])]))
  /\ (forall (st : Panel.State) (e : Panel.Event),
         chat (Panel.step st e)
         = fold_left Chat.step (coarse st e) (chat st))
  /\ (forall (st : Panel.State) (c : Update),
         settings (Panel.step (Panel.step st (Changed c)) CloseClick)
         = settings (Panel.step st (Changed c))).
Proof.
  split; [| split].
  - intros valid es st.
    assert (H : synced st).
    { apply synced_run. split; [reflexivity |]. repeat split. }
    destruct H as [Hmode (_ & Hmodes & _ & _ & _ & _ & Hscript)].
    split; [exact Hmode |].
    split; [apply member_In; exact Hmodes |].
    split; [apply member_In; exact Hscript |].
    intros i Hflag Htext Hopen. cbn [Panel.step chat Chat.step].
    rewrite Hflag. unfold handleSubmit, sendTextMessage. rewrite Htext.
    rewrite (Submission.open_socket_ref _ _ Hopen).
    rewrite Submission.open_socket_after_echo, Hopen.
    cbn [send wire setIsProcessing setInputText setMessages].
    unfold text_envelope. rewrite Hmode. reflexivity.
  - intros st e. destruct e as [| c | | e]; cbn [Panel.step coarse].
    + reflexivity.
    + destruct c; cbn [coarse];
        try (destruct (showSettings st && offered _); cbn [fold_left chat];
             [unfold onSettingsChange; cbn [chat updateSetting
                Panel.conversationMode];
              rewrite jsstring_eqb_refl |]; reflexivity).
      destruct (showSettings st && offered (ConversationModeChange value));
        cbn [andb fold_left]; [| reflexivity].
      unfold onSettingsChange. cbn [chat updateSetting Panel.conversationMode].
      destruct (jsstring_eqb _ value); reflexivity.
    + destruct (showSettings st); reflexivity.
    + destruct e; reflexivity.
  - intros st c. cbn [Panel.step].
    destruct (showSettings st && offered c) eqn:Hc.
    + apply andb_true_iff in Hc as [Hshow _].
      unfold onSettingsChange. cbn [showSettings]. rewrite Hshow. reflexivity.
    + destruct (showSettings st); reflexivity.
Qed.

Lemma casual_reached :
  Panel.run (Panel.initial true) Cases.casual_history = Cases.casual.
Proof. reflexivity. Qed.

Lemma settings_reach_the_wire_casual :
  Panel.run (Panel.initial true) Cases.casual_history = Cases.casual
  /\ wire (chat (Panel.step Cases.casual (Page EnterKey)))
     = [(0%nat,
         sq "{'type':'text','data':'hello','language':'hinglish','conversationMode':'casual_chat'}")].
Proof.
  split; [exact casual_reached |].
  destruct (proj1 settings_reach_the_wire true Cases.casual_history)
    as (_ & _ & _ & Hwire).
  rewrite casual_reached in Hwire.
  exact (Hwire 0%nat eq_refl eq_refl eq_refl).
Defined.

End SettingsFacts.

(** ** The audio button *)
Module Muting.
Import JS JSON Chat Playback.

Section Platform.
Variable number_truthy : jsstring -> bool.

Lemma run_calls es :
  forall st,
    handler_audioEnabled st = Some true ->
    existsb is_effect es = false ->
    calls (run number_truthy st es)
    = calls st ++ flat_map (audio_of number_truthy) es.
Proof.
  induction es as [| e es IH]; intros st H Hes; cbn [run fold_left flat_map].
  - symmetry. apply app_nil_r.
  - cbn [existsb] in Hes. apply orb_false_iff in Hes as [He Hes].
    change (fold_left (step number_truthy) es (step number_truthy st e))
      with (run number_truthy (step number_truthy st e) es).
    destruct e; try discriminate He; cbn [step audio_of].
    + rewrite IH; [reflexivity | exact H | exact Hes].
    + rewrite H. destruct (autoplay number_truthy true data) as [audio |].
      * rewrite IH; [| reflexivity | exact Hes]. cbn [calls].
        rewrite <- app_assoc. reflexivity.
      * rewrite IH; [reflexivity | exact H | exact Hes].
Qed.

Lemma run_audioEnabled es :
  forall st,
    audioEnabled (run number_truthy st es)
    = if Nat.even (List.length (filter is_click es))
      then audioEnabled st else negb (audioEnabled st).
Proof.
  induction es as [| e es IH]; intros st; cbn [run fold_left filter].
  - reflexivity.
  - change (fold_left (step number_truthy) es (step number_truthy st e))
      with (run number_truthy (step number_truthy st e) es).
    rewrite IH. destruct e; cbn [is_click step audioEnabled].
    + reflexivity.
    + cbn [List.length]. rewrite Nat.even_succ, <- Nat.negb_even.
      destruct (Nat.even _), (audioEnabled st); reflexivity.
    + destruct (handler_audioEnabled st) as [enabled |]; [| reflexivity].
      destruct (autoplay number_truthy enabled data); reflexivity.
Qed.

End Platform.

(** X8.  The message handler of the sockets is made by the effect of the
    first render and keeps that render's [audioEnabled], which is true:
    after the effect has run, the calls of [playAudioResponse] are the
    audios of the response frames received, in order, whatever clicks on
    the audio button come in between, while the button's own state
    follows the parity of the clicks. *)
Theorem audio_button_never_mutes (number_truthy : jsstring -> bool)
        (es : list Event) :
  existsb is_effect es = false ->
  let st := run number_truthy (step number_truthy initial Mounted) es in
  calls st = flat_map (audio_of number_truthy) es
  /\ calls st
     = calls (run number_truthy (step number_truthy initial Mounted)
                  (filter (fun e => negb (is_click e)) es))
  /\ audioEnabled st = Nat.even (List.length (filter is_click es)).
Proof.
  intros Hes st.
  assert (Hcalls : calls st = flat_map (audio_of number_truthy) es)
    by (apply (run_calls number_truthy es
                 (step number_truthy initial Mounted) eq_refl Hes)).
  split; [exact Hcalls |]. split.
  - rewrite Hcalls.
    rewrite (run_calls number_truthy _
               (step number_truthy initial Mounted) eq_refl).
    + cbn [calls step initial app]. clear.
      induction es as [| e es IH]; [reflexivity |].
      destruct e; cbn [filter is_click negb flat_map audio_of app];
        rewrite IH; reflexivity.
    + clear - Hes. induction es as [| e es IH]; [reflexivity |].
      cbn [existsb] in Hes. apply orb_false_iff in Hes as [He Hes].
      destruct e; cbn [filter is_click negb existsb]; try rewrite He;
        auto.
  - subst st. rewrite run_audioEnabled. cbn [step initial audioEnabled].
    destruct (Nat.even _); reflexivity.
Qed.

Lemma audio_button_never_mutes_off :
  let reply :=
    sq "{'type':'audio_response','response_text':'Hi','audio_response':'UklGRg=='}" in
  let st := run (fun _ => true) (step (fun _ => true) initial Mounted)
              [AudioClick; Frame reply] in
  audioEnabled st = false
  /\ calls st = [JString (lit "UklGRg==")].
Proof.
  intros reply st.
  destruct (audio_button_never_mutes (fun _ => true) [AudioClick; Frame reply]
              eq_refl) as (Hcalls & _ & Hflag).
  split; [exact Hflag | exact Hcalls].
Defined.

End Muting.

(** ** A voice turn, from the click to the frame *)
Module VoiceTurn.
Import JS JSON Blob Chat Scenario.
Import ListFacts.

(** Each type of the preference list is kept as it is by a blob, and has
    no comma. *)
Lemma types_no_comma t :
  In t Recorder.types -> normalize_type t = t /\ ~ In 44 t.
Proof.
  intros [<- | [<- | [<- | [<- | []]]]];
    (split; [reflexivity |]); vm_compute; intuition discriminate.
Qed.

(** X9.  When the read of a clip fails, or it ends while the socket of
    the ref is not open, the clip is dropped: the read is removed and
    the page is otherwise unchanged, so nothing is sent, no message is
    appended and the processing flag, set when the read was started,
    stays set. *)
Theorem audio_read_lost (st : State) (k : nat) (r : PendingRead) (ok : bool) :
  nth_error (readers st) k = Some r ->
  ok = false \/ open_socket st = None ->
  step st (ReaderLoadEnd k ok) = set_readers (remove_nth k (readers st)) st.
Proof.
  intros Hk Hlost. cbn [step]. rewrite Hk. unfold onloadend.
  destruct Hlost as [-> | Hclosed]; [reflexivity |].
  change (open_socket (set_readers (remove_nth k (readers st)) st))
    with (open_socket st).
  rewrite Hclosed. destruct ok; reflexivity.
Qed.

Lemma audio_read_lost_dropped :
  let st := sendAudioMessage (lit "hi") (lit "guidance_counselor")
              (Some sample_clip) connected_page in
  let st' := step (step st (SocketClose 0 false)) (ReaderLoadEnd 0 true) in
  List.length (readers st) = 1%nat
  /\ readers st' = [] /\ wire st' = [] /\ messages st' = []
  /\ isProcessing st' = true.
Proof.
  intros st st'. split; [reflexivity |].
  subst st'.
  rewrite (audio_read_lost (step st (SocketClose 0 false)) 0
             {| read_blob := sample_clip; read_language := lit "hi";
                read_conversationMode := lit "guidance_counselor" |} true
             eq_refl (or_intror eq_refl)).
  repeat split.
Defined.

(** X10.  The path of a voice turn.  A click on the idle recorder asks
    for the microphone with the callback of that render, which holds the
    page's language and conversation mode at the click; the capture that
    starts builds a recorder with that callback and a type of the
    preference list; its stop event starts a read of the clip for that
    language and mode and sets the processing flag, appending no
    message; and the read that ends with the socket open sends one audio
    frame with the base64 text of the chunks' bytes, that language and
    that mode. *)
Theorem voice_frame_of_capture :
  (forall st : App.State,
      isProcessing (App.page st) = false ->
      Recorder.hasPermission (App.voice st) = Some true ->
      Recorder.isRecording (App.voice st) = false ->
      Recorder.pending (App.voice (App.step st (App.Voice Recorder.Click)))
      = Recorder.pending (App.voice st)
        ++ [Recorder.CaptureRequest (currentLanguage (App.page st),
                                     conversationMode (App.page st))])
  /\ (forall (st : App.State) (k : nat) (callback : Recorder.Callback)
             (dataArray : list N),
         nth_error (Recorder.pending (App.voice st)) k
         = Some (Recorder.CaptureRequest callback) ->
         Recorder.isTypeSupported (App.voice st)
           (Recorder.getSupportedMimeType
              (Recorder.isTypeSupported (App.voice st))) = true ->
         let v := App.voice
                    (App.step st
                       (App.Voice (Recorder.MediaSettled k true dataArray))) in
         exists m,
           Recorder.mediaRecorderRef v
           = Some (List.length (Recorder.recorders (App.voice st)))
           /\ Recorder.recorder
                (List.length (Recorder.recorders (App.voice st))) v = Some m
           /\ Recorder.rec_onRecordingComplete m = callback
           /\ Recorder.rec_state m = Recorder.recording
           /\ In (Recorder.rec_mimeType m) Recorder.types)
  /\ (forall (st : App.State) (r i : nat) (m : Recorder.MediaRecorder),
         Recorder.recorder r (App.voice st) = Some m ->
         Recorder.rec_state m = Recorder.recording
         \/ Recorder.rec_stop_due m = true ->
         socketRef (App.page st) = Some i ->
         let clip := new_Blob (Recorder.audioChunksRef (App.voice st))
                              (Recorder.rec_mimeType m) in
         let st' := App.page (App.step st (App.Voice (Recorder.Stopped r))) in
         readers st'
         = readers (App.page st)
           ++ [{| read_blob := clip;
                  read_language := fst (Recorder.rec_onRecordingComplete m);
                  read_conversationMode :=
                    snd (Recorder.rec_onRecordingComplete m) |}]
         /\ isProcessing st' = true
         /\ messages st' = messages (App.page st)
         /\ wire st' = wire (App.page st))
  /\ (forall (st : State) (k i : nat) (chunks : list Blob)
             (mimeType language mode : jsstring),
         nth_error (readers st) k
         = Some {| read_blob := new_Blob chunks mimeType;
                   read_language := language;
                   read_conversationMode := mode |} ->
         In mimeType Recorder.types ->
         open_socket st = Some i ->
         wire (step st (ReaderLoadEnd k true))
         = wire st
           ++ [(i, JSON_stringify
                     [(lit "type", lit "audio");
                      (lit "data",
                       base64 (List.concat (map blob_bytes chunks)));
                      (lit "language", language);
                      (lit "conversationMode", mode)])]).
Proof.
  split; [| split; [| split]].
  - intros [p v] Hflag Hperm Hrec. cbn [App.page App.voice] in *.
    cbn [App.step App.page App.voice Recorder.step].
    unfold Recorder.click, Recorder.startRecording.
    rewrite Hflag, Hperm, Hrec. reflexivity.
  - intros [p v] k callback dataArray Hk Hsupported.
    cbn [App.page App.voice] in *.
    cbn [App.step App.page App.voice Recorder.step]. rewrite Hk.
    cbn [App.voice]. unfold Recorder.capture_settled.
    cbn [Recorder.isTypeSupported Recorder.updateAudioLevel
         Recorder.requestAnimationFrame Recorder.setAudioLevel
         Recorder.set_analyserRef Recorder.set_audioContextRef
         Recorder.set_fresh Recorder.set_animationFrameRef
         Recorder.set_frames Recorder.set_pending Recorder.recorders].
    rewrite Hsupported.
    eexists. unfold Recorder.recorder.
    cbn [Recorder.setInterval Recorder.setIsRecording
         Recorder.set_audioChunksRef Recorder.set_mediaRecorderRef
         Recorder.set_recorders Recorder.set_intervalRef
         Recorder.set_intervals Recorder.set_fresh
         Recorder.mediaRecorderRef Recorder.recorders].
    split; [reflexivity |]. split; [apply nth_error_snoc |].
    split; [reflexivity |]. split; [reflexivity |].
    cbn [Recorder.rec_mimeType].
    destruct (Codec.first_supported_range (Recorder.isTypeSupported v)
                Recorder.types (lit "audio/webm")) as [H | H];
      [| exact H].
    unfold Recorder.getSupportedMimeType. rewrite <- H.
    right. left. reflexivity.
  - intros [p v] r i m Hr Hlive Href clip st'.
    cbn [App.page App.voice] in *.
    assert (Hstep : snd (Recorder.step (isProcessing p)
                           (currentLanguage p, conversationMode p) v
                           (Recorder.Stopped r))
                    = Some (Recorder.rec_onRecordingComplete m, clip)).
    { cbn [Recorder.step]. rewrite Hr.
      destruct Hlive as [Hlive | Hlive]; rewrite Hlive;
        [| destruct (Recorder.rec_state m)]; reflexivity. }
    subst st'. cbn [App.step App.page App.voice].
    destruct (Recorder.step (isProcessing p)
                (currentLanguage p, conversationMode p) v
                (Recorder.Stopped r)) as [v' called].
    cbn [snd] in Hstep. subst called.
    destruct (Recorder.rec_onRecordingComplete m) as [language mode].
    cbn [App.page fst snd].
    unfold handleRecordingComplete, sendAudioMessage. rewrite Href.
    repeat split.
  - intros st k i chunks mimeType language mode Hk Htype Hopen.
    cbn [step]. rewrite Hk. unfold onloadend.
    cbn [read_blob read_language read_conversationMode].
    change (open_socket (set_readers (remove_nth k (readers st)) st))
      with (open_socket st).
    rewrite Hopen. cbn [state_of send wire set_readers].
    destruct (types_no_comma mimeType Htype) as [Hkeep Hcomma].
    rewrite BlobFacts.data_url_split
      by (cbn [new_Blob blob_type]; rewrite Hkeep; exact Hcomma).
    reflexivity.
Qed.

Lemma voice_frame_after_toggle :
  let st0 := App.run (App.initial true (fun _ => true))
               [App.Page Mounted; App.Page (SocketOpen 0);
                App.Voice Recorder.Mounted;
                App.Voice (Recorder.MediaSettled 0 true [])] in
  let st1 := App.run st0
               [App.Voice Recorder.Click;
                App.Voice (Recorder.MediaSettled 0 true [128; 64]);
                App.Page LanguageClick;
                App.Voice Recorder.Click;
                App.Voice (Recorder.DataAvailable 0
                             {| blob_bytes := [Byte.x4d; Byte.x61; Byte.x6e];
                                blob_type := [] |})] in
  let st2 := App.step st1 (App.Voice (Recorder.Stopped 0)) in
  currentLanguage (App.page st1) = lit "hi"
  /\ Recorder.pending (App.voice (App.step st0 (App.Voice Recorder.Click)))
     = [Recorder.CaptureRequest (lit "hinglish", lit "guidance_counselor")]
  /\ map read_language (readers (App.page st2)) = [lit "hinglish"]
  /\ wire (step (App.page st2) (ReaderLoadEnd 0 true))
     = [(0%nat,
         sq "{'type':'audio','data':'TWFu','language':'hinglish','conversationMode':'guidance_counselor'}")].
Proof.
  intros st0 st1 st2.
  destruct voice_frame_of_capture as (Hclick & _ & Hstop & Hread).
  split; [reflexivity |].
  split; [exact (Hclick st0 eq_refl eq_refl eq_refl) |].
  split.
  - subst st2.
    rewrite (proj1 (Hstop st1 0%nat 0%nat
                      {| Recorder.rec_stream := 2;
                         Recorder.rec_mimeType := lit "audio/webm;codecs=opus";
                         Recorder.rec_onRecordingComplete := hinglish;
                         Recorder.rec_state := Recorder.inactive;
                         Recorder.rec_stop_due := true |}
                      eq_refl (or_intror eq_refl) eq_refl)).
    reflexivity.
  - rewrite (Hread (App.page st2) 0%nat 0%nat
               [{| blob_bytes := [Byte.x4d; Byte.x61; Byte.x6e];
                   blob_type := [] |}]
               (lit "audio/webm;codecs=opus") (lit "hinglish")
               (lit "guidance_counselor") eq_refl
               (or_introl eq_refl) eq_refl).
    reflexivity.
Defined.

End VoiceTurn.

(** ** The recording time *)
Module Timer.
Import JS Blob Recorder Scenario Measures.

Lemma ambient_step_clock disabled callback st e :
  ambient e = true ->
  let st' := fst (step disabled callback st e) in
  recordingTime st' = recordingTime st + ticks (intervals st) [e]
  /\ intervals st' = intervals st.
Proof.
  intros Hamb. destruct e; try discriminate; cbn [step]; unfold ticks;
    cbn [filter].
  - destruct (mem h (frames st)); cbn; rewrite N.add_0_r; split; reflexivity.
  - destruct (mem h (intervals st)); cbn; [| rewrite N.add_0_r];
      split; reflexivity.
  - cbn [List.length N.of_nat]. rewrite N.add_0_r.
    destruct (recorder r st) as [m |]; [| split; reflexivity].
    unfold ondataavailable.
    destruct (rec_state m), (rec_stop_due m), (Nat.ltb 0 (size data));
      split; reflexivity.
Qed.

(** X11.  Through animation frames, interval ticks and data events, the
    recording time grows by one for each tick of an interval that is
    still set, and by nothing else; ticks of intervals that were cleared
    do not count, and the set of intervals is unchanged. *)
Theorem clock_counts_ticks (disabled : bool) (callback : Callback)
        (es : list Event) (st : State) :
  forallb ambient es = true ->
  recordingTime (run disabled callback st es)
  = recordingTime st + ticks (intervals st) es
  /\ intervals (run disabled callback st es) = intervals st.
Proof.
  revert st. induction es as [| e es IH]; intros st Hes.
  - unfold ticks. cbn. rewrite N.add_0_r. split; reflexivity.
  - cbn [forallb] in Hes. apply andb_true_iff in Hes as [He Hes].
    destruct (ambient_step_clock disabled callback st e He) as [Hclock Hsame].
    unfold run in *. cbn [fold_left].
    destruct (IH (fst (step disabled callback st e)) Hes) as [Hclock' Hsame'].
    rewrite Hclock', Hsame', Hclock, Hsame. split; [| reflexivity].
    unfold ticks. cbn [filter].
    destruct e; try discriminate; cbn [List.length];
      try (cbn; lia).
    destruct (mem h (intervals st)); cbn [List.length]; lia.
Qed.

Lemma clock_counts_ticks_started :
  let es := [IntervalTick 5; AnimationFrame 4 [10; 20]; IntervalTick 5;
             IntervalTick 7;
             DataAvailable 0 {| blob_bytes := [Byte.x4d]; blob_type := [] |};
             IntervalTick 5] in
  recordingTime (run false hinglish started es) = 3.
Proof.
  intros es.
  rewrite (proj1 (clock_counts_ticks false hinglish es started eq_refl)).
  reflexivity.
Defined.

End Timer.

(** ** A platform without a supported type *)
Module Unsupported.
Import JS Blob Recorder Scenario Measures Lists.

Lemma unsupported_fallback f :
  unsupported f -> f (getSupportedMimeType f) = false.
Proof.
  intros H. unfold getSupportedMimeType.
  rewrite (Negotiation.first_supported_none f types (lit "audio/webm") H).
  apply H. right. left. reflexivity.
Qed.

(** One turn of an idle recorder on such a platform. *)
Lemma idle_step disabled callback st e :
  unsupported (isTypeSupported st) -> idle st ->
  let st' := fst (step disabled callback st e) in
  idle st'
  /\ isTypeSupported st' = isTypeSupported st
  /\ snd (step disabled callback st e) = None
  /\ (fresh st <= fresh st')%nat
  /\ forall s, (s < fresh st)%nat ->
                existsb (stops s) (effects st') = existsb (stops s) (effects st).
Proof.
  intros Hf (Hrec & Hflag & Hint & Hsess & Hstops).
  pose proof (unsupported_fallback _ Hf) as Hfallback.
  assert (Hsame : forall st',
             st' = st ->
             idle st'
             /\ isTypeSupported st' = isTypeSupported st
             /\ (None : option (Callback * Blob)) = None
             /\ (fresh st <= fresh st')%nat
             /\ forall s, (s < fresh st)%nat ->
                           existsb (stops s) (effects st')
                           = existsb (stops s) (effects st)).
  { intros st' ->. repeat split; auto. }
  assert (Hlog : forall (e : Effect) (st1 : State),
             recorders st1 = [] -> isRecording st1 = false ->
             intervalRef st1 = None -> effects st1 = effects st ->
             isTypeSupported st1 = isTypeSupported st ->
             (fresh st <= fresh st1)%nat ->
             of_session e = false ->
             (forall s, stops s e = true -> (fresh st <= s < fresh st1)%nat) ->
             idle (log e st1)
             /\ isTypeSupported (log e st1) = isTypeSupported st
             /\ (None : option (Callback * Blob)) = None
             /\ (fresh st <= fresh (log e st1))%nat
             /\ forall s, (s < fresh st)%nat ->
                           existsb (stops s) (effects (log e st1))
                           = existsb (stops s) (effects st)).
  { intros e0 st1 H1 H2 H3 H4 H5 H6 H7 H8. unfold idle, log.
    cbn [set_effects recorders isRecording intervalRef effects fresh
         isTypeSupported].
    rewrite H4. repeat split; auto.
    - rewrite existsb_snoc, Hsess, H7. reflexivity.
    - intros s. rewrite existsb_snoc. intros H.
      apply orb_true_iff in H as [H | H].
      + apply Hstops in H. lia.
      + apply H8 in H. lia.
    - intros s Hs. rewrite existsb_snoc.
      destruct (stops s e0) eqn:Hse; [| apply orb_false_r].
      apply H8 in Hse. lia. }
  destruct e; cbn [step fst snd].
  - repeat split; auto.
  - unfold unmount.
    destruct (animationFrameRef st) as [h |]; cbn [when_set].
    + unfold cancelAnimationFrame.
      cbn [log set_effects set_frames intervalRef]. rewrite Hint.
      cbn [when_set].
      apply (Hlog (CancelAnimationFrame h)); try assumption;
        try reflexivity; try lia.
      intros s H. discriminate H.
    + rewrite Hint. apply Hsame. reflexivity.
  - unfold click. destruct disabled; [apply Hsame; reflexivity |].
    destruct (hasPermission st) as [[] |] eqn:Hp;
      try (apply Hsame; reflexivity).
    + rewrite Hflag. unfold startRecording. rewrite Hp.
      repeat split; auto.
    + repeat split; auto.
  - destruct (nth_error (pending st) k) as [[| cb] |];
      cbn [fst snd]; [| | apply Hsame; reflexivity].
    + unfold permission_settled. destruct granted.
      * apply (Hlog (TrackStop (fresh st))); try assumption;
          try reflexivity;
          cbn [setHasPermission set_fresh set_pending fresh]; try lia.
        intros s H. apply Nat.eqb_eq in H. lia.
      * repeat split; auto.
    + unfold capture_settled. destruct granted.
      * cbn [isTypeSupported updateAudioLevel requestAnimationFrame
             setAudioLevel set_analyserRef set_audioContextRef set_fresh
             set_animationFrameRef set_frames set_pending].
        rewrite Hfallback.
        apply (Hlog Alert); try assumption; try reflexivity;
          cbn [fresh set_animationFrameRef set_frames set_fresh setAudioLevel
               set_analyserRef set_audioContextRef set_pending
               updateAudioLevel requestAnimationFrame]; try lia.
        intros s H. discriminate H.
      * apply (Hlog Alert); try assumption; try reflexivity; try lia.
        intros s H. discriminate H.
  - destruct (mem h (frames st)); cbn [fst snd]; [| apply Hsame; reflexivity].
    unfold idle.
    cbn [updateAudioLevel requestAnimationFrame setAudioLevel set_frames
         set_animationFrameRef set_fresh recorders isRecording intervalRef
         effects fresh isTypeSupported].
    repeat split; auto. intros s H. apply Hstops in H. lia.
  - destruct (mem h (intervals st)); cbn [fst snd]; repeat split; auto.
  - unfold recorder. rewrite Hrec. destruct r; apply Hsame; reflexivity.
  - unfold recorder. rewrite Hrec. destruct r; apply Hsame; reflexivity.
Qed.

Lemma idle_app_step st e :
  unsupported (isTypeSupported (App.voice st)) -> idle (App.voice st) ->
  let st' := App.step st e in
  idle (App.voice st')
  /\ isTypeSupported (App.voice st') = isTypeSupported (App.voice st)
  /\ (fresh (App.voice st) <= fresh (App.voice st'))%nat
  /\ forall s, (s < fresh (App.voice st))%nat ->
                existsb (stops s) (effects (App.voice st'))
                = existsb (stops s) (effects (App.voice st)).
Proof.
  intros Hf Hidle. destruct e as [e | e]; cbn [App.step].
  - cbn [App.voice]. split; [exact Hidle |]. repeat split; auto.
  - pose proof (idle_step (Chat.isProcessing (App.page st))
                  (Chat.currentLanguage (App.page st),
                   Chat.conversationMode (App.page st))
                  (App.voice st) e Hf Hidle) as H.
    cbn zeta in H.
    destruct (step _ _ (App.voice st) e) as [v called].
    cbn [fst snd] in H. destruct H as (H1 & H2 & -> & H4 & H5).
    cbn [App.voice]. split; [exact H1 |]. repeat split; auto.
Qed.

Lemma idle_app_run es :
  forall st,
    unsupported (isTypeSupported (App.voice st)) -> idle (App.voice st) ->
    let st' := App.run st es in
    idle (App.voice st')
    /\ isTypeSupported (App.voice st') = isTypeSupported (App.voice st)
    /\ (fresh (App.voice st) <= fresh (App.voice st'))%nat
    /\ forall s, (s < fresh (App.voice st))%nat ->
                  existsb (stops s) (effects (App.voice st'))
                  = existsb (stops s) (effects (App.voice st)).
Proof.
  induction es as [| e es IH]; intros st Hf Hidle; cbn [App.run fold_left].
  - split; [exact Hidle |]. repeat split; auto.
  - destruct (idle_app_step st e Hf Hidle) as (H1 & H2 & H3 & H4).
    assert (Hf' : unsupported (isTypeSupported (App.voice (App.step st e))))
      by (rewrite H2; exact Hf).
    destruct (IH (App.step st e) Hf' H1) as (K1 & K2 & K3 & K4).
    cbn zeta in *. unfold App.run in *.
    split; [exact K1 |]. split; [congruence |]. split; [lia |].
    intros s Hs. rewrite K4 by lia. apply H4. exact Hs.
Qed.

(** X12.  On a platform that supports none of the four types of the
    preference list no recorder is ever made and the component never
    records: a capture that is granted ends in the alert of the catch
    block, after the audio context was made and the level monitoring
    started, and the stream it was given is never stopped by anything
    that happens later. *)
Theorem unsupported_types_never_record
        (isTypeSupported : jsstring -> bool) (wsUrlValid : bool)
        (es : list App.Event) :
  (forall t, In t types -> isTypeSupported t = false) ->
  let st := App.run (App.initial wsUrlValid isTypeSupported) es in
  let v := App.voice st in
  recorders v = [] /\ isRecording v = false
  /\ existsb of_session (effects v) = false
  /\ forall k callback dataArray later,
       nth_error (pending v) k = Some (CaptureRequest callback) ->
       let st1 := App.step st (App.Voice (MediaSettled k true dataArray)) in
       effects (App.voice st1) = effects v ++ [Alert]
       /\ audioContextRef (App.voice st1) = Some (S (fresh v))
       /\ frames (App.voice st1) = frames v ++ [S (S (fresh v))]
       /\ existsb (stops (fresh v)) (effects (App.voice (App.run st1 later)))
          = false.
Proof.
  intros Hf st v.
  assert (Hinit : idle (App.voice (App.initial wsUrlValid isTypeSupported))).
  { repeat split. intros s H. discriminate H. }
  destruct (idle_app_run es (App.initial wsUrlValid isTypeSupported) Hf Hinit)
    as (Hidle & Htable & _ & _).
  fold st in Hidle, Htable. fold v in Hidle, Htable.
  cbn [App.initial App.voice Recorder.initial Recorder.isTypeSupported]
    in Htable.
  assert (Hf' : unsupported (Recorder.isTypeSupported v))
    by (rewrite Htable; exact Hf).
  pose proof Hidle as (Hrec & Hflag & _ & Hsess & Hstops).
  split; [exact Hrec |]. split; [exact Hflag |]. split; [exact Hsess |].
  intros k callback dataArray later Hk st1.
  assert (Hst1 : App.voice st1
                 = log Alert
                     (updateAudioLevel dataArray
                        (set_analyserRef (Some (S (fresh v)))
                           (set_audioContextRef (Some (S (fresh v)))
                              (set_fresh (S (S (fresh v)))
                                 (set_pending (remove_nth k (pending v)) v)))))).
  { subst st1. cbn [App.step]. fold v. cbn [step]. rewrite Hk.
    cbn [App.voice]. unfold capture_settled.
    cbn [Recorder.isTypeSupported updateAudioLevel requestAnimationFrame
         setAudioLevel set_analyserRef set_audioContextRef set_fresh
         set_animationFrameRef set_frames set_pending fresh].
    rewrite (unsupported_fallback _ Hf'). reflexivity. }
  assert (Hidle1 : idle (App.voice st1) /\
                   Recorder.isTypeSupported (App.voice st1)
                   = Recorder.isTypeSupported v).
  { destruct (idle_app_step st (App.Voice (MediaSettled k true dataArray))
                Hf' Hidle) as (H1 & H2 & _). split; assumption. }
  destruct Hidle1 as [Hidle1 Htable1].
  split; [rewrite Hst1; reflexivity |].
  split; [rewrite Hst1; reflexivity |].
  split; [rewrite Hst1; reflexivity |].
  assert (Hf1 : unsupported (Recorder.isTypeSupported (App.voice st1)))
    by (rewrite Htable1; exact Hf').
  destruct (idle_app_run later st1 Hf1 Hidle1) as (_ & _ & _ & Hkeep).
  rewrite Hkeep by (rewrite Hst1; cbn; lia).
  rewrite Hst1. cbn [log set_effects effects updateAudioLevel
    requestAnimationFrame setAudioLevel set_analyserRef set_audioContextRef
    set_fresh set_animationFrameRef set_frames set_pending].
  rewrite existsb_snoc. cbn [stops]. rewrite orb_false_r.
  destruct (existsb (stops (fresh v)) (effects v)) eqn:Hold; [| reflexivity].
  apply Hstops in Hold. lia.
Qed.

Lemma unsupported_types_alert :
  let st := App.run (App.initial true (fun _ => false))
              [App.Voice Mounted; App.Voice (MediaSettled 0 true []);
               App.Voice Click] in
  let st1 := App.step st (App.Voice (MediaSettled 0 true [128; 64])) in
  pending (App.voice st) = [CaptureRequest hinglish]
  /\ effects (App.voice st1) = [TrackStop 1; Alert]
  /\ audioContextRef (App.voice st1) = Some 3%nat
  /\ frames (App.voice st1) = [4%nat]
  /\ isRecording (App.voice st1) = false
  /\ existsb (stops 2)
       (effects (App.voice (App.run st1 [App.Voice Click;
                                         App.Voice Unmounted]))) = false.
Proof.
  intros st st1. split; [reflexivity |].
  destruct (unsupported_types_never_record (fun _ => false) true
              [App.Voice Mounted; App.Voice (MediaSettled 0 true []);
               App.Voice Click] (fun _ _ => eq_refl))
    as (_ & _ & _ & Hattempt).
  destruct (Hattempt 0%nat hinglish [128; 64]
                     [App.Voice Click; App.Voice Unmounted] eq_refl)
    as (Heffects & Hcontext & Hframes & Hnever).
  split; [exact Heffects |]. split; [exact Hcontext |].
  split; [exact Hframes |]. split; [reflexivity | exact Hnever].
Defined.

End Unsupported.

(** ** Unmounting during a recording *)
Module Unmount.
Import JS Blob Recorder Scenario Measures.

(** With no frame and no interval pending, the events of a session
    change the buffer alone. *)
Lemma quiet_step disabled callback st e :
  frames st = [] -> intervals st = [] -> ambient e = true ->
  let st' := fst (step disabled callback st e) in
  frames st' = [] /\ intervals st' = [] /\ effects st' = effects st
  /\ recorders st' = recorders st /\ recordingTime st' = recordingTime st
  /\ audioLevel st' = audioLevel st
  /\ exists more, audioChunksRef st' = audioChunksRef st ++ more.
Proof.
  intros Hframes Hintervals Hamb.
  assert (Hsame : frames st = [] /\ intervals st = []
                  /\ effects st = effects st
                  /\ recorders st = recorders st
                  /\ recordingTime st = recordingTime st
                  /\ audioLevel st = audioLevel st
                  /\ exists more, audioChunksRef st = audioChunksRef st ++ more)
    by (repeat split; auto; exists []; symmetry; apply app_nil_r).
  destruct e; try discriminate; cbn [step].
  - rewrite Hframes. exact Hsame.
  - rewrite Hintervals. exact Hsame.
  - destruct (recorder r st) as [m |]; [| exact Hsame].
    assert (Hdata : let st' := ondataavailable data st in
                    frames st' = [] /\ intervals st' = []
                    /\ effects st' = effects st
                    /\ recorders st' = recorders st
                    /\ recordingTime st' = recordingTime st
                    /\ audioLevel st' = audioLevel st
                    /\ exists more,
                         audioChunksRef st' = audioChunksRef st ++ more).
    { unfold ondataavailable. destruct (Nat.ltb 0 (size data));
        [| exact Hsame].
      repeat split; auto. exists [data]. reflexivity. }
    destruct (rec_state m), (rec_stop_due m); first [exact Hdata | exact Hsame].
Qed.

Lemma quiet_run disabled callback es :
  forall st,
    frames st = [] -> intervals st = [] -> forallb ambient es = true ->
    let st' := run disabled callback st es in
    frames st' = [] /\ intervals st' = [] /\ effects st' = effects st
    /\ recorders st' = recorders st /\ recordingTime st' = recordingTime st
    /\ audioLevel st' = audioLevel st
    /\ exists more, audioChunksRef st' = audioChunksRef st ++ more.
Proof.
  induction es as [| e es IH]; intros st Hframes Hintervals Hes.
  - repeat split; auto. exists []. symmetry. apply app_nil_r.
  - cbn [forallb] in Hes. apply andb_true_iff in Hes as [He Hes].
    destruct (quiet_step disabled callback st e Hframes Hintervals He)
      as (H1 & H2 & H3 & H4 & H5 & H6 & x & H7).
    destruct (IH _ H1 H2 Hes) as (K1 & K2 & K3 & K4 & K5 & K6 & y & K7).
    unfold run in *. cbn [fold_left]. cbn zeta in *.
    repeat split; try congruence.
    exists (x ++ y). rewrite K7, H7, app_assoc. reflexivity.
Qed.

(** X13.  The cleanup of the mount effect, run during a recording,
    cancels the animation frame and clears the interval, nothing else:
    the recorder goes on recording, its stream is not stopped, and
    through the events that follow the clock stands still while the
    chunks that arrive are still buffered. *)
Theorem unmount_keeps_recording (disabled : bool) (callback : Callback)
        (st : State) (r : nat) (m : MediaRecorder) (context interval : nat)
        (es : list Event) :
  capturing st r m context interval ->
  forallb ambient es = true ->
  let st' := run disabled callback (unmount st) es in
  recorder r st' = Some m /\ rec_state m = recording
  /\ (exists h,
        animationFrameRef st = Some h
        /\ effects st'
           = effects st ++ [CancelAnimationFrame h; ClearInterval interval])
  /\ frames st' = [] /\ intervals st' = []
  /\ recordingTime st' = recordingTime st
  /\ exists more, audioChunksRef st' = audioChunksRef st ++ more.
Proof.
  intros (Hflag & Hm & Href & Hr & Hcontext & Hint & Hints & h & Hh & Hfr)
         Hes st'.
  assert (Hu : unmount st
               = clearInterval interval (cancelAnimationFrame h st)).
  { unfold unmount. rewrite Hh. cbn [when_set].
    unfold cancelAnimationFrame at 1.
    cbn [log set_effects set_frames intervalRef]. rewrite Hint. reflexivity. }
  assert (Hfields : frames (unmount st) = [] /\ intervals (unmount st) = []
                    /\ effects (unmount st)
                       = effects st
                         ++ [CancelAnimationFrame h; ClearInterval interval]
                    /\ recorders (unmount st) = recorders st
                    /\ recordingTime (unmount st) = recordingTime st
                    /\ audioChunksRef (unmount st) = audioChunksRef st).
  { rewrite Hu. unfold clearInterval, cancelAnimationFrame, log.
    cbn [set_effects set_frames set_intervals frames intervals effects
         recorders recordingTime audioChunksRef].
    rewrite Hfr, Hints. cbn [remove_nat]. rewrite !Nat.eqb_refl.
    rewrite <- app_assoc. repeat split. }
  destruct Hfields as (U1 & U2 & U3 & U4 & U5 & U6).
  destruct (quiet_run disabled callback es (unmount st) U1 U2 Hes)
    as (K1 & K2 & K3 & K4 & K5 & _ & more & K7).
  fold st' in K1, K2, K3, K4, K5, K7.
  split; [unfold recorder in *; congruence |]. split; [exact Hm |].
  split; [exists h; split; [exact Hh | congruence] |].
  split; [exact K1 |]. split; [exact K2 |]. split; [congruence |].
  exists more. congruence.
Qed.

Lemma unmount_keeps_recording_started :
  let st' := run false hinglish (unmount started)
               [IntervalTick 5; AnimationFrame 4 [255];
                DataAvailable 0 {| blob_bytes := [Byte.x4d];
                                   blob_type := [] |}] in
  recorder 0 st' = Some started_recorder
  /\ effects st' = [TrackStop 1; CancelAnimationFrame 4; ClearInterval 5]
  /\ recordingTime st' = 0
  /\ List.length (audioChunksRef st') = 1%nat.
Proof.
  intros st'.
  destruct (unmount_keeps_recording false hinglish started 0 started_recorder
              3 5
              [IntervalTick 5; AnimationFrame 4 [255];
               DataAvailable 0 {| blob_bytes := [Byte.x4d];
                                  blob_type := [] |}]
              Capture.started_capturing eq_refl)
    as (Hr & _ & (h & Hh & Heffects) & _ & _ & Hclock & _).
  assert (h = 4%nat) by (cbn in Hh; congruence). subst h.
  split; [exact Hr |]. split; [exact Heffects |].
  split; [exact Hclock | reflexivity].
Defined.

End Unmount.

(** ** Two captures at once *)
Module Overlap.
Import JS Blob Recorder Scenario Measures.
Import ListFacts Lists.

Lemma ambient_same_recorders disabled callback st e :
  ambient e = true ->
  same_recorders st (fst (step disabled callback st e)).
Proof.
  intros Hamb. destruct e; try discriminate; cbn [step].
  - destruct (mem h (frames st)); repeat split.
  - destruct (mem h (intervals st)); repeat split.
  - destruct (recorder r st) as [m |]; [| repeat split].
    unfold ondataavailable.
    destruct (rec_state m), (rec_stop_due m), (Nat.ltb 0 (size data));
      repeat split.
Qed.

Lemma ambient_run_same_recorders disabled callback es :
  forall st,
    forallb ambient es = true ->
    same_recorders st (run disabled callback st es).
Proof.
  induction es as [| e es IH]; intros st Hes; [repeat split |].
  cbn [forallb] in Hes. apply andb_true_iff in Hes as [He Hes].
  destruct (ambient_same_recorders disabled callback st e He)
    as (A1 & A2 & A3 & A4 & A5 & A6 & A7).
  destruct (IH (fst (step disabled callback st e)) Hes)
    as (B1 & B2 & B3 & B4 & B5 & B6 & B7).
  unfold run in *. cbn [fold_left]. repeat split; congruence.
Qed.

Lemma release_fields stream st s :
  recorders (release stream st) = recorders st
  /\ mediaRecorderRef (release stream st) = mediaRecorderRef st
  /\ isRecording (release stream st) = isRecording st
  /\ intervals (release stream st)
     = match intervalRef st with
       | Some i => remove_nat i (intervals st)
       | None => intervals st
       end
  /\ existsb (stops s) (effects (release stream st))
     = existsb (stops s) (effects st) || Nat.eqb stream s.
Proof.
  unfold release, when_set.
  cbn [log set_effects audioContextRef animationFrameRef intervalRef].
  destruct (audioContextRef st) as [c |];
    cbn [log set_effects audioContextRef animationFrameRef intervalRef];
    (destruct (animationFrameRef st) as [h |];
     cbn [cancelAnimationFrame log set_effects set_frames intervalRef];
     (destruct (intervalRef st) as [i |];
      cbn [clearInterval log set_effects set_intervals set_frames
           setRecordingTime setAudioLevel recorders mediaRecorderRef
           isRecording intervals effects];
      unfold cancelAnimationFrame, log;
      cbn [set_effects set_frames effects];
      rewrite ?existsb_app; cbn [existsb stops];
      rewrite ?orb_false_r; repeat split)).
Qed.

Lemma second_settled disabled callback second st k dataArray interval :
  nth_error (pending st) k = Some (CaptureRequest second) ->
  isTypeSupported st (getSupportedMimeType (isTypeSupported st)) = true ->
  intervals st = [interval] ->
  let m2 := {| rec_stream := fresh st;
               rec_mimeType := getSupportedMimeType (isTypeSupported st);
               rec_onRecordingComplete := second;
               rec_state := recording; rec_stop_due := false |} in
  let st2 := fst (step disabled callback st
                       (MediaSettled k true dataArray)) in
  mediaRecorderRef st2 = Some (List.length (recorders st))
  /\ audioChunksRef st2 = []
  /\ intervals st2 = [interval; S (S (S (fresh st)))]
  /\ recorders st2 = recorders st ++ [m2]
  /\ isRecording st2 = true
  /\ intervalRef st2 = Some (S (S (S (fresh st))))
  /\ audioContextRef st2 = Some (S (fresh st))
  /\ effects st2 = effects st.
Proof.
  intros Hk Hsupported Hints m2 st2. subst st2. cbn [step]. rewrite Hk.
  cbn [fst]. unfold capture_settled.
  cbn [isTypeSupported updateAudioLevel requestAnimationFrame
       setAudioLevel set_analyserRef set_audioContextRef set_fresh
       set_animationFrameRef set_frames set_pending].
  rewrite Hsupported.
  unfold updateAudioLevel, requestAnimationFrame, setInterval.
  cbn [setIsRecording set_audioChunksRef set_mediaRecorderRef
       set_recorders set_intervalRef set_intervals set_fresh
       set_animationFrameRef set_frames setAudioLevel set_analyserRef
       set_audioContextRef set_pending mediaRecorderRef audioChunksRef
       intervals recorders isRecording intervalRef audioContextRef effects
       fresh].
  rewrite Hints. repeat split.
Qed.

Lemma stop_current st r m :
  mediaRecorderRef st = Some r -> isRecording st = true ->
  recorder r st = Some m -> rec_state m = recording ->
  let st' := stopRecording st in
  recorder r st' = Some (stopping m)
  /\ (forall j, j <> r -> recorder j st' = recorder j st)
  /\ mediaRecorderRef st' = Some r
  /\ intervalRef st' = intervalRef st
  /\ intervals st' = intervals st
  /\ effects st' = effects st.
Proof.
  intros Href Hflag Hr Hm st'. subst st'.
  unfold stopRecording, recorder_stop. rewrite Href, Hflag, Hr, Hm.
  unfold recorder in *. cbn [setIsRecording set_recorders recorders
                             mediaRecorderRef intervalRef intervals effects].
  split; [apply (nth_error_replace_nth _ _ _ m); exact Hr |].
  split; [intros j Hj; apply nth_error_replace_other; congruence |].
  repeat split. exact Href.
Qed.

Lemma stop_event disabled callback st r m s :
  recorder r st = Some m -> rec_stop_due m = true ->
  let st' := fst (step disabled callback st (Stopped r)) in
  (forall j, j <> r -> recorder j st' = recorder j st)
  /\ mediaRecorderRef st' = mediaRecorderRef st
  /\ isRecording st' = isRecording st
  /\ intervals st'
     = match intervalRef st with
       | Some i => remove_nat i (intervals st)
       | None => intervals st
       end
  /\ existsb (stops s) (effects st')
     = existsb (stops s) (effects st) || Nat.eqb (rec_stream m) s.
Proof.
  intros Hr Hdue st'. subst st'. cbn [step]. rewrite Hr, Hdue.
  assert (Hfst : fst (let (clip, st2) :=
                        onstop (rec_stream m) (rec_mimeType m)
                          (set_recorders
                             (replace_nth r (stopped m) (recorders st)) st) in
                      (st2, Some (rec_onRecordingComplete m, clip)))
                 = release (rec_stream m)
                     (log (RecordingComplete
                             (new_Blob (audioChunksRef st) (rec_mimeType m)))
                          (set_recorders
                             (replace_nth r (stopped m) (recorders st)) st)))
    by reflexivity.
  assert (Hgoal : forall st',
             st' = release (rec_stream m)
                     (log (RecordingComplete
                             (new_Blob (audioChunksRef st) (rec_mimeType m)))
                          (set_recorders
                             (replace_nth r (stopped m) (recorders st)) st)) ->
             (forall j, j <> r -> recorder j st' = recorder j st)
             /\ mediaRecorderRef st' = mediaRecorderRef st
             /\ isRecording st' = isRecording st
             /\ intervals st'
                = match intervalRef st with
                  | Some i => remove_nat i (intervals st)
                  | None => intervals st
                  end
             /\ existsb (stops s) (effects st')
                = existsb (stops s) (effects st) || Nat.eqb (rec_stream m) s).
  { intros st' ->.
    match goal with
    | |- context [release ?stream ?st0] =>
        destruct (release_fields stream st0 s) as (R1 & R2 & R3 & R4 & R5)
    end.
    unfold recorder. rewrite R1, R2, R3, R4, R5.
    unfold log.
    cbn [set_effects set_recorders recorders mediaRecorderRef isRecording
         intervalRef intervals effects].
    rewrite existsb_app. cbn [existsb stops]. rewrite orb_false_r.
    split; [intros j Hj; apply nth_error_replace_other; congruence |].
    repeat split. }
  destruct (rec_state m); apply Hgoal; exact Hfst.
Qed.

(** X14.  A second capture that starts while the first is recording
    (the button was clicked twice before the first started) takes over
    the refs and empties the chunk buffer.  Stopping then stops the
    second recorder only: after its stop event the first recorder is
    still recording, its stream was not stopped, its interval is still
    set, and [stopRecording] no longer does anything. *)
Theorem second_capture_orphans_first
        (disabled : bool) (callback second : Callback) (st : State)
        (r : nat) (m : MediaRecorder) (context interval k : nat)
        (dataArray : list N) (es : list Event) :
  capturing st r m context interval ->
  nth_error (pending st) k = Some (CaptureRequest second) ->
  isTypeSupported st (getSupportedMimeType (isTypeSupported st)) = true ->
  (rec_stream m < fresh st)%nat -> (interval < fresh st)%nat ->
  forallb ambient es = true ->
  let r2 := List.length (recorders st) in
  let st2 := fst (step disabled callback st
                       (MediaSettled k true dataArray)) in
  let st3 := run disabled callback (stopRecording st2) es in
  let st4 := fst (step disabled callback st3 (Stopped r2)) in
  mediaRecorderRef st2 = Some r2 /\ r <> r2
  /\ audioChunksRef st2 = []
  /\ intervals st2 = [interval; S (S (S (fresh st)))]
  /\ recorder r st4 = Some m /\ rec_state m = recording
  /\ existsb (stops (rec_stream m)) (effects st4)
     = existsb (stops (rec_stream m)) (effects st)
  /\ intervals st4 = [interval]
  /\ stopRecording st4 = st4.
Proof.
  intros (Hflag & Hm & Href & Hr & Hcontext & Hint & Hints & h & Hh & Hfr)
         Hk Hsupported Hstream Hinterval Hes r2 st2 st3 st4.
  assert (Hlt : (r < r2)%nat)
    by (subst r2; apply nth_error_Some; unfold recorder in Hr; congruence).
  destruct (second_settled disabled callback second st k dataArray interval
              Hk Hsupported Hints)
    as (S1 & S2 & S3 & S4 & S5 & S6 & S7 & S8).
  fold st2 in S1, S2, S3, S4, S5, S6, S7, S8. fold r2 in S1.
  clearbody st2.
  set (m2 := {| rec_stream := fresh st;
                rec_mimeType := getSupportedMimeType (isTypeSupported st);
                rec_onRecordingComplete := second;
                rec_state := recording; rec_stop_due := false |}) in *.
  assert (Hr2 : recorder r2 st2 = Some m2)
    by (unfold recorder; rewrite S4; subst r2; apply nth_error_snoc).
  assert (Hr' : recorder r st2 = Some m).
  { unfold recorder. rewrite S4, nth_error_app1 by exact Hlt. exact Hr. }
  destruct (stop_current st2 r2 m2 S1 S5 Hr2 eq_refl)
    as (T1 & T2 & T3 & T4 & T5 & T6).
  destruct (ambient_run_same_recorders disabled callback es
              (stopRecording st2) Hes)
    as (A1 & A2 & A3 & A4 & A5 & A6 & A7).
  fold st3 in A1, A2, A3, A4, A5, A6, A7. clearbody st3.
  assert (Hr3 : recorder r2 st3 = Some (stopping m2))
    by (unfold recorder in *; rewrite A3; exact T1).
  destruct (stop_event disabled callback st3 r2 (stopping m2) (rec_stream m)
              Hr3 eq_refl)
    as (U1 & U2 & U3 & U4 & U5).
  fold st4 in U1, U2, U3, U4, U5. clearbody st4.
  split; [exact S1 |]. split; [lia |]. split; [exact S2 |].
  split; [exact S3 |].
  split.
  { rewrite U1 by lia. unfold recorder in *. rewrite A3.
    rewrite T2 by lia. exact Hr'. }
  split; [exact Hm |].
  split.
  { rewrite U5, A7, T6, S8. cbn [stopping rec_stream m2].
    replace (Nat.eqb (fresh st) (rec_stream m)) with false
      by (symmetry; apply Nat.eqb_neq; lia).
    apply orb_false_r. }
  split.
  { rewrite U4, A5, A6, T4, T5, S6, S3. cbn [remove_nat].
    replace (Nat.eqb interval (S (S (S (fresh st))))) with false
      by (symmetry; apply Nat.eqb_neq; lia).
    rewrite Nat.eqb_refl. reflexivity. }
  unfold stopRecording. rewrite U2, U3, A2, A1, T3.
  unfold stopRecording. rewrite S1, S5. reflexivity.
Qed.

Lemma clicked_twice_reached :
  run false hinglish (initial (fun _ => true))
      [Mounted; MediaSettled 0 true []; Click; Click;
       MediaSettled 0 true [128; 64]]
  = Cases.clicked_twice.
Proof. reflexivity. Qed.

Lemma second_capture_orphans_first_twice :
  let st2 := fst (step false hinglish Cases.clicked_twice
                       (MediaSettled 0 true [])) in
  let st3 := run false hinglish (stopRecording st2)
                 [IntervalTick 5; DataAvailable 0 sample_clip] in
  let st4 := fst (step false hinglish st3 (Stopped 1)) in
  recorder 0 st4 = Some started_recorder
  /\ intervals st4 = [5%nat]
  /\ stopRecording st4 = st4.
Proof.
  intros st2 st3 st4.
  assert (Hcapturing : capturing Cases.clicked_twice 0 started_recorder 3 5)
    by (repeat split; exists 4%nat; split; reflexivity).
  assert (Hstream : (2 < 6)%nat) by lia.
  destruct (second_capture_orphans_first false hinglish hinglish
              Cases.clicked_twice 0%nat started_recorder 3%nat 5%nat 0%nat []
              [IntervalTick 5; DataAvailable 0 sample_clip]
              Hcapturing eq_refl eq_refl Hstream (le_n 6) eq_refl)
    as (_ & _ & _ & _ & Hfirst & _ & _ & Hintervals & Hstop).
  split; [exact Hfirst |]. split; [exact Hintervals | exact Hstop].
Defined.

End Overlap.

(** ** The display of the recording time *)
Module Clock.
Import JS Recorder Meter.

Lemma units_of_uint_inj d : forall d', units_of_uint d = units_of_uint d' -> d = d'.
Proof.
  induction d; intros [] H; cbn in H; try discriminate; try reflexivity;
    injection H as H; f_equal; apply IHd; exact H.
Qed.

Lemma Number_toString_inj a b : Number_toString a = Number_toString b -> a = b.
Proof.
  intros H. apply Unsigned.to_uint_inj. apply units_of_uint_inj. exact H.
Qed.

(** The seconds are written with two digits. *)
Lemma two_digits (secs : N) :
  secs < 60 ->
  padStart 2 48 (Number_toString secs) = [48 + secs / 10; 48 + secs mod 10].
Proof.
  intros H.
  assert (Hcases : In secs (map N.of_nat (seq 0 60))).
  { rewrite <- (N2Nat.id secs). apply in_map. apply in_seq. lia. }
  cbn in Hcases.
  repeat (destruct Hcases as [<- | Hcases]; [reflexivity |]).
  contradiction.
Qed.

Lemma formatTime_shape (seconds : N) :
  formatTime seconds
  = Number_toString (seconds / 60)
    ++ [58; 48 + (seconds mod 60) / 10; 48 + (seconds mod 60) mod 10].
Proof.
  unfold formatTime. cbn zeta.
  rewrite two_digits by (apply N.mod_lt; discriminate). reflexivity.
Qed.

(** X15.  [formatTime] writes the minutes in decimal, a colon, and the
    seconds of the minute with two digits; different counts of seconds
    are written differently. *)
Theorem formatTime_minutes_seconds :
  (forall seconds : N,
      formatTime seconds
      = Number_toString (seconds / 60)
        ++ [58; 48 + (seconds mod 60) / 10; 48 + (seconds mod 60) mod 10])
  /\ (forall a b : N, formatTime a = formatTime b -> a = b).
Proof.
  split; [exact formatTime_shape |].
  intros a b H. rewrite !formatTime_shape in H.
  assert (Hsplit : forall (m : jsstring) x y,
             m ++ [58; x; y] = ((m ++ [58]) ++ [x]) ++ [y])
    by (intros; rewrite <- !app_assoc; reflexivity).
  rewrite !Hsplit in H.
  apply app_inj_tail in H as [H H0]. apply app_inj_tail in H as [H H1].
  apply app_inj_tail in H as [Hmins _].
  apply Number_toString_inj in Hmins.
  assert (Hsecs : a mod 60 = b mod 60).
  { pose proof (N.div_mod' (a mod 60) 10).
    pose proof (N.div_mod' (b mod 60) 10). lia. }
  pose proof (N.div_mod' a 60). pose proof (N.div_mod' b 60). lia.
Qed.

Lemma formatTime_samples :
  formatTime 0 = lit "0:00" /\ formatTime 65 = lit "1:05"
  /\ formatTime 3599 = lit "59:59" /\ formatTime 3600 = lit "60:00"
  /\ 125 = 60 * 2 + 5.
Proof.
  split; [reflexivity |]. split; [reflexivity |].
  split; [reflexivity |]. split; [reflexivity |].
  exact (proj2 formatTime_minutes_seconds 125 (60 * 2 + 5) eq_refl).
Defined.

End Clock.

(** ** The level meter *)
Module Bars.
Import JS Recorder Meter.

Lemma all_from_spec count :
  forall start f,
    all_from count start f = true ->
    forall k, start <= k -> k < start + N.of_nat count -> f k = true.
Proof.
  induction count as [| count IH]; intros start f H k Hlo Hhi.
  - cbn in Hhi. lia.
  - cbn [all_from] in H. apply andb_true_iff in H as [Hstart Hrest].
    destruct (N.eq_dec k start) as [-> | Hne]; [exact Hstart |].
    apply (IH (N.succ start) f Hrest); lia.
Qed.

(** Every sum that 128 bytes can have. *)
Lemma bars_checked : all_from (N.to_nat 32641) 0 bars_agree = true.
Proof. reflexivity. Qed.

Lemma sum_bound dataArray :
  Forall (fun value => value <= 255) dataArray ->
  forall acc,
    fold_left N.add dataArray acc
    <= acc + 255 * N.of_nat (List.length dataArray).
Proof.
  induction 1 as [| value dataArray Hvalue _ IH]; intros acc;
    cbn [fold_left List.length]; [lia |].
  specialize (IH (acc + value)). lia.
Qed.

Lemma map_agree {A : Type} (f g : A -> bool) l :
  forallb (fun x => Bool.eqb (f x) (g x)) l = true -> map f l = map g l.
Proof.
  induction l as [| x l IH]; cbn; [reflexivity |].
  intros H. apply andb_true_iff in H as [Hx Hl].
  apply eqb_prop in Hx. rewrite Hx, (IH Hl). reflexivity.
Qed.

(** X16.  For the 128 bytes of the analyser, the level computed in
    double precision lights the bars the exact quotient would light:
    bar [i] (from 0) is tall exactly when the sum of the bytes exceeds
    [51 * (i + 1) * 128], and the fifth bar is never tall, the level
    never exceeding 100. *)
Theorem bars_of_level (dataArray : list N) :
  List.length dataArray = 128%nat ->
  Forall (fun value => value <= 255) dataArray ->
  bars (audioLevel_number dataArray)
  = map (above (level dataArray)) [0; 1; 2; 3; 4]
  /\ (forall i, In i [0; 1; 2; 3; 4] ->
        tall (audioLevel_number dataArray) i
        = (51 * (i + 1) * 128 <? fold_left N.add dataArray 0))
  /\ tall (audioLevel_number dataArray) 4 = false.
Proof.
  intros Hlength Hbytes.
  pose proof (sum_bound dataArray Hbytes 0) as Hsum.
  rewrite Hlength in Hsum.
  set (sum := fold_left N.add dataArray 0) in *.
  assert (Hagree : bars_agree sum = true).
  { apply (all_from_spec _ _ _ bars_checked); lia. }
  assert (Hbars : bars (audioLevel_number dataArray)
                  = map (above (level dataArray)) [0; 1; 2; 3; 4]).
  { apply map_agree. unfold bars_agree, agree_with, thresholds in Hagree.
    cbn [map forallb fst snd] in Hagree. exact Hagree. }
  assert (Habove : forall i, above (level dataArray) i
                             = (51 * (i + 1) * 128 <? sum)).
  { intros i. unfold above, level. cbn [fst snd]. fold sum.
    unfold bufferLength.
    destruct (51 * (i + 1) * 128 <? sum) eqn:H.
    - apply N.ltb_lt in H. apply N.ltb_lt. lia.
    - apply N.ltb_ge in H. apply N.ltb_ge. lia. }
  assert (Htall : forall i, In i [0; 1; 2; 3; 4] ->
                            tall (audioLevel_number dataArray) i
                            = (51 * (i + 1) * 128 <? sum)).
  { intros i Hi. rewrite <- Habove.
    unfold bars in Hbars. cbn [map] in Hbars.
    injection Hbars as H0 H1 H2 H3 H4.
    destruct Hi as [<- | [<- | [<- | [<- | [<- | []]]]]]; assumption. }
  split; [exact Hbars |]. split; [exact Htall |].
  rewrite Htall by (cbn; auto 6). apply N.ltb_ge. lia.
Qed.

Lemma bars_of_level_loudest :
  let dataArray := repeat 255 128 in
  level dataArray = (3264000, 32640)
  /\ bars (audioLevel_number dataArray) = [true; true; true; true; false].
Proof.
  intros dataArray. split; [reflexivity |].
  assert (Hbytes : Forall (fun value => value <= 255) dataArray).
  { apply Forall_forall. intros value H. apply repeat_spec in H.
    subst value. apply N.le_refl. }
  rewrite (proj1 (bars_of_level dataArray eq_refl Hbytes)).
  reflexivity.
Defined.

End Bars.

(** ** A message of the transcript *)
Module Rendering.
Import JS Bubble StringFacts.

Lemma hasDevanagariScript_app a b :
  hasDevanagariScript (a ++ b)
  = hasDevanagariScript a || hasDevanagariScript b.
Proof. apply existsb_app. Qed.

(** X17.  [renderText] never changes the text of a message, whatever
    the script display: with devanagari it emphasizes the texts without
    a Devanagari code unit, with latin those with one, with any other
    value (dual included) none; and a text has a Devanagari code unit
    exactly when one of its parts has. *)
Theorem renderText_keeps_text :
  (forall scriptDisplay text : jsstring,
      content (renderText scriptDisplay text) = text)
  /\ (forall text : jsstring,
         emphasized (renderText (lit "devanagari") text)
         = negb (hasDevanagariScript text)
         /\ emphasized (renderText (lit "latin") text)
            = hasDevanagariScript text)
  /\ (forall scriptDisplay text : jsstring,
         scriptDisplay <> lit "devanagari" -> scriptDisplay <> lit "latin" ->
         renderText scriptDisplay text = Plain text)
  /\ (forall a b : jsstring,
         hasDevanagariScript (a ++ b)
         = hasDevanagariScript a || hasDevanagariScript b).
Proof.
  split; [| split; [| split]].
  - intros scriptDisplay text. unfold renderText.
    destruct (jsstring_eqb scriptDisplay (lit "devanagari")),
             (jsstring_eqb scriptDisplay (lit "latin")),
             (hasDevanagariScript text); reflexivity.
  - intros text. unfold renderText.
    change (jsstring_eqb (lit "devanagari") (lit "devanagari")) with true.
    change (jsstring_eqb (lit "latin") (lit "devanagari")) with false.
    change (jsstring_eqb (lit "latin") (lit "latin")) with true.
    cbn iota. destruct (hasDevanagariScript text); split; reflexivity.
  - intros scriptDisplay text Hd Hl. unfold renderText.
    destruct (jsstring_eqb scriptDisplay (lit "devanagari")) eqn:H1;
      [apply jsstring_eqb_eq in H1; contradiction |].
    destruct (jsstring_eqb scriptDisplay (lit "latin")) eqn:H2;
      [apply jsstring_eqb_eq in H2; contradiction |].
    reflexivity.
  - exact hasDevanagariScript_app.
Qed.

Lemma renderText_keeps_text_mixed :
  let text := lit "Namaste " ++ [2344; 2350; 2360; 2381; 2340; 2375] in
  renderText (lit "latin") text = Emphasis text
  /\ renderText (lit "devanagari") text = Plain text
  /\ renderText (lit "dual") text = Plain text.
Proof.
  intros text.
  assert (Hd : lit "dual" <> lit "devanagari") by discriminate.
  assert (Hl : lit "dual" <> lit "latin") by discriminate.
  split; [reflexivity |]. split; [reflexivity |].
  exact (proj1 (proj2 (proj2 renderText_keeps_text)) (lit "dual") text Hd Hl).
Defined.

(** *** The play button *)




End Rendering.

(** ** The install prompt *)
Module Installing.
Import Install Lists.

Lemma deferred_step st e : deferred st -> deferred (step st e).
Proof.
  intros H. pose proof H as (Hiff & Hheld & Hprompted & Hawaiting).
  destruct e; cbn [step].
  - exact H.
  - exact H.
  - destruct (listening st); [| exact H].
    unfold handleBeforeInstallPrompt, deferred.
    cbn [isInstallable installPromptEvent prevented prompted awaiting].
    split; [split; [discriminate | reflexivity] |].
    split; [| split; [| exact Hawaiting]].
    + intros e He. injection He as <-. apply in_or_app. right. left.
      reflexivity.
    + intros e He. apply in_or_app. left. apply Hprompted. exact He.
  - destruct (listening st); [| exact H].
    unfold handleAppInstalled, deferred.
    cbn [isInstallable installPromptEvent prevented prompted awaiting].
    split; [split; [discriminate | intros Hn; contradiction Hn; reflexivity] |].
    split; [discriminate |]. split; assumption.
  - destruct (isInstallable st) eqn:Hflag; [| exact H].
    unfold promptInstall.
    destruct (installPromptEvent st) as [event |] eqn:Hevent.
    + destruct (throws && existsb (Nat.eqb event) (prompted st)); [exact H |].
      unfold deferred.
      cbn [isInstallable installPromptEvent prevented prompted awaiting].
      rewrite ?Hflag, ?Hevent.
      split; [split; [discriminate | reflexivity] |].
      split; [exact Hheld |]. split.
      * intros e He. apply in_app_or in He as [He | [<- | []]];
          [apply Hprompted; exact He | apply Hheld; reflexivity].
      * intros e He. apply in_app_or in He as [He | [<- | []]];
          apply in_or_app; [left; apply Hawaiting; exact He |].
        right. left. reflexivity.
    + unfold deferred.
      cbn [isInstallable installPromptEvent prevented prompted awaiting].
      rewrite ?Hflag, ?Hevent.
      split; [exact Hiff |]. split; [discriminate |]. split; assumption.
  - destruct (nth_error (awaiting st) k) as [event |]; [| exact H].
    unfold choice_settled, deferred.
    cbn [isInstallable installPromptEvent prevented prompted awaiting].
    destruct accepted.
    + split; [split; [discriminate | intros Hn; contradiction Hn; reflexivity] |].
      split; [discriminate |]. split; [exact Hprompted |].
      apply incl_remove_nth. exact Hawaiting.
    + split; [exact Hiff |]. split; [exact Hheld |].
      split; [exact Hprompted |].
      apply incl_remove_nth. exact Hawaiting.
Qed.

(** X19.  Through any sequence of window events, clicks and choices,
    the install banner is shown exactly when a [beforeinstallprompt]
    event is held; the event held, and every event [prompt] was called
    on, had its default prevented; an accepted choice hides the banner
    and drops the event, a dismissed one changes neither. *)
Theorem banner_iff_event_held (es : list Event) :
  let st := run initial es in
  (isInstallable st = true <-> installPromptEvent st <> None)
  /\ (forall event, installPromptEvent st = Some event ->
                    In event (prevented st))
  /\ incl (prompted st) (prevented st)
  /\ (forall k event,
         nth_error (awaiting st) k = Some event ->
         isInstallable (step st (ChoiceSettled k true)) = false
         /\ installPromptEvent (step st (ChoiceSettled k true)) = None
         /\ isInstallable (step st (ChoiceSettled k false)) = isInstallable st
         /\ installPromptEvent (step st (ChoiceSettled k false))
            = installPromptEvent st).
Proof.
  intros st.
  assert (H : deferred st).
  { subst st. unfold run.
    assert (Hrun : forall s, deferred s -> deferred (fold_left step es s)).
    { induction es as [| e es IH]; intros s Hs; cbn [fold_left];
        [exact Hs |].
      apply IH. apply deferred_step. exact Hs. }
    apply Hrun. repeat split; try discriminate.
    - intros H. contradiction H. reflexivity.
    - intros e [].
    - intros e []. }
  destruct H as (Hiff & Hheld & Hprompted & _).
  split; [exact Hiff |]. split; [exact Hheld |]. split; [exact Hprompted |].
  intros k event Hk. cbn [step]. rewrite Hk. repeat split.
Qed.

Lemma banner_iff_event_held_dismissed :
  let es := [Mounted; BeforeInstallPrompt 7; InstallClick false;
             ChoiceSettled 0 false] in
  isInstallable (run initial es) = true
  /\ installPromptEvent (run initial es) = Some 7%nat
  /\ prompted (run initial es) = [7%nat]
  /\ returned (run initial es) = [false]
  /\ In 7%nat (prevented (run initial es)).
Proof.
  intros es. split; [reflexivity |]. split; [reflexivity |].
  split; [reflexivity |]. split; [reflexivity |].
  exact (proj1 (proj2 (banner_iff_event_held es)) 7%nat eq_refl).
Defined.

End Installing.

(** ** The Enter key and the send button *)
Module Typing.
Import JS JSON Blob Chat Scenario.

(** X20.  The Enter key in the text box and the send button do the same
    in every state of the page; where the button is disabled (the
    trimmed input is empty, or a turn is pending) the Enter key changes
    nothing. *)
Theorem enter_key_is_send_button (st : State) :
  step st EnterKey = step st SendClick
  /\ (is_empty (trim (inputText st)) || isProcessing st = true ->
      step st EnterKey = st).
Proof.
  assert (Hblank : is_empty (trim (inputText st)) = true ->
                   handleSubmit st = st).
  { intros H. unfold handleSubmit, sendTextMessage. rewrite H. reflexivity. }
  cbn [step]. destruct (isProcessing st).
  - rewrite orb_true_r. split; reflexivity.
  - rewrite orb_false_r.
    destruct (is_empty (trim (inputText st))) eqn:H.
    + rewrite (Hblank eq_refl). split; reflexivity.
    + split; [reflexivity | discriminate].
Qed.

Lemma enter_key_is_send_button_blank :
  let st := setInputText (lit "  ") connected_page in
  step st EnterKey = st
  /\ messages (step (setInputText (lit "hello") connected_page) SendClick)
     = messages (step (setInputText (lit "hello") connected_page) EnterKey).
Proof.
  intros st. split.
  - exact (proj2 (enter_key_is_send_button st) eq_refl).
  - rewrite (proj1 (enter_key_is_send_button
                      (setInputText (lit "hello") connected_page))).
    reflexivity.
Defined.

End Typing.
